(** * Peak finding, centroiding, tracing and extraction loops of
      [gempy/library/tracing.py]: a shallow embedding and its properties.

    Conventions of the embedding.
    - Python/NumPy floating-point values are modelled by exact rationals
      ([Q]); the markers [np.nan] and [np.inf] are modelled explicitly where
      the code relies on them.
    - A Python exception is a [Raise] result of the small error monad below.
    - Library routines whose source is outside the repository (SciPy's
      spline fitting, the collapse function handed to [trace_lines],
      astropy's fitters) are section variables of the functions that call
      them. *)

From Stdlib Require Import ZArith QArith Qminmax Qabs Qround Lia Lqa List Bool.
From Stdlib Require Import Sorting.Sorted Sorting.Permutation.
From stdpp Require Import base list strings gmap.

Local Open Scope Z_scope.

(** ** Results and exceptions *)

Inductive exn : Type := ValueError | IndexError | ZeroDivisionError.

(** Outcome of running a piece of the program: a value, a Python exception,
    or [OutOfFuel] when a [while] loop of the model was cut short by its
    fuel.  [OutOfFuel] is an artefact of the embedding: each loop is shown
    below not to run out of the fuel its caller supplies, except where the
    Python loop itself goes on for ever ([trace_lines] with [step = 0]). *)
Inductive result (A : Type) : Type :=
| Ok (a : A)
| Raise (e : exn)
| OutOfFuel.

Arguments Ok {A} a.
Arguments Raise {A} e.
Arguments OutOfFuel {A}.

#[global] Instance result_ret : MRet result := fun A a => Ok a.

#[global] Instance result_bind : MBind result := fun A B k r =>
  match r with
  | Ok a => k a
  | Raise e => Raise e
  | OutOfFuel => OutOfFuel
  end.

(** A comprehension or loop whose body may raise: the first exception
    aborts the whole traversal. *)
Fixpoint traverse {A B : Type} (f : A -> result B) (l : list A) : result (list B) :=
  match l with
  | [] => Ok []
  | x :: l' => y ← f x; ys ← traverse f l'; Ok (y :: ys)
  end.

(** ** Python and NumPy primitives *)

(** [int(x)] on a float: truncation towards zero. *)
Definition py_int (x : Q) : Z := Z.quot (Qnum x) (Z.pos (Qden x)).

Definition Qsum (l : list Q) : Q := foldr Qplus 0%Q l.

Definition Qltb (x y : Q) : bool := negb (Qle_bool y x).

(** [np.arange(0, n)]: empty when [n <= 0]. *)
Definition np_arange (n : Z) : list Z := map Z.of_nat (seq 0 (Z.to_nat n)).

(** Entry [k] of the full discrete convolution of [a] and [v]. *)
Definition conv_at (a v : list Q) (k : nat) : Q :=
  Qsum (map (fun j => if (j <=? k)%nat
                      then (nth j a 0 * nth (k - j) v 0)%Q
                      else 0%Q)
            (seq 0 (length a))).

(** [np.convolve(a, v, mode='same')]: the operands are swapped when [v] is
    the longer one, an empty operand raises [ValueError], and the result is
    the central part of the full convolution, as long as the longer
    operand. *)
Definition np_convolve_same (a v : list Q) : result (list Q) :=
  let '(a, v) := if (length a <? length v)%nat then (v, a) else (a, v) in
  if (length a =? 0)%nat then Raise ValueError
  else if (length v =? 0)%nat then Raise ValueError
  else Ok (map (fun i => conv_at a v (i + (length v - 1) / 2)%nat)
               (seq 0 (length a))).

(** [out[ind] = row] for a row of [out] of length [n]: NumPy broadcasts a
    one-element right-hand side and raises on any other length mismatch. *)
Definition assign_row (n : nat) (row : list Q) : result (list Q) :=
  if (length row =? n)%nat then Ok row
  else if (length row =? 1)%nat then Ok (replicate n (hd 0%Q row))
  else Raise ValueError.

(** ** [cwt_ricker] *)

Module Ricker.
Section Ricker.

(** The two transcendental ingredients of [scipy.signal.ricker]:
    [A = 2 / (sqrt(3 a) * pi ** 0.25)] and [np.exp]. *)
Variable ricker_amp : Q -> Q.
Variable np_exp : Q -> Q.

(** [scipy.signal.ricker(points, a)]. *)
Definition ricker (points : Z) (a : Q) : list Q :=
  let A := ricker_amp a in
  let wsq := (a * a)%Q in
  map (fun i =>
         let vec := (inject_Z i - (inject_Z points - 1) / 2)%Q in
         let xsq := (vec * vec)%Q in
         let mod_ := (1 - xsq / wsq)%Q in
         let gauss := np_exp (- xsq / (2 * wsq))%Q in
         (A * mod_ * gauss)%Q)
      (np_arange points).

(** [N = int(np.min([10 * width, len(data)])) // 2 * 2 - 1]. *)
Definition wavelet_length (width : Q) (n : nat) : Z :=
  py_int (Qmin (10 * width) (inject_Z (Z.of_nat n))) / 2 * 2 - 1.

Definition cwt_row (data : list Q) (width : Q) : result (list Q) :=
  let N := wavelet_length width (length data) in
  let wavelet_data := rev (ricker N width) in
  row ← np_convolve_same data wavelet_data;
  assign_row (length data) row.

Definition cwt_ricker (data widths : list Q) : result (list (list Q)) :=
  traverse (cwt_row data) widths.

End Ricker.
End Ricker.

(** ** More NumPy and Python primitives *)

(** NumPy broadcasting of two one-dimensional operands: equal lengths pair
    up, a one-element operand is repeated, anything else raises. *)
Definition broadcast2 {A B C : Type} (f : A -> B -> C)
    (a : list A) (b : list B) : result (list C) :=
  if (length a =? length b)%nat then Ok (zip_with f a b)
  else match a, b with
       | [x], _ => Ok (map (f x) b)
       | _, [y] => Ok (map (fun x => f x y) a)
       | _, _ => Raise ValueError
       end.

(** Normalisation of a slice bound against a sequence of length [n]:
    negative bounds count from the end, and the result is clipped. *)
Definition py_index (n : nat) (i : Z) : nat :=
  Z.to_nat (if i <? 0 then Z.max (i + Z.of_nat n) 0 else Z.min i (Z.of_nat n)).

(** [l[start:stop]]. *)
Definition py_slice {A : Type} (l : list A) (start stop : Z) : list A :=
  let a := py_index (length l) start in
  let b := py_index (length l) stop in
  take (b - a) (drop a l).

Fixpoint argmax_from (best : Q) (bi i : nat) (l : list Q) : nat :=
  match l with
  | [] => bi
  | x :: l' => if Qltb best x then argmax_from x i (S i) l'
               else argmax_from best bi (S i) l'
  end.

(** [np.argmax]: index of the first maximum; [ValueError] on an empty
    sequence. *)
Definition np_argmax (l : list Q) : result Z :=
  match l with
  | [] => Raise ValueError
  | x :: l' => Ok (Z.of_nat (argmax_from x 0 1 l'))
  end.

(** Accumulation of the results that are not [None]. *)
Fixpoint collect {A : Type} (l : list (option A)) : list A :=
  match l with
  | [] => []
  | Some x :: l' => x :: collect l'
  | None :: l' => collect l'
  end.

(** [max(-1, min(1, dx))]. *)
Definition clamp1 (dx : Q) : Q := Qmax (-1) (Qmin 1 dx).

(** ** [pinpoint_peaks] *)

Module Pinpoint.
Section Pinpoint.

(** [spline_integrate y a b] stands for the definite integral from [a]
    to [b] of the cubic B-spline that [interpolate.splrep] fits through
    the samples [y] at abscissae [0 .. len(y)-1] with [k=3, s=0], built
    with [extrapolate=False] (SciPy then integrates over the part of
    [a, b] inside the data range only). *)
Variable spline_integrate : list Q -> Q -> Q -> Q.

Definition mask_data (data : list Q) (mask : option (list bool))
    (threshold : Q) : result (list Q) :=
  let shifted := map (fun d => d - threshold)%Q data in
  match mask with
  | None => Ok shifted
  | Some m =>
      bad ← broadcast2 orb m (map (fun d => Qltb d threshold) data);
      broadcast2 (fun (b : bool) d => if b then 0%Q else d) bad shifted
  end.

(** State of the centroiding iteration. *)
Record cstate : Type := CState { xc : Q; dxlast : Q; dxcheck : Z }.

Inductive verdict : Type :=
| Continue (s : cstate)
| Converged (x : Q)
| Abandoned.

(** One pass through the body of [for i in range(50)]. *)
Definition centroid_step (masked_data : list Q) (npts halfwidth : Z)
    (s : cstate) : verdict :=
  let hw := inject_Z halfwidth in
  let xvalues := map inject_Z (np_arange (Z.of_nat (length masked_data))) in
  let l0 := (xc s + (-1) * hw)%Q in
  let l1 := (xc s + (-(1 # 2)) * hw)%Q in
  let l2 := (xc s + (1 # 2) * hw)%Q in
  let l3 := (xc s + 1 * hw)%Q in
  let spline1 := spline_integrate masked_data in
  let spline2 := spline_integrate (zip_with Qmult masked_data xvalues) in
  let sum1 := (spline2 l1 l2 - spline2 l0 l1 - spline2 l2 l3
               + (xc s - hw) * spline1 l0 l1 - xc s * spline1 l1 l2
               + (xc s + hw) * spline1 l2 l3)%Q in
  let sum2 := (spline1 l1 l2 - spline1 l0 l1 - spline1 l2 l3)%Q in
  if Qeq_bool sum2 0 then Abandoned
  else
    let dx := (sum1 / Qabs sum2)%Q in
    let xc' := (xc s + clamp1 dx)%Q in
    if Qltb xc' hw || Qltb (inject_Z npts - hw) xc' then Abandoned
    else if Qltb (Qabs dx) (1 # 1000) then Converged xc'
    else if Qltb (dxlast s + (1 # 1000)) (Qabs dx) then
      if 3 <? dxcheck s + 1 then Abandoned
      else Continue (CState xc' (dxlast s) (dxcheck s + 1))
    else if Qltb (dxlast s - (1 # 1000)) (Qabs dx) then
      Continue (CState (xc' - (1 # 2) * clamp1 dx) (dxlast s) 0)
    else Continue (CState xc' (Qabs dx) 0).

(** [for i in range(n)] around [centroid_step]; falling out of the loop
    leaves [final_peak] at [None]. *)
Fixpoint centroid_loop (n : nat) (masked_data : list Q) (npts halfwidth : Z)
    (s : cstate) : option Q :=
  match n with
  | O => None
  | S n' =>
      match centroid_step masked_data npts halfwidth s with
      | Continue s' => centroid_loop n' masked_data npts halfwidth s'
      | Converged x => Some x
      | Abandoned => None
      end
  end.


(** The body of [for peak in peaks]: [None] when the peak is skipped or
    no centre is found. *)
Definition pinpoint_one (masked_data : list Q) (npts halfwidth : Z)
    (peak : Q) : result (option Q) :=
  let xc0 := py_int (peak + (1 # 2)) in
  am ← np_argmax (py_slice masked_data (Z.max (xc0 - 1) 0)
                                       (Z.min (xc0 + 2) npts));
  let xc1 := am + xc0 - 1 in
  if (xc1 <? halfwidth) || (npts - halfwidth <? xc1) then Ok None
  else
    let x1 := xc1 - halfwidth in
    let x2 := xc1 + halfwidth + 1 in
    Ok (centroid_loop 50 masked_data npts halfwidth
          (CState (inject_Z xc1) (inject_Z (x2 - x1)) 0)).

Definition pinpoint_peaks (data : list Q) (mask : option (list bool))
    (peaks : list Q) (halfwidth : Z) (threshold : Q) : result (list Q) :=
  let halfwidth := Z.max halfwidth 2 in
  let npts := Z.of_nat (length data) in
  masked_data ← mask_data data mask threshold;
  if forallb (fun d => Qeq_bool d 0) masked_data then Ok []
  else
    found ← traverse (pinpoint_one masked_data npts halfwidth) peaks;
    Ok (collect found).

End Pinpoint.
End Pinpoint.

(** ** Lists, sorting and arrays *)

(** [l[i]] with Python's treatment of negative and out-of-range indices. *)
Definition py_getitem {A : Type} (l : list A) (i : Z) : result A :=
  let k := if i <? 0 then i + Z.of_nat (length l) else i in
  if k <? 0 then Raise IndexError
  else match l !! Z.to_nat k with
       | Some x => Ok x
       | None => Raise IndexError
       end.

(** [np.mean] and [np.diff] of a one-dimensional sequence. *)
Definition np_mean (l : list Q) : Q := (Qsum l / inject_Z (Z.of_nat (length l)))%Q.

Definition np_diff (l : list Q) : list Q := zip_with (fun a b => b - a)%Q l (tail l).

(** [np.argmax] of a boolean array: the index of the first [True], and [0]
    when there is none. *)
Fixpoint argmax_bool (l : list bool) : nat :=
  match l with
  | [] => 0
  | true :: _ => 0
  | false :: l' => if existsb id l' then S (argmax_bool l') else 0
  end.

(** A stable sort: [list.sort] and [sorted] keep the original order of
    elements that compare equal. *)
Fixpoint insert_sorted {A : Type} (ltb : A -> A -> bool) (x : A) (l : list A) : list A :=
  match l with
  | [] => [x]
  | y :: l' => if ltb y x then y :: insert_sorted ltb x l' else x :: y :: l'
  end.

Definition stable_sort {A : Type} (ltb : A -> A -> bool) (l : list A) : list A :=
  foldr (insert_sorted ltb) [] l.

(** A peak with its strength: the tuple [(location, snr)]. *)
Definition peak : Type := Q * Q.

(** Python's [<] on 2-tuples: lexicographic. *)
Definition tuple_ltb (a b : peak) : bool :=
  if Qeq_bool (fst a) (fst b) then Qltb (snd a) (snd b) else Qltb (fst a) (fst b).

(** The NumPy arrays that [find_peaks] can build: one- and two-dimensional,
    the latter as a list of rows. *)
Inductive ndarray : Type :=
| Array1 (v : list Q)
| Array2 (rows : list (list Q)).

(** [np.array(l)] for a list of 2-tuples: an empty list gives a
    one-dimensional array of shape [(0,)], otherwise one row per tuple. *)
Definition np_array_of_tuples (l : list peak) : ndarray :=
  match l with
  | [] => Array1 []
  | _ => Array2 (map (fun p => [fst p; snd p]) l)
  end.

(** [.T]: the identity on one-dimensional arrays. *)
Definition np_transpose (a : ndarray) : ndarray :=
  match a with
  | Array1 v => Array1 v
  | Array2 rows =>
      Array2 (map (fun j => map (fun r => nth j r 0%Q) rows)
                  (seq 0 (length (hd [] rows))))
  end.

Definition np_size (a : ndarray) : nat :=
  match a with
  | Array1 v => length v
  | Array2 rows => foldr (fun r n => (length r + n)%nat) 0%nat rows
  end.

(** ** [reject_bad_peaks]

    The function works on the list object it is handed: the store maps the
    identity of each list object to its current contents. *)

Module RejectBad.

Abbreviation store := (gmap positive (list peak)).

Definition snr_ltb (a b : peak) : bool := Qltb (snd a) (snd b).

(** [peaks.sort(key=lambda x: x[1])], in place. *)
Definition list_sort (r : positive) (h : store) : store :=
  alter (stable_sort snr_ltb) r h.

(** [del peaks[-1]], in place. *)
Definition del_last (r : positive) (h : store) : store :=
  alter (fun peaks => removelast peaks) r h.

(** [a / b > c] on NumPy floats: a zero divisor gives [inf], [-inf] or
    [nan] rather than an exception. *)
Definition ratio_exceeds (a b c : Q) : bool :=
  if Qeq_bool b 0 then Qltb 0 a else Qltb c (a / b).

(** The loop test
    [len(peaks) > diff and (peaks[-1][1] / peaks[-(diff + 1)][1] > 3)]
    with [diff = 3]. *)
Definition too_bright (peaks : list peak) : bool :=
  (3 <? length peaks)%nat &&
  ratio_exceeds (snd (List.last peaks (0, 0)%Q))
                (snd (nth (length peaks - 4) peaks (0, 0)%Q)) 3.

Fixpoint reject_loop (fuel : nat) (r : positive) (h : store) : result store :=
  if too_bright (h !!! r) then
    match fuel with
    | O => OutOfFuel
    | S fuel' => reject_loop fuel' r (del_last r h)
    end
  else Ok h.

(** Returns the reference it was given, along with the updated store. *)
Definition reject_bad_peaks (r : positive) (h : store) : result (positive * store) :=
  let h1 := list_sort r h in
  h2 ← reject_loop (length (h1 !!! r)) r h1;
  Ok (r, h2).

End RejectBad.

(** ** [find_peaks]

    The embedding starts at line 521, where the candidate peaks have left
    the ridge-line search of SciPy and the signal-to-noise array has been
    computed: the record below holds the values of the local variables of
    [find_peaks] at that point.  The arrays [pinpoint_data] and [snr] both
    have the shape of [data] there. *)

Module FindPeaks.

Record locals : Type := Locals {
  data_len : nat;             (* len(data) *)
  mask : list bool;           (* mask, as booleans *)
  widths : list Q;            (* widths; not empty, max(widths) was taken *)
  max_width : Q;              (* max(widths) *)
  peaks : list Z;             (* sorted([x[1][0] for x in filtered]) *)
  pinpoint_data : list Q;     (* data or a row of the wavelet transform *)
  snr : list Q                (* signal-to-noise of every sample *)
}.

(** [np.median(widths)]. *)
Definition np_median (l : list Q) : Q :=
  let sorted := stable_sort Qltb l in
  let n := length l in
  if Nat.even n
  then ((nth (n / 2 - 1) sorted 0 + nth (n / 2) sorted 0) / 2)%Q
  else nth (n / 2) sorted 0%Q.

(** [[x for x in peaks if snr[x] > min_snr]]. *)
Definition snr_filter (snr : list Q) (min_snr : Q) (peaks : list Z) : result (list Z) :=
  kept ← traverse (fun x => s ← py_getitem snr x;
                            Ok (if Qltb min_snr s then Some x else None)) peaks;
  Ok (collect kept).

(** The inner [while] of "remove adjacent points": from [j], advance while
    [peaks[j] - peaks[j - 1] <= 1]; [prev] is [peaks[j - 1]] and [rest]
    is [peaks[j:]]. *)
Fixpoint scan_run (prev : Z) (rest : list Z) (j : nat) : nat :=
  match rest with
  | [] => j
  | x :: rest' => if x - prev <=? 1 then scan_run x rest' (S j) else j
  end.

(** The outer [while i < len(peaks)]. *)
Fixpoint remove_adjacent_loop (fuel : nat) (peaks : list Z) (i : nat)
    (new_peaks : list Q) : result (list Q) :=
  if (i <? length peaks)%nat then
    match fuel with
    | O => OutOfFuel
    | S fuel' =>
        let j := scan_run (nth i peaks 0) (drop (S i) peaks) (S i) in
        let new_peaks :=
          new_peaks ++ [np_mean (map inject_Z (take (j - i) (drop i peaks)))] in
        let new_peaks :=
          if Z.of_nat j =? Z.of_nat (length peaks) - 1
          then new_peaks ++ [inject_Z (nth j peaks 0)]
          else new_peaks in
        remove_adjacent_loop fuel' peaks j new_peaks
    end
  else Ok new_peaks.

Definition remove_adjacent (peaks : list Z) : result (list Q) :=
  remove_adjacent_loop (length peaks) peaks 0 [].

(** [peaks[np.logical_and(peaks > edge, peaks < len(data) - 1 - edge)]]. *)
Definition edge_filter (n : nat) (edge : Q) (peaks : list Q) : list Q :=
  List.filter (fun x => Qltb edge x && Qltb x (inject_Z (Z.of_nat n) - 1 - edge))%Q peaks.

(** [[x for x in peaks if np.sum(mask[int(x-edge):int(x+edge+1)]) == 0]]. *)
Definition mask_filter (mask : list bool) (edge : Q) (peaks : list Q) : list Q :=
  List.filter (fun x => forallb negb
                          (py_slice mask (py_int (x - edge)) (py_int (x + edge + 1))))
              peaks.

(** [pinpoint_data[snr < 0.5] = 0]: the boolean index must be as long as
    the array. *)
Definition clip_noise (pinpoint_data snr : list Q) : result (list Q) :=
  if (length snr =? length pinpoint_data)%nat
  then Ok (zip_with (fun d s => if Qltb s (1 # 2) then 0%Q else d) pinpoint_data snr)
  else Raise IndexError.

(** [[p for p in peaks if snr[int(p + 0.5)] > min_snr]] zipped with
    [list(snr[int(p + 0.5)] for p in final_peaks)]. *)
Definition final_filter (snr : list Q) (min_snr : Q) (peaks : list Q) : result (list peak) :=
  kept ← traverse (fun p => s ← py_getitem snr (py_int (p + (1 # 2)));
                            Ok (if Qltb min_snr s then Some (p, s) else None)) peaks;
  Ok (collect kept).

(** [T = np.array(sorted(good_peaks)).T], replaced by [np.array([[],[]])]
    when it has no element. *)
Definition to_array (good_peaks : list peak) : ndarray :=
  let T := np_transpose (np_array_of_tuples (stable_sort tuple_ltb good_peaks)) in
  if (np_size T =? 0)%nat then Array2 [[]; []] else T.

Section FindPeaks.

Variable spline_integrate : list Q -> Q -> Q -> Q.

Let pinpoint_peaks := Pinpoint.pinpoint_peaks spline_integrate.

(** Lines 555-561: re-pinpoint [peaks[i:i+2]] and replace the pair by the
    mean of what is found, or drop it when nothing is found. *)
Definition repinpoint_pair (pinpoint_data : list Q) (mask : list bool)
    (i : nat) (peaks : list Q) : result (list Q) :=
  new_peaks ← pinpoint_peaks pinpoint_data (Some mask)
                (take 2 (drop i peaks)) 4 0%Q;
  let peaks := delete (S i) peaks in
  match new_peaks with
  | _ :: _ => Ok (<[i := np_mean new_peaks]> peaks)
  | [] => Ok (delete i peaks)
  end.

(** One pass through the body of the [while True] that cleans up peaks
    that are too close together: [None] stands for [break]. *)
Definition min_sep_step (pinpoint_data : list Q) (mask : list bool)
    (min_sep : Q) (peaks : list Q) : result (option (list Q)) :=
  let diffs := np_diff peaks in
  if forallb (fun d => Qle_bool min_sep d) diffs then Ok None
  else
    let i := argmax_bool (map (fun d => Qltb d min_sep) diffs) in
    peaks' ← repinpoint_pair pinpoint_data mask i peaks;
    Ok (Some peaks').

(** The pass as the specification words it: the pair worked on is the
    closest under-separated adjacent pair, that is the adjacent pair with
    the smallest gap, provided that gap is below [min_sep]. *)
Definition spec_closest_pair (min_sep : Q) (peaks : list Q) : option nat :=
  match np_diff peaks with
  | [] => None
  | d :: ds =>
      let i := argmax_from (- d)%Q 0 1 (map Qopp ds) in
      if Qltb (nth i (d :: ds) 0%Q) min_sep then Some i else None
  end.

Definition spec_min_sep_step (pinpoint_data : list Q) (mask : list bool)
    (min_sep : Q) (peaks : list Q) : result (option (list Q)) :=
  match spec_closest_pair min_sep peaks with
  | None => Ok None
  | Some i =>
      peaks' ← repinpoint_pair pinpoint_data mask i peaks;
      Ok (Some peaks')
  end.

(** The pair a pass works on, as the code selects it: the first adjacent
    pair closer than [min_sep]. *)
Definition first_close_pair (min_sep : Q) (peaks : list Q) (i : nat) (a b : Q) : Prop :=
  peaks !! i = Some a /\ peaks !! S i = Some b /\ (b - a < min_sep)%Q /\
  forall j d, (j < i)%nat -> np_diff peaks !! j = Some d -> (min_sep <= d)%Q.

(** What one pass through the loop body does. *)
Definition min_sep_step_spec (pinpoint_data : list Q) (mask : list bool)
    (min_sep : Q) (peaks : list Q) : Prop :=
  let repinpoint a b :=
    pinpoint_peaks pinpoint_data (Some mask) [a; b] 4 0%Q in
  match min_sep_step pinpoint_data mask min_sep peaks with
  | Ok None => Forall (fun d => min_sep <= d)%Q (np_diff peaks)
  | Ok (Some peaks') =>
      exists i a b new,
        first_close_pair min_sep peaks i a b /\
        repinpoint a b = Ok new /\
        peaks' = take i peaks
                 ++ match new with [] => [] | _ :: _ => [np_mean new] end
                 ++ drop (S (S i)) peaks
  | Raise e =>
      exists i a b, first_close_pair min_sep peaks i a b /\ repinpoint a b = Raise e
  | OutOfFuel => False
  end.

Fixpoint min_sep_loop (fuel : nat) (pinpoint_data : list Q) (mask : list bool)
    (min_sep : Q) (peaks : list Q) : result (list Q) :=
  r ← min_sep_step pinpoint_data mask min_sep peaks;
  match r with
  | None => Ok peaks
  | Some peaks' =>
      match fuel with
      | O => OutOfFuel
      | S fuel' => min_sep_loop fuel' pinpoint_data mask min_sep peaks'
      end
  end.


(** Lines 566-583: the optional rejection of suspiciously bright peaks (on
    a fresh list object) and the result array. *)
Definition build (reject_bad : bool) (final : list peak) : result ndarray :=
  good_peaks ←
    (if reject_bad
     then '(r, h) ← RejectBad.reject_bad_peaks 1%positive {[ 1%positive := final ]};
          Ok (h !!! r)
     else Ok final);
  Ok (to_array good_peaks).

(** Lines 563-583, entered with the separated [peaks]. *)
Definition finish (st : locals) (min_snr : Q) (reject_bad : bool)
    (peaks : list Q) : result ndarray :=
  final ← final_filter (snr st) min_snr peaks;
  build reject_bad final.

(** Lines 549-583, entered with the pinpointed [peaks]. *)
Definition separate_and_finish (st : locals) (min_snr min_sep : Q)
    (reject_bad : bool) (pinpoint_data : list Q) (peaks : list Q)
    : result ndarray :=
  peaks ← min_sep_loop (length peaks) pinpoint_data (mask st) min_sep peaks;
  finish st min_snr reject_bad peaks.

(** Lines 544-583, entered with the [peaks] left by the edge and mask
    filters. *)
Definition pinpoint_and_finish (st : locals) (min_snr min_sep : Q)
    (reject_bad : bool) (peaks : list Q) : result ndarray :=
  pinpoint_data ← clip_noise (pinpoint_data st) (snr st);
  peaks ← pinpoint_peaks pinpoint_data (Some (mask st)) peaks
            (py_int (np_median (widths st) + (1 # 2))) 0%Q;
  separate_and_finish st min_snr min_sep reject_bad pinpoint_data peaks.

(** Lines 535-583, entered with the merged candidates [new_peaks]. *)
Definition filter_and_finish (st : locals) (min_snr min_sep : Q)
    (reject_bad : bool) (new_peaks : list Q) : result ndarray :=
  let edge := ((235482 # 100000) * max_width st)%Q in
  let peaks := edge_filter (data_len st) edge new_peaks in
  let peaks := mask_filter (mask st) edge peaks in
  pinpoint_and_finish st min_snr min_sep reject_bad peaks.

(** Lines 521-583. *)
Definition find_peaks (st : locals) (min_snr min_sep : Q) (reject_bad : bool)
    : result ndarray :=
  peaks ← snr_filter (snr st) min_snr (peaks st);
  new_peaks ← remove_adjacent peaks;
  filter_and_finish st min_snr min_sep reject_bad new_peaks.

End FindPeaks.
End FindPeaks.

(** ** [trace_lines]

    The embedding covers the two tracing passes (lines 999-1096).  A
    perpendicular position is [None] once the code has set it to [np.nan];
    a candidate position is [None] when the code holds [np.inf]. *)

Module Trace.
Section Trace.

Variable spline_integrate : list Q -> Q -> Q -> Q.

(** The collapsed profiles built at lines 1016-1030 for the bins that end
    at row [y2]: [data_at y2 step i] and [mask_at y2 step i] are [data[i]]
    and [mask[i] != 0], and [var_all_inf y2 step] is
    [all(np.isinf(var[0]))].  They depend on the image and on the collapse
    function handed to [trace_lines]. *)
Variable data_at : Z -> Z -> nat -> list Q.
Variable mask_at : Z -> Z -> nat -> list bool.
Variable var_all_inf : Z -> Z -> bool.

(** [ext_data.shape], and the parameters of the call. *)
Variables height width : Z.
Variables nsum max_missed halfwidth : Z.
Variable max_shift : Q.

Let pinpoint_peaks := Pinpoint.pinpoint_peaks spline_integrate.

(** State of one pass: [last_coords] holds [[row, peak]] for each feature
    and [coord_lists] the track of each feature. *)
Record tstate : Type := TState {
  ypos : Z;
  lookback : Z;
  last_coords : list (Q * option Q);
  coord_lists : list (list (Q * Q))
}.

(** [peaks[np.argmin(abs(np.array(peaks) - old_peak))]], or [np.inf] when
    there are no peaks. *)
Definition nearest (peaks : list Q) (old_peak : Q) : option Q :=
  match peaks with
  | [] => None
  | p :: ps =>
      Some (foldl (fun best q =>
                     if Qltb (Qabs (q - old_peak)) (Qabs (best - old_peak))
                     then q else best) p ps)
  end.

(** [abs(new_peak - old_peak) <= tolerance]; never true of [np.inf]. *)
Definition within (new_peak : option Q) (old_peak tolerance : Q) : bool :=
  match new_peak with
  | Some p => Qle_bool (Qabs (p - old_peak)) tolerance
  | None => false
  end.

(** The loop [for j in range(n0, n0 + n)] of lines 1053-1064: [Some] is the
    [new_coord] at the [break], [None] means that the loop ran out and its
    [else] clause is taken. *)
Fixpoint match_peak (n : nat) (j : Z) (step ypos lookback : Z) (y2 : Z)
    (old_peak : Q) (new_peak : option Q) : result (option (Q * Q)) :=
  match n with
  | O => Ok None
  | S n' =>
      let tolerance := (max_shift * inject_Z (j + 1) * inject_Z (Z.abs step))%Q in
      if within new_peak old_peak tolerance then
        match new_peak with
        | Some p => Ok (Some ((inject_Z ypos - (1 # 2) * inject_Z j * inject_Z step)%Q, p))
        | None => Ok None
        end
      else if j <? lookback then
        found ← pinpoint_peaks (data_at y2 step (Z.to_nat (j + 1)))
                  (Some (mask_at y2 step (Z.to_nat (j + 1))))
                  [old_peak] halfwidth 0%Q;
        match_peak n' (j + 1) step ypos lookback y2 old_peak (head found)
      else match_peak n' (j + 1) step ypos lookback y2 old_peak new_peak
  end.

(** The body of [for i, (last_row, old_peak) in enumerate(last_coords)] for
    one feature: its new [last_coords[i]] and [coord_lists[i]]. *)
Definition follow (step ypos lookback y2 : Z) (peaks : list Q)
    (last : Q * option Q) (track : list (Q * Q))
    : result ((Q * option Q) * list (Q * Q)) :=
  match last with
  | (_, None) => Ok (last, track)
  | (last_row, Some old_peak) =>
      if step =? 0 then Raise ZeroDivisionError
      else
        let steps_missed :=
          py_int (Qabs ((inject_Z ypos - last_row) / inject_Z step)) - 1 in
        found ← match_peak (Z.to_nat (Z.min steps_missed lookback + 1)) 0
                  step ypos lookback y2 old_peak (nearest peaks old_peak);
        match found with
        | None =>
            if max_missed <? steps_missed
            then Ok ((inject_Z ypos, None), track)
            else Ok (last, track)
        | Some new_coord =>
            if Qltb (snd new_coord) (inject_Z halfwidth)
               || Qltb (inject_Z width - (1 # 2) * inject_Z halfwidth) (snd new_coord)
            then Ok ((last_row, None), track)
            else Ok ((fst new_coord, Some (snd new_coord)), track ++ [new_coord])
        end
  end.

Fixpoint follow_all (step ypos lookback y2 : Z) (peaks : list Q)
    (lasts : list (Q * option Q)) (tracks : list (list (Q * Q)))
    : result (list (Q * option Q) * list (list (Q * Q))) :=
  match lasts, tracks with
  | last :: lasts', track :: tracks' =>
      '(last1, track1) ← follow step ypos lookback y2 peaks last track;
      '(lasts1, tracks1) ← follow_all step ypos lookback y2 peaks lasts' tracks';
      Ok (last1 :: lasts1, track1 :: tracks1)
  | _, _ => Ok ([], [])
  end.

(** [all(np.isnan(c[1]) for c in last_coords)]. *)
Definition all_lost (lasts : list (Q * option Q)) : bool :=
  forallb (fun c => match snd c with None => true | Some _ => false end) lasts.

(** One pass through the body of the [while True] of line 1005: [inl] to go
    round again, [inr] at a [break]. *)
Definition trace_step (step : Z) (s : tstate) : result (tstate + tstate) :=
  let ypos := ypos s + step in
  let lookback := Z.min (lookback s + 1) max_missed in
  if Qltb (inject_Z ypos) ((1 # 2) * inject_Z nsum)
     || Qltb (inject_Z height - (1 # 2) * inject_Z nsum) (inject_Z ypos)
  then Ok (inr (TState ypos lookback (last_coords s) (coord_lists s)))
  else
    let y2 := py_int (inject_Z ypos + (1 # 2) * inject_Z nsum + (1 # 2)) in
    s' ←
      (if existsb negb (mask_at y2 step 0) && negb (var_all_inf y2 step) then
         let last_peaks := collect (map snd (last_coords s)) in
         peaks ← pinpoint_peaks (data_at y2 step 0) (Some (mask_at y2 step 0))
                   last_peaks halfwidth 0%Q;
         '(lasts, tracks) ← follow_all step ypos lookback y2 peaks
                              (last_coords s) (coord_lists s);
         Ok (TState ypos lookback lasts tracks)
       else Ok (TState ypos 0 (last_coords s) (coord_lists s)));
    if all_lost (last_coords s') then Ok (inr s') else Ok (inl s').

Fixpoint trace_loop (fuel : nat) (step : Z) (s : tstate) : result tstate :=
  r ← trace_step step s;
  match r with
  | inr s' => Ok s'
  | inl s' =>
      match fuel with
      | O => OutOfFuel
      | S fuel' => trace_loop fuel' step s'
      end
  end.

(** Number of times the body of the [while True] is entered. *)
Fixpoint trace_passes (fuel : nat) (step : Z) (s : tstate) : nat :=
  match trace_step step s, fuel with
  | Ok (inl s'), S fuel' => S (trace_passes fuel' step s')
  | _, _ => 1
  end.

(** One direction: lines 1001-1094, entered with the tracks so far. *)
Definition trace_pass (fuel : nat) (start step : Z) (initial_peaks : list Q)
    (tracks : list (list (Q * Q))) : result tstate :=
  trace_loop fuel step
    (TState start 0 (map (fun p => (inject_Z start, Some p)) initial_peaks) tracks).

(** Enough fuel for a pass with a non-zero step: every row of the image can
    be visited. *)
Definition pass_fuel : nat := Z.to_nat (Z.max 0 (height - nsum) + 1).

(** Lines 999-1096: forward, then backward with [step *= -1]; the result is
    [coord_lists]. *)
Definition trace_lines (start step : Z) (initial_peaks : list Q)
    : result (list (list (Q * Q))) :=
  forward ← trace_pass pass_fuel start step initial_peaks
              (map (fun _ => []) initial_peaks);
  backward ← trace_pass pass_fuel start (- step) initial_peaks
               (coord_lists forward);
  Ok (coord_lists backward).

End Trace.
End Trace.

(** ** [estimate_peak_width] *)

Module PeakWidth.
Section PeakWidth.

(** [signal.peak_widths(data, [index], 0.5)[0][0]],
    [at.boxcar(data, size=boxcar_size)] and [sigma_clip(widths).mean()]. *)
Variable peak_widths : list Q -> Z -> Q.
Variable boxcar : list Q -> Q -> list Q.
Variable sigma_clip_mean : list Q -> Q.

Record wstate : Type := WState {
  widths : list Q;
  goodpix : list bool;
  niters : Z
}.

(** [goodpix[lo:hi] = False]. *)
Definition clear_slice (goodpix : list bool) (lo hi : Z) : list bool :=
  let a := py_index (length goodpix) lo in
  let b := py_index (length goodpix) hi in
  imap (fun i g => if (a <=? i)%nat && (i <? b)%nat then false else g) goodpix.

(** The body of the [while] of line 432. *)
Definition width_step (data : list Q) (s : wstate) : result wstate :=
  index ← np_argmax (zip_with (fun d (g : bool) => if g then d else 0%Q)
                              data (goodpix s));
  let width := peak_widths data index in
  let hi := py_int (inject_Z index + width + (3 # 2)) in
  let lo := py_int (inject_Z index - width) in
  let widths :=
    if forallb id (py_slice (goodpix s) lo hi) && Qltb 0 width
    then widths s ++ [width] else widths s in
  Ok (WState widths (clear_slice (goodpix s) lo hi) (niters s + 1)).

(** [while len(widths) < 10 and niters < 100]. *)
Fixpoint width_loop (fuel : nat) (data : list Q) (s : wstate) : result wstate :=
  if (length (widths s) <? 10)%nat && (niters s <? 100) then
    match fuel with
    | O => OutOfFuel
    | S fuel' => s' ← width_step data s; width_loop fuel' data s'
    end
  else Ok s.


(** The fuel is the ceiling that the loop test puts on [niters]. *)
Definition estimate_peak_width (data : list Q) (mask : option (list bool))
    (boxcar_size : option Q) : result Q :=
  let goodpix :=
    match mask with
    | None => map (fun _ => true) data
    | Some m => map negb m
    end in
  let data :=
    match boxcar_size with
    | Some size =>
        if Qeq_bool size 0 then data
        else zip_with Qminus data (boxcar data size)
    | None => data
    end in
  s ← width_loop 100 data (WState [] goodpix 0);
  Ok (sigma_clip_mean (widths s)).

End PeakWidth.
End PeakWidth.

(** ** The iteration of [Aperture.optimal_extraction]

    The numerical work of a pass (profile fit, variance model, weighted
    sums) is done by astropy and NumPy; it enters the control flow only
    through the pixels it flags as cosmic rays.  The mask is kept as the
    flat sequence of its pixels. *)

Module Optimal.
Section Optimal.

(** The numerical state carried from pass to pass ([spectrum], [var],
    [inv_var]). *)
Variable numbers : Type.

(** The bits of [DQ_definitions] that the loop uses. *)
Variables bad_pixel cosmic_ray no_data unilluminated : Z.

Definition BAD_BITS : Z :=
  Z.lor (Z.lor (Z.lor bad_pixel cosmic_ray) no_data) unilluminated.

(** [deviant x mask unmask i] is [sigma_deviations[i] > cr_rej] for the
    pass that starts with numbers [x]; [revise] gives the numbers at the
    end of that pass. *)
Variable deviant : numbers -> list Z -> list bool -> nat -> bool.
Variable revise : numbers -> list Z -> list bool -> numbers.

Record ostate : Type := OState {
  mask : list Z;
  unmask : list bool;
  state : numbers;
  iter : Z
}.

(** [np.sum(unmask ^ last_unmask)]. *)
Definition changed_pixels (unmask last_unmask : list bool) : nat :=
  length (List.filter id (zip_with xorb unmask last_unmask)).

(** One pass through the body of the [while True] of line 202, up to and
    including [iter += 1]; the second component is [last_unmask]. *)
Definition pass (s : ostate) : ostate * list bool :=
  let hits := deviant (state s) (mask s) (unmask s) in
  let mask1 := imap (fun i m => if hits i then Z.lor m cosmic_ray else m) (mask s) in
  let last_unmask := unmask s in
  let unmask1 := map (fun m => Z.land m BAD_BITS =? 0) mask1 in
  (OState mask1 unmask1 (revise (state s) mask1 unmask1) (iter s + 1), last_unmask).

(** The test of lines 242-243. *)
Definition finished (max_iters : option Z) (s : ostate) (last_unmask : list bool) : bool :=
  (changed_pixels (unmask s) last_unmask =? 0)%nat
  || match max_iters with
     | Some m => m <? iter s
     | None => false
     end.

Fixpoint extraction_loop (fuel : nat) (max_iters : option Z) (s : ostate)
    : result ostate :=
  let '(s1, last_unmask) := pass s in
  if finished max_iters s1 last_unmask then Ok s1
  else match fuel with
       | O => OutOfFuel
       | S fuel' => extraction_loop fuel' max_iters s1
       end.

(** Number of times the body is entered. *)
Fixpoint extraction_passes (fuel : nat) (max_iters : option Z) (s : ostate) : nat :=
  let '(s1, last_unmask) := pass s in
  if finished max_iters s1 last_unmask then 1
  else match fuel with
       | O => 1
       | S fuel' => S (extraction_passes fuel' max_iters s1)
       end.

(** Lines 199-244: [unmask = np.ones_like(data, dtype=bool)], [iter = 0].
    A pass that does not end the loop removes a pixel from [unmask], so one
    unit of fuel per pixel is enough. *)
Definition initial (mask : list Z) (x : numbers) : ostate :=
  OState mask (map (fun _ => true) mask) x 0.

Definition optimal_extraction (max_iters : option Z) (mask : list Z)
    (x : numbers) : result ostate :=
  extraction_loop (length mask) max_iters (initial mask x).

End Optimal.

Arguments OState {numbers}.
Arguments mask {numbers}.
Arguments unmask {numbers}.
Arguments state {numbers}.
Arguments iter {numbers}.
Arguments initial {numbers}.
Arguments finished {numbers}.

End Optimal.

(** ** The interpolating spline of samples of a cubic

    The spline [splrep] returns for [k=3, s=0] is the unique interpolating
    cubic spline with not-a-knot end conditions; when the samples are the
    values of one polynomial of degree at most three, it is that
    polynomial.  For such samples the integrals can be written in closed
    form, which gives concrete runs of [pinpoint_peaks]. *)

Module CubicSpline.

(** Monomial coefficients of the cubic through the first four samples
    (Newton's forward differences). *)
Definition coeffs (y : list Q) : Q * Q * Q * Q :=
  let y0 := nth 0 y 0%Q in
  let y1 := nth 1 y 0%Q in
  let y2 := nth 2 y 0%Q in
  let y3 := nth 3 y 0%Q in
  let d1 := (y1 - y0)%Q in
  let d2 := (y2 - 2 * y1 + y0)%Q in
  let d3 := (y3 - 3 * y2 + 3 * y1 - y0)%Q in
  (y0, d1 - d2 / 2 + d3 / 3, d2 / 2 - d3 / 2, d3 / 6)%Q.

Definition eval (c : Q * Q * Q * Q) (x : Q) : Q :=
  let '(c0, c1, c2, c3) := c in
  (c0 + x * (c1 + x * (c2 + x * c3)))%Q.

Definition antiderivative (c : Q * Q * Q * Q) (x : Q) : Q :=
  let '(c0, c1, c2, c3) := c in
  (x * (c0 + x * (c1 / 2 + x * (c2 / 3 + x * (c3 / 4)))))%Q.

(** The samples are those of the cubic through the first four. *)
Definition is_cubic (y : list Q) : bool :=
  forallb (fun i => Qeq_bool (eval (coeffs y) (inject_Z (Z.of_nat i)))
                             (nth i y 0%Q))
          (seq 0 (length y)).

(** The integral over the part of [a, b] inside [0, len(y) - 1]. *)
Definition integrate (y : list Q) (a b : Q) : Q :=
  let a' := Qred (Qmax a 0) in
  let b' := Qred (Qmin b (inject_Z (Z.of_nat (length y)) - 1)) in
  if Qle_bool b' a' then 0%Q
  else Qred (antiderivative (coeffs y) b' - antiderivative (coeffs y) a').

End CubicSpline.

(** ** A concrete run of [pinpoint_peaks]

    Six samples of the parabola [y = -3/2 x^2 + 19/2 x + 1], nothing
    masked, one approximate peak at pixel 3 and [halfwidth = 2]. *)

Module PinpointRun.

Definition data : list Q := [1; 9; 14; 16; 15; 11]%Q.
Definition mask : list bool := [false; false; false; false; false; false].
Definition peaks : list Q := [3]%Q.

Definition run : result (list Q) :=
  Pinpoint.pinpoint_peaks CubicSpline.integrate data (Some mask) peaks 2 0%Q.

(** The centre found, about [3.14728]. *)
Definition centre : Q :=
  Eval vm_compute in match run with Ok [x] => x | _ => 0%Q end.

End PinpointRun.

(** ** A concrete run of [find_peaks]

    The samples of [PinpointRun], one candidate from the ridge-line search
    at pixel 3, a single width of half a pixel and a signal-to-noise of 10
    everywhere. *)

Module FindPeaksRun.

Definition st : FindPeaks.locals :=
  {| FindPeaks.data_len := 6;
     FindPeaks.mask := PinpointRun.mask;
     FindPeaks.widths := [1 # 2]%Q;
     FindPeaks.max_width := (1 # 2)%Q;
     FindPeaks.peaks := [3];
     FindPeaks.pinpoint_data := PinpointRun.data;
     FindPeaks.snr := [10; 10; 10; 10; 10; 10]%Q |}.

Definition run : result ndarray :=
  FindPeaks.find_peaks CubicSpline.integrate st 1 1 true.

End FindPeaksRun.

(** ** Two runs of the optimal-extraction loop

    The bits are those of [DQ_definitions].  In [flagged_pixel] the input
    mask carries one bad pixel and no cosmic ray is ever detected.  In
    [ray_per_pass] the mask starts clean and pass number [k] finds that
    pixel [k] deviates by more than [cr_rej] sigma. *)

Module ExtractionRun.

Definition bad_pixel : Z := 1.
Definition cosmic_ray : Z := 8.
Definition no_data : Z := 16.
Definition unilluminated : Z := 64.

Definition no_ray (x : nat) (mask : list Z) (unmask : list bool) (i : nat) : bool :=
  false.

Definition ray_at_pass (x : nat) (mask : list Z) (unmask : list bool) (i : nat) : bool :=
  (i =? x)%nat.

Definition next_pass (x : nat) (mask : list Z) (unmask : list bool) : nat := S x.

Definition flagged_pixel (max_iters : option Z) : result (Optimal.ostate nat) :=
  Optimal.optimal_extraction nat bad_pixel cosmic_ray no_data unilluminated
    no_ray next_pass max_iters [0; bad_pixel; 0; 0] 0%nat.

(** The number of passes of the first run. *)
Definition flagged_pixel_count (max_iters : option Z) : nat :=
  Optimal.extraction_passes nat bad_pixel cosmic_ray no_data unilluminated
    no_ray next_pass 4 max_iters (Optimal.initial [0; bad_pixel; 0; 0] 0%nat).

Definition ray_per_pass (max_iters : option Z) (npixels : nat)
    : result (Optimal.ostate nat) :=
  Optimal.optimal_extraction nat bad_pixel cosmic_ray no_data unilluminated
    ray_at_pass next_pass max_iters (replicate npixels 0) 0%nat.

(** The number of passes of the second run. *)
Definition ray_per_pass_count (max_iters : option Z) (npixels : nat) : nat :=
  Optimal.extraction_passes nat bad_pixel cosmic_ray no_data unilluminated
    ray_at_pass next_pass npixels max_iters
    (Optimal.initial (replicate npixels 0) 0%nat).

End ExtractionRun.

(** ** A concrete run of [trace_lines]

    An image of 80 rows and 6 columns, traced along its rows.  Rows 0 to 34
    carry a line whose profile across the columns is that of [PinpointRun];
    rows 35 to 79 carry no flux.  Nothing is masked and the variance of
    every collapsed profile is positive.  The trace starts at row 30 from
    the centre of the line, with [nsum = 10], [step = 10], [cwidth = 5],
    [max_shift = 0.05] and [max_missed = 1]. *)

Module TraceRun.

Definition line_rows : Z := 35.

(** The rows collapsed into [data[i]]:
    [slice(y2 - j*step - nsum, y2 - j*step) for j in range(i + 1)]. *)
Definition bin_rows (y2 step : Z) (i : nat) : list Z :=
  flat_map (fun j => map (fun r => y2 - Z.of_nat j * step - 10 + Z.of_nat r)
                         (seq 0 10))
           (seq 0 (S i)).

(** The median of the rows: the line profile when most rows carry the
    line, nothing when most do not, and half the profile when the rows
    split evenly. *)
Definition data_at (y2 step : Z) (i : nat) : list Q :=
  let rows := bin_rows y2 step i in
  let bright := length (List.filter (fun r => r <? line_rows) rows) in
  let dark := length (List.filter (fun r => line_rows <=? r) rows) in
  if (dark <? bright)%nat then PinpointRun.data
  else if (bright <? dark)%nat then map (fun _ => 0%Q) PinpointRun.data
  else map (fun v => (1 # 2) * v)%Q PinpointRun.data.

Definition mask_at (y2 step : Z) (i : nat) : list bool := PinpointRun.mask.

Definition var_all_inf (y2 step : Z) : bool := false.

Definition start : Z := 30.
Definition step : Z := 10.
Definition initial_peaks : list Q := [PinpointRun.centre].

(** The forward pass alone, and the whole trace. *)
Definition forward : result (Trace.tstate) :=
  Trace.trace_pass CubicSpline.integrate data_at mask_at var_all_inf
    80 6 10 1 2 (1 # 20) (Trace.pass_fuel 80 10) start step initial_peaks [[]].

Definition traced : result (list (list (Q * Q))) :=
  Trace.trace_lines CubicSpline.integrate data_at mask_at var_all_inf
    80 6 10 1 2 (1 # 20) start step initial_peaks.

End TraceRun.

(** ** Further Python and NumPy primitives *)


Definition py_max (l : list Q) : result Q :=
  match l with
  | [] => Raise ValueError
  | x :: l' => Ok (foldl (fun m y => if Qltb m y then y else m) x l')
  end.

(** [l[start:stop] = v] for a scalar [v]; [stop] is [None] in a slice that
    is open at its end. *)
Definition fill_slice {A : Type} (l : list A) (start : Z) (stop : option Z)
    (v : A) : list A :=
  let a := py_index (length l) start in
  let b := match stop with
           | Some s => py_index (length l) s
           | None => length l
           end in
  imap (fun i x => if (a <=? i)%nat && (i <? b)%nat then v else x) l.

(** [.T] of a two-dimensional array given as the list of its rows, each of
    [ncols] entries. *)
Definition transpose {A : Type} (d : A) (ncols : nat) (rows : list (list A))
    : list (list A) :=
  map (fun j => map (fun r => nth j r d) rows) (seq 0 ncols).

(** ** The class [Aperture]

    The limits of an aperture are numbers here: an object built with
    neither a width nor limits holds [None] in both and every later use of
    them raises [TypeError].  [check_domain] only writes to the log. *)

Module Aperture.

Record aperture : Type := Build {
  model : Z -> Q;                     (* centre of the aperture, per pixel *)
  aper_lower : Q;
  aper_upper : Q;
  last_extraction : option (Q * Q)    (* _last_extraction *)
}.

(** The getter of the property [width]. *)
Definition width (self : aperture) : Q :=
  Qabs (aper_upper self - aper_lower self).

(** The setter of the property [width]. *)
Definition set_width (value : Q) (self : aperture) : result aperture :=
  if Qltb 0 value then
    let upper := ((1 # 2) * value)%Q in
    Ok (Build (model self) (- upper) upper (last_extraction self))
  else Raise ValueError.

(** [__init__]: with a width, the limits handed over are not looked at. *)
Definition init (model : Z -> Q) (width : option Q) (aper_lower aper_upper : Q)
    : result aperture :=
  match width with
  | None => Ok (Build model aper_lower aper_upper None)
  | Some w => set_width w (Build model aper_lower aper_upper None)
  end.

(** Lines 118-124 (and 273-279): the limits in force for a call, from its
    optional arguments and the attributes of the object. *)
Definition limits_of (self : aperture) (width aper_lower aper_upper : option Q)
    : Q * Q :=
  let '(aper_lower, aper_upper) :=
    match width with
    | Some w => (Some (- ((1 # 2) * w))%Q, Some ((1 # 2) * w)%Q)
    | None => (aper_lower, aper_upper)
    end in
  (default (Aperture.aper_lower self) aper_lower,
   default (Aperture.aper_upper self) aper_upper).

(** [self.model(np.arange(npix))]. *)
Definition center_pixels (self : aperture) (npix : nat) : list Q :=
  map (model self) (np_arange (Z.of_nat npix)).

(** One entry of [ix1] and of [ix2] (lines 135-136); [None] is the open
    end of the slice. *)
Definition row_limits (slitlength : nat) (x1 x2 : Q) : Z * option Z :=
  (if Qltb x1 (- (1 # 2)) then 0 else py_int (x1 + (1 # 2)),
   if Qle_bool (inject_Z (Z.of_nat slitlength) - (1 # 2)) x2 then None
   else Some (py_int (x2 + (3 # 2)))).

(** The array [apmask] before the final transposition: one row per pixel
    along the dispersion, one column per pixel along the slit. *)
Definition apmask_rows (self : aperture) (npix slitlength : nat)
    (aper_lower aper_upper : Q) : list (list bool) :=
  map (fun center =>
         let '(ix1, ix2) :=
           row_limits slitlength (center + aper_lower) (center + aper_upper) in
         fill_slice (replicate slitlength false) ix1 ix2 true)
      (center_pixels self npix).

(** [aperture_mask]; [shape] is [ext.shape] and [dispersion_axis] the value
    of the descriptor of that name. *)
Definition aperture_mask (self : aperture) (shape : nat * nat)
    (dispersion_axis : Z) (width aper_lower aper_upper grow : option Q)
    : result (list (list bool)) :=
  let '(aper_lower, aper_upper) := limits_of self width aper_lower aper_upper in
  let '(aper_lower, aper_upper) :=
    match grow with
    | Some g => (aper_lower - g, aper_upper + g)%Q
    | None => (aper_lower, aper_upper)
    end in
  let dispaxis := 2 - dispersion_axis in
  npix ← py_getitem [fst shape; snd shape] dispaxis;
  slitlength ← py_getitem [fst shape; snd shape] (1 - dispaxis);
  let apmask := apmask_rows self npix slitlength aper_lower aper_upper in
  Ok (if dispaxis =? 0 then apmask else transpose false slitlength apmask).


End Aperture.

(** ** [average_along_slit] *)

Module AverageAlongSlit.
Section AverageAlongSlit.

(** [at.transpose_if_needed] followed by [NDStacker.mean], applied to the
    section of the extension: the triple [data, mask, variance]. *)
Variable collapsed : Type.
Variable mean_of_section : bool -> Z * Z -> collapsed.

(** Lines 386-392: the bounds of [extract_slice]. *)
Definition extract_slice (npix : Z) (center : option Q) (nsum : option Z)
    : Z * Z :=
  let nsum := default npix nsum in
  let center := default ((1 # 2) * (inject_Z npix - 1))%Q center in
  (Z.max 0 (py_int (center + 1 - (1 # 2) * inject_Z nsum)),
   Z.min npix (py_int (center + 1 + (1 # 2) * inject_Z nsum))).

Definition average_along_slit (shape : list Z) (center : option Q)
    (nsum : option Z) (dispersion_axis : Z) : result (collapsed * (Z * Z)) :=
  npix ← py_getitem shape (1 - dispersion_axis);
  let extract_slice := extract_slice npix center nsum in
  Ok (mean_of_section (dispersion_axis =? 0) extract_slice, extract_slice).

End AverageAlongSlit.
End AverageAlongSlit.

(** ** [get_limits], [peak_limit] and [integral_limit] *)

Module Limits.
Section Limits.

(** The fitted spline: [spline(x)], [spline.antiderivative()(x)], the fit
    of lines 753-775 ([interpolate.UnivariateSpline] with the weights
    computed there) and [at.get_spline3_extrema], which gives the minima
    and the maxima.  [bisect] is [optimize.bisect]. *)
Variable spline : Type.
Variable call : spline -> Q -> Q.
Variable antiderivative : spline -> Q -> Q.
Variable fit : list Q -> list Z -> option (list Q) -> result spline.
Variable get_spline3_extrema : spline -> list Q * list Q.
Variable bisect : (Q -> Q) -> Q -> Q -> result Q.

(** The signature shared by the limit-finding functions. *)
Definition limit_function : Type := spline -> Q -> Q -> Q -> Q -> result Q.

(** [func] of [peak_limit]. *)
Definition peak_limit_func (s : spline) (peak limit threshold : Q) (x : Q) : Q :=
  let target := (call s limit + threshold * (call s peak - call s limit))%Q in
  (call s x - target)%Q.

Definition peak_limit : limit_function :=
  fun s peak limit other_limit threshold =>
    bisect (peak_limit_func s peak limit threshold) limit peak.

(** [definite_integral] and [func] of [integral_limit]. *)
Definition definite_integral (s : spline) (limit other_limit : Q) (x : Q) : Q :=
  let slope := ((call s other_limit - call s limit) / (other_limit - limit))%Q in
  (antiderivative s x - antiderivative s limit
   - (x - limit) * ((call s limit - slope * limit)
                    + (1 # 2) * slope * (x + limit)))%Q.

Definition integral_limit_func (s : spline) (peak limit other_limit threshold : Q)
    (x : Q) : Q :=
  let flux_this_side :=
    (definite_integral s limit other_limit peak
     - definite_integral s limit other_limit limit)%Q in
  (definite_integral s limit other_limit x / flux_this_side - threshold)%Q.

Definition integral_limit : limit_function :=
  fun s peak limit other_limit threshold =>
    bisect (integral_limit_func s peak limit other_limit threshold) limit peak.

(** The dictionary [functions]. *)
Definition functions : gmap string limit_function :=
  {[ "peak"%string := peak_limit; "integral"%string := integral_limit ]}.

(** Lines 748-751: the look-up, with [method = None] after a [KeyError]. *)
Definition limit_finding_function (method : option string) : option limit_function :=
  match method with
  | Some m => functions !! m
  | None => None
  end.

(** The [for ... else] of lines 783-787: the first minimum above the peak,
    or the last pixel. *)
Definition upper_minimum (minima : list Q) (peak : Q) (npix : nat) : Q :=
  match List.find (fun m => Qltb peak m) minima with
  | Some upper => upper
  | None => (inject_Z (Z.of_nat npix) - 1)%Q
  end.

(** The [for ... else] of lines 788-792: going backwards, the first minimum
    below the peak, or pixel 0. *)
Definition lower_minimum (minima : list Q) (peak : Q) : Q :=
  match List.find (fun m => Qltb m peak) (rev minima) with
  | Some lower => lower
  | None => 0%Q
  end.

(** The body of [for peak in peaks]. *)
Definition limits_of_peak (s : spline) (minima maxima : list Q) (npix : nat)
    (threshold : Q) (method : option string) (peak : Q) : result (Q * Q) :=
  tweaked_peak ← match Trace.nearest maxima peak with
                 | Some m => Ok m
                 | None => Raise ValueError
                 end;
  let upper := upper_minimum minima peak npix in
  let lower := lower_minimum minima peak in
  match limit_finding_function method with
  | None => Ok (lower, upper)
  | Some f =>
      limit1 ← f s tweaked_peak lower upper threshold;
      limit2 ← f s tweaked_peak upper lower threshold;
      Ok (if Qltb peak limit1 then peak else limit1,
          if Qltb limit2 peak then peak else limit2)
  end.

Definition get_limits (data : list Q) (mask : list Z) (variance : option (list Q))
    (peaks : list Q) (threshold : Q) (method : option string)
    : result (list (Q * Q)) :=
  s ← fit data mask variance;
  let '(minima, maxima) := get_spline3_extrema s in
  traverse (limits_of_peak s minima maxima (length data) threshold method) peaks.

End Limits.
End Limits.

(** ** [find_peaks] as its callers see it

    Lines 483-520 are the work of SciPy and astropy (the wavelet
    transform is [cwt_ricker]; the ridge lines, the box-car smoothing and
    the noise estimate are library routines): [find_peaks_head] stands for
    them and gives the values of [len(data)], [mask], [peaks],
    [pinpoint_data] and [snr] at line 521. *)

Module FindPeaksCall.
Section FindPeaksCall.

Variable spline_integrate : list Q -> Q -> Q -> Q.

(** Arguments: [data], [widths], [mask], [variance] (a scalar is an array
    of one element), [min_snr], [min_frac] and [pinpoint_index]. *)
Variable find_peaks_head :
  list Q -> list Q -> option (list Z) -> option (list Q) -> Q -> Q -> option Z
  -> result (nat * list bool * list Z * list Q * list Q).

Definition find_peaks (data widths : list Q) (mask : option (list Z))
    (variance : option (list Q)) (min_snr min_sep min_frac : Q)
    (reject_bad : bool) (pinpoint_index : option Z) : result ndarray :=
  max_width ← py_max widths;
  '(data_len, mask, peaks, pinpoint_data, snr) ←
    find_peaks_head data widths mask variance min_snr min_frac pinpoint_index;
  FindPeaks.find_peaks spline_integrate
    (FindPeaks.Locals data_len mask widths max_width peaks pinpoint_data snr)
    min_snr min_sep reject_bad.

End FindPeaksCall.
End FindPeaksCall.

(** ** [find_apertures_peaks] *)

Module FindApertures.
Section FindApertures.

Variable spline_integrate : list Q -> Q -> Q -> Q.
Variable find_peaks_head :
  list Q -> list Q -> option (list Z) -> option (list Q) -> Q -> Q -> option Z
  -> result (nat * list bool * list Z * list Q * list Q).

Variable spline : Type.
Variable call : spline -> Q -> Q.
Variable antiderivative : spline -> Q -> Q.
Variable fit : list Q -> list Z -> option (list Q) -> result spline.
Variable get_spline3_extrema : spline -> list Q * list Q.
Variable bisect : (Q -> Q) -> Q -> Q -> result Q.

(** [DQ.not_signal]. *)
Variable not_signal : Z.

(** [np.arange(3, 20)]. *)
Definition widths : list Q := map (fun i => inject_Z (3 + Z.of_nat i)) (seq 0 17).

(** Lines 1190-1191: the locations of the [max_apertures] strongest peaks,
    strongest first. *)
Definition strongest (peaks_and_snrs : ndarray) (max_apertures : option Z)
    : result (list Q) :=
  match np_transpose peaks_and_snrs with
  | Array1 _ => Raise IndexError
  | Array2 rows =>
      keyed ← traverse (fun x => key ← py_getitem x 1; Ok (key, x)) rows;
      let sorted := stable_sort (fun a b => Qltb (fst b) (fst a)) keyed in
      let kept := match max_apertures with
                  | Some m => py_slice sorted 0 m
                  | None => sorted
                  end in
      match kept with
      | [] => Raise IndexError
      | _ :: _ => Ok (map (fun kx => nth 0 (snd kx) 0%Q) kept)
      end
  end.

(** The argument [direction] is not used by the function. *)
Definition find_apertures_peaks (profile : list Q) (prof_mask : list Z)
    (max_apertures : option Z) (threshold : Q) (sizing_method : option string)
    (use_snr : bool) : result (list Q * list (Q * Q)) :=
  peaks_and_snrs ←
    FindPeaksCall.find_peaks spline_integrate find_peaks_head
      profile widths (Some (map (fun m => Z.land m not_signal) prof_mask))
      (if use_snr then Some [1%Q] else None) 3 1 (1 # 5) false (Some 0);
  if (np_size peaks_and_snrs =? 0)%nat then Ok ([], [])
  else
    locations ← strongest peaks_and_snrs max_apertures;
    all_limits ← Limits.get_limits spline call antiderivative fit
                    get_spline3_extrema bisect
                    profile prof_mask None locations threshold sizing_method;
    Ok (locations, all_limits).

End FindApertures.
End FindApertures.

(** ** The start and the end of [trace_lines] *)

Module TraceEnds.
Section TraceEnds.

Variable spline_integrate : list Q -> Q -> Q -> Q.

(** Lines 981-992: the initial peaks, recentred on the collapsed starting
    profile unless [initial_tolerance] is [None]. *)
Definition initial_peaks (data : list Q) (mask : option (list bool))
    (initial : list Q) (initial_tolerance : option Q) : result (list Q) :=
  match initial_tolerance with
  | None => Ok initial
  | Some tolerance =>
      peaks ← Pinpoint.pinpoint_peaks spline_integrate data mask initial 4 0%Q;
      kept ← traverse
               (fun peak =>
                  match Trace.nearest peaks peak with
                  | None => Raise ValueError
                  | Some new_peak =>
                      Ok (if Qle_bool (Qabs (new_peak - peak)) tolerance
                          then Some new_peak else None)
                  end)
               initial;
      Ok (collect kept)
  end.

(** [[::-1]] on the first axis. *)
Definition flip (a : ndarray) : ndarray :=
  match a with
  | Array1 v => Array1 (rev v)
  | Array2 rows => Array2 (rev rows)
  end.

(** Lines 1098-1106: the two arrays returned, [ref_coords] first. *)
Definition coords (axis : Z) (coord_lists : list (list (Q * Q)))
    (initial_peaks : list Q) : ndarray * ndarray :=
  let in_coords :=
    np_transpose (np_array_of_tuples (concat coord_lists)) in
  let ref_coords :=
    np_transpose
      (np_array_of_tuples
         (concat (zip_with (fun coo ref => map (fun c => (fst c, ref)) coo)
                           coord_lists initial_peaks))) in
  if axis =? 1 then (ref_coords, in_coords) else (flip ref_coords, flip in_coords).

End TraceEnds.
End TraceEnds.

(** ** Further notions used to state the properties *)

(** The entry of a boolean image at a row and a column. *)
Definition marked (mask : list (list bool)) (row col : nat) : bool :=
  nth col (nth row mask []) false.

(** The entry of an aperture mask for pixel [i] along the dispersion and
    pixel [j] along the slit: the dispersion runs along the first axis of
    the array when the descriptor [dispersion_axis] is 2. *)
Definition aperture_pixel (dispersion_axis : Z) (mask : list (list bool))
    (i j : nat) : bool :=
  if dispersion_axis =? 2 then marked mask i j else marked mask j i.

(** ** Notions used to state the properties *)

(** Two locations are [min_sep] apart, whichever comes first. *)
Definition apart (min_sep a b : Q) : Prop :=
  (min_sep <= b - a)%Q \/ (min_sep <= a - b)%Q.



(** ** Generic facts *)

Lemma Ok_inj {A : Type} (a b : A) : Ok a = Ok b -> a = b.
Proof. intros [= ->]; reflexivity. Qed.

Lemma traverse_Ok_length {A B : Type} (f : A -> result B) l out :
  traverse f l = Ok out -> length out = length l.
Proof.
  revert out; induction l as [|x l IH]; intros out; simpl.
  - intros [= <-]; reflexivity.
  - destruct (f x) as [y|e|]; simpl; [|discriminate..].
    destruct (traverse f l) as [ys|e|]; simpl; [|discriminate..].
    intros [= <-]; simpl; f_equal; auto.
Qed.

Lemma traverse_Ok_Forall {A B : Type} (f : A -> result B) (P : B -> Prop) l out :
  (forall x y, In x l -> f x = Ok y -> P y) ->
  traverse f l = Ok out -> Forall P out.
Proof.
  revert out; induction l as [|x l IH]; intros out HP; simpl.
  - intros [= <-]; constructor.
  - destruct (f x) as [y|e|] eqn:Hx; simpl; [|discriminate..].
    destruct (traverse f l) as [ys|e|]; simpl; [|discriminate..].
    intros [= <-]; constructor.
    + apply (HP x); simpl; auto.
    + apply IH; auto. intros; eapply HP; simpl; eauto.
Qed.

Lemma Qsum_zero (l : list Q) : Forall (fun x => x == 0)%Q l -> (Qsum l == 0)%Q.
Proof.
  induction 1 as [|x l Hx _ IH]; simpl; [reflexivity|].
  rewrite Hx, IH; reflexivity.
Qed.

Lemma nth_zero (l : list Q) j :
  Forall (fun x => x == 0)%Q l -> (nth j l 0 == 0)%Q.
Proof.
  intros H; revert j; induction H as [|x l Hx _ IH]; intros [|j]; simpl;
    try reflexivity; auto.
Qed.

Lemma conv_at_zero_l a v k :
  Forall (fun x => x == 0)%Q a -> (conv_at a v k == 0)%Q.
Proof.
  intros Ha; unfold conv_at; apply Qsum_zero.
  apply List.Forall_forall; intros x Hx; apply List.in_map_iff in Hx as (j & <- & _).
  destruct (j <=? k)%nat; [|reflexivity].
  rewrite (nth_zero a j Ha); ring.
Qed.

Lemma conv_at_zero_r a v k :
  Forall (fun x => x == 0)%Q v -> (conv_at a v k == 0)%Q.
Proof.
  intros Hv; unfold conv_at; apply Qsum_zero.
  apply List.Forall_forall; intros x Hx; apply List.in_map_iff in Hx as (j & <- & _).
  destruct (j <=? k)%nat; [|reflexivity].
  rewrite (nth_zero v (k - j) Hv); ring.
Qed.

Lemma np_convolve_same_zero a v row :
  Forall (fun x => x == 0)%Q a ->
  np_convolve_same a v = Ok row -> Forall (fun x => x == 0)%Q row.
Proof.
  intros Ha; unfold np_convolve_same.
  destruct (length a <? length v)%nat.
  - destruct (length v =? 0)%nat; [discriminate|].
    destruct (length a =? 0)%nat; [discriminate|].
    intros [= <-]. apply List.Forall_forall; intros x Hx.
    apply List.in_map_iff in Hx as (i & <- & _). apply conv_at_zero_r; assumption.
  - destruct (length a =? 0)%nat; [discriminate|].
    destruct (length v =? 0)%nat; [discriminate|].
    intros [= <-]. apply List.Forall_forall; intros x Hx.
    apply List.in_map_iff in Hx as (i & <- & _). apply conv_at_zero_l; assumption.
Qed.

Lemma assign_row_length n row out :
  assign_row n row = Ok out -> length out = n.
Proof.
  unfold assign_row. destruct (length row =? n)%nat eqn:E.
  - intros [= <-]. apply Nat.eqb_eq; assumption.
  - destruct (length row =? 1)%nat; [|discriminate].
    intros [= <-]. apply length_replicate.
Qed.

Lemma assign_row_zero n row out :
  Forall (fun x => x == 0)%Q row ->
  assign_row n row = Ok out -> Forall (fun x => x == 0)%Q out.
Proof.
  intros Hrow; unfold assign_row. destruct (length row =? n)%nat.
  - intros [= <-]; assumption.
  - destruct (length row =? 1)%nat; [|discriminate].
    intros [= <-]. apply List.Forall_forall; intros x Hx.
    apply list_elem_of_In, elem_of_replicate in Hx as [-> _].
    destruct Hrow; simpl; [reflexivity | assumption].
Qed.

(** ** Properties of [cwt_ricker] *)

Lemma py_int_le (q : Q) (z : Z) :
  (q <= inject_Z z)%Q -> py_int q <= Z.max z 0.
Proof.
  destruct q as [n d]; unfold py_int, Qle; simpl; intros H.
  rewrite Z.mul_1_r in H.
  destruct (Z.le_gt_cases 0 n) as [Hn|Hn].
  - rewrite Z.quot_div_nonneg by lia.
    assert (n / Z.pos d <= z) by (apply Z.div_le_upper_bound; lia). lia.
  - assert (Z.quot n (Z.pos d) <= 0).
    { rewrite <- (Z.opp_involutive n), Z.quot_opp_l by lia.
      assert (0 <= Z.quot (- n) (Z.pos d)) by (apply Z.quot_pos; lia). lia. }
    lia.
Qed.

Lemma py_int_ge (q : Q) (z : Z) :
  0 <= z -> (inject_Z z <= q)%Q -> z <= py_int q.
Proof.
  destruct q as [n d]; unfold py_int, Qle; simpl; intros Hz H.
  rewrite Z.mul_1_r in H.
  rewrite Z.quot_div_nonneg by nia.
  apply Z.div_le_lower_bound; lia.
Qed.

Lemma ricker_length amp ex N w :
  length (Ricker.ricker amp ex N w) = Z.to_nat N.
Proof.
  unfold Ricker.ricker, np_arange. rewrite !length_map. apply length_seq.
Qed.

Lemma wavelet_length_upper w n : Ricker.wavelet_length w n < Z.max (Z.of_nat n) 1.
Proof.
  unfold Ricker.wavelet_length.
  set (p := py_int _).
  assert (Hp : p <= Z.max (Z.of_nat n) 0).
  { apply py_int_le. apply Q.le_min_r. }
  assert (p / 2 * 2 <= p) by (pose proof (Z.mul_div_le p 2); lia).
  lia.
Qed.

Lemma wavelet_length_lower w n :
  (2 <= n)%nat -> (1 # 5 <= w)%Q -> 1 <= Ricker.wavelet_length w n.
Proof.
  intros Hn Hw. unfold Ricker.wavelet_length.
  set (p := py_int _).
  assert (Hp : 2 <= p).
  { apply py_int_ge; [lia|]. apply Q.min_glb.
    - apply Qle_trans with (10 * (1 # 5))%Q; [discriminate|].
      apply Qmult_le_l; [reflexivity | assumption].
    - rewrite <- Zle_Qle. lia. }
  assert (1 <= p / 2) by (apply Z.div_le_lower_bound; lia).
  lia.
Qed.

Lemma np_convolve_same_empty_kernel a v :
  length v = 0%nat -> np_convolve_same a v = Raise ValueError.
Proof.
  destruct v; [intros _|discriminate].
  unfold np_convolve_same. simpl. destruct a; reflexivity.
Qed.

Lemma np_convolve_same_kernel a v :
  (0 < length v <= length a)%nat ->
  np_convolve_same a v =
  Ok (map (fun i => conv_at a v (i + (length v - 1) / 2)%nat) (seq 0 (length a))).
Proof.
  intros H. unfold np_convolve_same.
  destruct (Nat.ltb_spec (length a) (length v)); [lia|].
  destruct (Nat.eqb_spec (length a) 0); [lia|].
  destruct (Nat.eqb_spec (length v) 0); [lia|]. reflexivity.
Qed.

(** A kernel of length [N <= 0] is empty and [np.convolve] rejects it. *)
Lemma cwt_row_empty_kernel amp ex data w :
  Ricker.wavelet_length w (length data) <= 0 ->
  Ricker.cwt_row amp ex data w = Raise ValueError.
Proof.
  intros HN. unfold Ricker.cwt_row.
  rewrite np_convolve_same_empty_kernel; [reflexivity|].
  rewrite length_rev, ricker_length. lia.
Qed.

(** With at least two samples and a width of at least [0.2] the kernel is
    non-empty and no longer than the data, and the row is produced. *)
Lemma cwt_row_returns amp ex data w :
  (2 <= length data)%nat -> (1 # 5 <= w)%Q ->
  exists row, Ricker.cwt_row amp ex data w = Ok row.
Proof.
  intros Hn Hw.
  pose proof (wavelet_length_lower w _ Hn Hw) as Hlo.
  pose proof (wavelet_length_upper w (length data)) as Hhi.
  unfold Ricker.cwt_row.
  rewrite np_convolve_same_kernel
    by (rewrite length_rev, ricker_length; lia).
  cbn [mbind result_bind]. unfold assign_row.
  rewrite length_map, length_seq, Nat.eqb_refl.
  eexists; reflexivity.
Qed.

Lemma cwt_ricker_returns amp ex data widths :
  (2 <= length data)%nat -> Forall (fun w => 1 # 5 <= w)%Q widths ->
  exists out, Ricker.cwt_ricker amp ex data widths = Ok out.
Proof.
  intros Hn Hw. unfold Ricker.cwt_ricker.
  induction Hw as [|w ws Hw _ [out IH]]; simpl.
  - eexists; reflexivity.
  - destruct (cwt_row_returns amp ex data w Hn Hw) as [row ->]. simpl.
    rewrite IH. simpl. eexists; reflexivity.
Qed.

(** C8 (the code departs from the claim): on a signal of a single sample
    the kernel length [int(min(10 * width, 1)) // 2 * 2 - 1] is negative for
    every width, the Ricker kernel is empty and [np.convolve] raises
    [ValueError]; so [N >= 1] with a positive width does not suffice for
    [cwt_ricker] to return. *)
Theorem cwt_ricker_single_sample_raises
    (ricker_amp np_exp : Q -> Q) (x width : Q) :
  Ricker.cwt_ricker ricker_amp np_exp [x] [width] = Raise ValueError.
Proof.
  unfold Ricker.cwt_ricker; simpl.
  rewrite cwt_row_empty_kernel; [reflexivity|].
  pose proof (wavelet_length_upper width 1). simpl in *. lia.
Qed.

(** C9: whenever [cwt_ricker] returns, its output has one row per width,
    every row is as long as the input signal, and an all-zero signal
    yields an all-zero transform. *)
Theorem cwt_ricker_same_length_and_zero
    (ricker_amp np_exp : Q -> Q) (data widths : list Q) (out : list (list Q)) :
  Ricker.cwt_ricker ricker_amp np_exp data widths = Ok out ->
  length out = length widths /\
  Forall (fun row => length row = length data) out /\
  (Forall (fun x => x == 0)%Q data ->
   Forall (Forall (fun x => x == 0)%Q) out).
Proof.
  intros H. split; [|split].
  - eapply traverse_Ok_length; exact H.
  - eapply traverse_Ok_Forall; [|exact H].
    intros w row _. unfold Ricker.cwt_row.
    destruct (np_convolve_same _ _) as [r|e|]; simpl; [|discriminate..].
    apply assign_row_length.
  - intros Hz. eapply traverse_Ok_Forall; [|exact H].
    intros w row _. unfold Ricker.cwt_row.
    destruct (np_convolve_same _ _) as [r|e|] eqn:Hc; simpl; [|discriminate..].
    apply assign_row_zero. eapply np_convolve_same_zero; eassumption.
Qed.

Lemma cwt_ricker_same_length_and_zero_witness :
  let amp := fun a : Q => (1 / a)%Q in
  let ex := fun x : Q => (1 / (1 - x))%Q in
  exists out,
    Ricker.cwt_ricker amp ex [0; 0; 0; 0]%Q [1; 2]%Q = Ok out /\
    length out = 2%nat /\
    Forall (fun row => length row = 4%nat) out /\
    (Forall (fun x => x == 0)%Q [0; 0; 0; 0]%Q ->
     Forall (Forall (fun x => x == 0)%Q) out).
Proof.
  intros amp ex.
  destruct (cwt_ricker_returns amp ex [0; 0; 0; 0]%Q [1; 2]%Q) as [out Hout].
  - simpl; lia.
  - repeat constructor; discriminate.
  - exists out. split; [exact Hout|].
    exact (cwt_ricker_same_length_and_zero amp ex _ _ out Hout).
Defined.


(** ** Comparisons *)

Lemma Qltb_lt (x y : Q) : Qltb x y = true <-> (x < y)%Q.
Proof.
  unfold Qltb. rewrite negb_true_iff. split.
  - intros H. apply Qnot_le_lt. intros Hle.
    apply Qle_bool_iff in Hle. congruence.
  - intros H. destruct (Qle_bool y x) eqn:E; [|reflexivity].
    apply Qle_bool_iff in E. exfalso. exact (Qlt_not_le _ _ H E).
Qed.

Lemma Qltb_ge (x y : Q) : Qltb x y = false <-> (y <= x)%Q.
Proof.
  unfold Qltb. rewrite negb_false_iff. apply Qle_bool_iff.
Qed.

(** ** Properties of [pinpoint_peaks] *)

Lemma collect_length {A : Type} (l : list (option A)) :
  (length (collect l) <= length l)%nat.
Proof. induction l as [|[x|] l IH]; simpl; lia. Qed.

Lemma collect_Forall {A : Type} (P : A -> Prop) (l : list (option A)) :
  Forall (fun o => match o with Some x => P x | None => True end) l ->
  Forall P (collect l).
Proof.
  induction 1 as [|[x|] l Hx _ IH]; simpl; auto.
Qed.

Section PinpointFacts.

Variable spline_integrate : list Q -> Q -> Q -> Q.

Lemma centroid_step_converged md npts hw s x :
  Pinpoint.centroid_step spline_integrate md npts hw s = Pinpoint.Converged x ->
  (inject_Z hw <= x <= inject_Z npts - inject_Z hw)%Q.
Proof.
  unfold Pinpoint.centroid_step.
  destruct (Qeq_bool _ 0); [discriminate|].
  match goal with |- context [Qltb ?a ?b || Qltb ?c ?d] =>
    destruct (Qltb a b) eqn:Hlo; [discriminate|];
    destruct (Qltb c d) eqn:Hhi; [discriminate|] end.
  cbn [orb].
  destruct (Qltb (Qabs _) (1 # 1000)).
  - intros [= <-]. apply Qltb_ge in Hlo, Hhi. split; assumption.
  - repeat match goal with
           | |- (if ?b then _ else _) = _ -> _ => destruct b
           end; discriminate.
Qed.

Lemma centroid_loop_range n md npts hw s x :
  Pinpoint.centroid_loop spline_integrate n md npts hw s = Some x ->
  (inject_Z hw <= x <= inject_Z npts - inject_Z hw)%Q.
Proof.
  revert s; induction n as [|n IH]; intros s; simpl; [discriminate|].
  destruct (Pinpoint.centroid_step _ _ _ _ s) as [s'|y|] eqn:Hstep.
  - apply IH.
  - intros [= <-]. eapply centroid_step_converged; eassumption.
  - discriminate.
Qed.


Lemma pinpoint_one_range md npts hw peak x :
  Pinpoint.pinpoint_one spline_integrate md npts hw peak = Ok (Some x) ->
  (inject_Z hw <= x <= inject_Z npts - inject_Z hw)%Q.
Proof.
  unfold Pinpoint.pinpoint_one.
  destruct (np_argmax _) as [am|e|]; cbn [mbind result_bind]; [|discriminate..].
  cbv zeta. destruct (orb _ _); [discriminate|].
  intros H%Ok_inj. exact (centroid_loop_range _ _ _ _ _ _ H).
Qed.

End PinpointFacts.

(** C2, as the code has it: whenever [pinpoint_peaks] returns, it returns at
    most as many locations as it was given, and every returned location [x]
    satisfies [h <= x <= N - h], where [N = len(data)] and
    [h = max(halfwidth, 2)] (both bounds can be attained, and the upper one
    is [N - h], not [N - 1 - h]). *)
Theorem pinpoint_peaks_count_and_range
    (spline_integrate : list Q -> Q -> Q -> Q)
    (data : list Q) (mask : option (list bool)) (peaks : list Q)
    (halfwidth : Z) (threshold : Q) (out : list Q) :
  Pinpoint.pinpoint_peaks spline_integrate data mask peaks halfwidth threshold
    = Ok out ->
  (length out <= length peaks)%nat /\
  Forall (fun x => inject_Z (Z.max halfwidth 2) <= x
                   <= inject_Z (Z.of_nat (length data))
                      - inject_Z (Z.max halfwidth 2))%Q out.
Proof.
  unfold Pinpoint.pinpoint_peaks.
  destruct (Pinpoint.mask_data _ _ _) as [md|e|]; cbn [mbind result_bind];
    [|discriminate..].
  destruct (forallb _ md).
  - intros [= <-]. split; [simpl; lia | constructor].
  - destruct (traverse _ peaks) as [found|e|] eqn:Hfound;
      cbn [mbind result_bind]; [|discriminate..].
    intros [= <-]. split.
    + rewrite <- (traverse_Ok_length _ _ _ Hfound). apply collect_length.
    + apply collect_Forall.
      eapply traverse_Ok_Forall; [|exact Hfound].
      intros peak [x|] _ Hone; [|exact I].
      eapply pinpoint_one_range; eassumption.
Qed.

(** [pinpoint_peaks] does not return for every call: an approximate peak
    beyond the end of the data makes [np.argmax] work on an empty slice. *)
Lemma pinpoint_peaks_far_peak_raises (spline_integrate : list Q -> Q -> Q -> Q) :
  Pinpoint.pinpoint_peaks spline_integrate PinpointRun.data None [100%Q] 2 0%Q
  = Raise ValueError.
Proof. reflexivity. Qed.

(** C2 (the claim as stated fails): with six samples and [halfwidth = 2]
    the claimed range is [2 <= x <= 6 - 1 - 2 = 3], yet the centre returned
    for the parabola samples lies above 3.  Both sample sequences handed to
    the spline fit are values of a cubic, so the fitted splines are those
    cubics. *)
Lemma pinpoint_peaks_exceeds_claimed_range :
  CubicSpline.is_cubic PinpointRun.data = true /\
  CubicSpline.is_cubic
    (zip_with Qmult PinpointRun.data (map inject_Z (np_arange 6))) = true /\
  PinpointRun.run = Ok [PinpointRun.centre] /\
  ~ (inject_Z 2 <= PinpointRun.centre
     <= inject_Z (Z.of_nat (length PinpointRun.data)) - 1 - inject_Z 2)%Q.
Proof.
  split; [vm_compute; reflexivity|].
  split; [vm_compute; reflexivity|].
  split; [vm_compute; reflexivity|].
  intros [_ H]. revert H. vm_compute. intros H; apply H; reflexivity.
Qed.

Lemma pinpoint_peaks_count_and_range_witness :
  (length [PinpointRun.centre] <= length PinpointRun.peaks)%nat /\
  Forall (fun x => inject_Z (Z.max 2 2) <= x
                   <= inject_Z (Z.of_nat (length PinpointRun.data))
                      - inject_Z (Z.max 2 2))%Q [PinpointRun.centre].
Proof.
  apply (pinpoint_peaks_count_and_range CubicSpline.integrate
           PinpointRun.data (Some PinpointRun.mask) PinpointRun.peaks 2 0%Q).
  vm_compute; reflexivity.
Defined.

(** ** The fuel of the model is never the reason a run stops *)

Lemma traverse_fuel {A B : Type} (f : A -> result B) (l : list A) :
  (forall x, f x <> OutOfFuel) -> traverse f l <> OutOfFuel.
Proof.
  intros Hf; induction l as [|x l IH]; simpl; [discriminate|].
  specialize (Hf x). destruct (f x) as [y|e|]; simpl; [|discriminate|congruence].
  destruct (traverse f l) as [ys|e|]; simpl; [discriminate..|congruence].
Qed.

Lemma broadcast2_fuel {A B C : Type} (f : A -> B -> C) a b :
  broadcast2 f a b <> OutOfFuel.
Proof.
  unfold broadcast2. destruct (_ =? _)%nat; [discriminate|].
  destruct a as [|x [|? ?]], b as [|y [|? ?]]; discriminate.
Qed.

Lemma pinpoint_peaks_fuel spline data mask peaks hw thr :
  Pinpoint.pinpoint_peaks spline data mask peaks hw thr <> OutOfFuel.
Proof.
  unfold Pinpoint.pinpoint_peaks.
  assert (Hmd : Pinpoint.mask_data data mask thr <> OutOfFuel).
  { unfold Pinpoint.mask_data. destruct mask as [m|]; [|discriminate].
    pose proof (broadcast2_fuel orb m (map (fun d => Qltb d thr) data)) as H1.
    destruct (broadcast2 orb _ _) as [bad|e|]; cbn [mbind result_bind];
      [apply broadcast2_fuel|discriminate|congruence]. }
  destruct (Pinpoint.mask_data _ _ _) as [md|e|]; cbn [mbind result_bind];
    [|discriminate|congruence].
  destruct (forallb _ md); [discriminate|].
  match goal with |- context [traverse ?f peaks] =>
    assert (Htr : traverse f peaks <> OutOfFuel) end.
  { apply traverse_fuel. intros x. unfold Pinpoint.pinpoint_one.
    destruct (np_argmax _) as [am|e|] eqn:Ham; cbn [mbind result_bind];
      [|discriminate|].
    - cbv zeta. destruct (orb _ _); discriminate.
    - unfold np_argmax in Ham. destruct (py_slice _ _ _); discriminate. }
  destruct (traverse _ peaks) as [found|e|]; cbn [mbind result_bind];
    [discriminate..|congruence].
Qed.

(** ** Properties of the separation loop of [find_peaks] *)

Lemma np_diff_cons a b l : np_diff (a :: b :: l) = (b - a)%Q :: np_diff (b :: l).
Proof. reflexivity. Qed.

Lemma np_diff_length l : length (np_diff l) = (length l - 1)%nat.
Proof.
  induction l as [|a [|b l] IH]; [reflexivity..|].
  rewrite np_diff_cons. simpl in *. lia.
Qed.

Lemma np_diff_lookup l i d :
  np_diff l !! i = Some d <->
  exists a b, l !! i = Some a /\ l !! S i = Some b /\ d = (b - a)%Q.
Proof.
  revert i; induction l as [|a [|b l] IH]; intros i.
  - split; [discriminate|]. intros (? & ? & H & _). discriminate.
  - split; [discriminate|]. intros (? & ? & _ & H & _). discriminate.
  - rewrite np_diff_cons. destruct i as [|i].
    + simpl. split.
      * intros [= <-]. eauto.
      * intros (? & ? & [= <-] & [= <-] & ->). reflexivity.
    + change ((?x :: ?t) !! S i) with (t !! i). rewrite IH.
      reflexivity.
Qed.

Lemma argmax_bool_first (l : list bool) :
  existsb id l = true ->
  l !! argmax_bool l = Some true /\
  forall j, (j < argmax_bool l)%nat -> l !! j = Some false.
Proof.
  induction l as [|[|] l IH]; simpl; [discriminate| |].
  - intros _. split; [reflexivity | intros j Hj; lia].
  - intros Hex. rewrite Hex. destruct (IH Hex) as [H1 H2]. split; [exact H1|].
    intros [|j] Hj; [reflexivity|]. apply H2. lia.
Qed.

Lemma all_separated_false min_sep diffs :
  forallb (fun d => Qle_bool min_sep d) diffs = false ->
  existsb id (map (fun d => Qltb d min_sep) diffs) = true.
Proof.
  induction diffs as [|d diffs IH]; simpl; [discriminate|].
  unfold Qltb at 1. destruct (Qle_bool min_sep d); simpl; auto.
Qed.

Lemma all_separated_true min_sep diffs :
  forallb (fun d => Qle_bool min_sep d) diffs = true ->
  Forall (fun d => min_sep <= d)%Q diffs.
Proof.
  intros H. apply List.Forall_forall. intros d Hd.
  rewrite forallb_forall in H. apply Qle_bool_iff, H, Hd.
Qed.

Lemma lookup_map {A B : Type} (f : A -> B) (l : list A) i :
  map f l !! i = f <$> (l !! i).
Proof.
  revert i; induction l as [|x l IH]; intros [|i]; simpl; auto.
Qed.

Lemma take2_drop {A : Type} (l : list A) i a b :
  l !! i = Some a -> l !! S i = Some b -> take 2 (drop i l) = [a; b].
Proof.
  revert i; induction l as [|x l IH]; intros i; [discriminate|].
  destruct i as [|i].
  - simpl. intros [= ->]. destruct l as [|y l]; [discriminate|].
    simpl. intros [= ->]. reflexivity.
  - intros Ha Hb. exact (IH i Ha Hb).
Qed.

Lemma replace_pair {A : Type} (l : list A) i a b m :
  l !! i = Some a -> l !! S i = Some b ->
  <[i := m]> (delete (S i) l) = take i l ++ m :: drop (S (S i)) l.
Proof.
  revert i; induction l as [|x l IH]; intros i; [discriminate|].
  destruct i as [|i].
  - destruct l as [|y l]; [discriminate|]. reflexivity.
  - intros Ha Hb. simpl. f_equal. exact (IH i Ha Hb).
Qed.

Lemma drop_pair {A : Type} (l : list A) i a b :
  l !! i = Some a -> l !! S i = Some b ->
  delete i (delete (S i) l) = take i l ++ drop (S (S i)) l.
Proof.
  revert i; induction l as [|x l IH]; intros i; [discriminate|].
  destruct i as [|i].
  - destruct l as [|y l]; [discriminate|]. reflexivity.
  - intros Ha Hb. simpl. f_equal. exact (IH i Ha Hb).
Qed.

Lemma min_sep_select min_sep peaks :
  forallb (fun d => Qle_bool min_sep d) (np_diff peaks) = false ->
  exists a b,
    FindPeaks.first_close_pair min_sep peaks
      (argmax_bool (map (fun d => Qltb d min_sep) (np_diff peaks))) a b.
Proof.
  intros Hall. apply all_separated_false in Hall.
  destruct (argmax_bool_first _ Hall) as [Hi Hbefore].
  set (i := argmax_bool _) in *.
  rewrite lookup_map in Hi.
  destruct (np_diff peaks !! i) as [d|] eqn:Hd; [|discriminate].
  simpl in Hi. injection Hi as Hi. apply Qltb_lt in Hi.
  apply np_diff_lookup in Hd as (a & b & Ha & Hb & ->).
  exists a, b. repeat split; try assumption.
  intros j d Hj Hdj. specialize (Hbefore j Hj).
  rewrite lookup_map, Hdj in Hbefore. simpl in Hbefore.
  injection Hbefore as Hbefore. apply Qltb_ge in Hbefore. exact Hbefore.
Qed.

Section SeparationFacts.

Variable spline_integrate : list Q -> Q -> Q -> Q.
Variable pinpoint_data : list Q.
Variable mask : list bool.
Variable min_sep : Q.

Let step := FindPeaks.min_sep_step spline_integrate pinpoint_data mask min_sep.
Let loop n := FindPeaks.min_sep_loop spline_integrate n pinpoint_data mask min_sep.
Let repinpoint a b :=
  Pinpoint.pinpoint_peaks spline_integrate pinpoint_data (Some mask) [a; b] 4 0%Q.

Lemma min_sep_step_ok peaks :
  FindPeaks.min_sep_step_spec spline_integrate pinpoint_data mask min_sep peaks.
Proof.
  unfold FindPeaks.min_sep_step_spec, FindPeaks.min_sep_step,
    FindPeaks.repinpoint_pair. cbv zeta.
  destruct (forallb _ (np_diff peaks)) eqn:Hall.
  - apply all_separated_true; assumption.
  - destruct (min_sep_select _ _ Hall) as (a & b & Hsel).
    set (i := argmax_bool _) in *.
    pose proof Hsel as (Ha & Hb & _).
    rewrite (take2_drop peaks i a b Ha Hb).
    pose proof (pinpoint_peaks_fuel spline_integrate pinpoint_data
                  (Some mask) [a; b] 4 0%Q) as Hfuel.
    fold (repinpoint a b) in Hfuel |- *.
    destruct (repinpoint a b) as [[|m new]|e|] eqn:Hpin;
      cbn [mbind result_bind]; [| | |congruence].
    + exists i, a, b, []. split; [exact Hsel|]. split; [exact Hpin|].
      apply (drop_pair peaks i a b Ha Hb).
    + exists i, a, b, (m :: new). split; [exact Hsel|]. split; [exact Hpin|].
      apply (replace_pair peaks i a b _ Ha Hb).
    + exists i, a, b. split; [exact Hsel | exact Hpin].
Qed.

Lemma min_sep_step_shrinks peaks peaks' :
  step peaks = Ok (Some peaks') -> (length peaks' < length peaks)%nat /\ (2 <= length peaks)%nat.
Proof.
  intros Hstep. pose proof (min_sep_step_ok peaks) as Hspec.
  unfold FindPeaks.min_sep_step_spec in Hspec; fold step in Hspec. rewrite Hstep in Hspec.
  destruct Hspec as (i & a & b & new & (Ha & Hb & _) & _ & ->).
  apply lookup_lt_Some in Hb.
  rewrite !length_app, length_take, length_drop.
  destruct new; simpl; lia.
Qed.

Lemma min_sep_loop_fuel n peaks :
  (length peaks <= S n)%nat -> loop n peaks <> OutOfFuel.
Proof.
  revert peaks; induction n as [|n IH]; intros peaks Hlen;
    unfold loop; simpl; fold step;
    pose proof (min_sep_step_ok peaks) as Hspec;
    pose proof (min_sep_step_shrinks peaks) as Hshrink;
    unfold FindPeaks.min_sep_step_spec in Hspec; fold step in Hspec;
    destruct (step peaks) as [[peaks'|]|e|]; cbn [mbind result_bind];
    try discriminate; try contradiction.
  - specialize (Hshrink peaks' eq_refl). lia.
  - apply IH. specialize (Hshrink peaks' eq_refl). lia.
Qed.

Lemma min_sep_loop_separated n peaks out :
  loop n peaks = Ok out -> Forall (fun d => min_sep <= d)%Q (np_diff out).
Proof.
  revert peaks; induction n as [|n IH]; intros peaks;
    unfold loop; simpl; fold step;
    pose proof (min_sep_step_ok peaks) as Hspec;
    unfold FindPeaks.min_sep_step_spec in Hspec; fold step in Hspec;
    destruct (step peaks) as [[peaks'|]|e|]; cbn [mbind result_bind];
    try discriminate.
  - intros [= <-]; exact Hspec.
  - apply IH.
  - intros [= <-]; exact Hspec.
Qed.


End SeparationFacts.

(** C6, as the code has it: a pass through the loop body stops the loop when
    every adjacent gap is at least [min_sep]; otherwise it takes the first
    (lowest-index) adjacent pair whose gap is below [min_sep], re-pinpoints
    just that pair and puts the mean of the re-pinpointed positions in its
    place, or nothing when re-pinpointing finds nothing.  Started on
    [peaks] with as much fuel as there are peaks, the loop is never cut
    short by the fuel, and when it returns every adjacent gap of its
    result is at least [min_sep]. *)
Theorem min_sep_loop_merges_first_close_pair
    (spline_integrate : list Q -> Q -> Q -> Q)
    (pinpoint_data : list Q) (mask : list bool) (min_sep : Q) (peaks : list Q) :
  FindPeaks.min_sep_step_spec spline_integrate pinpoint_data mask min_sep peaks /\
  FindPeaks.min_sep_loop spline_integrate (length peaks) pinpoint_data mask
    min_sep peaks <> OutOfFuel /\
  forall out,
    FindPeaks.min_sep_loop spline_integrate (length peaks) pinpoint_data mask
      min_sep peaks = Ok out ->
    Forall (fun d => min_sep <= d)%Q (np_diff out).
Proof.
  split; [apply min_sep_step_ok|]. split.
  - apply min_sep_loop_fuel. lia.
  - intros out. apply min_sep_loop_separated.
Qed.

Lemma min_sep_loop_merges_first_close_pair_witness :
  let peaks := [10; 13; 20; 21; 30]%Q in
  let zeros := replicate 32 0%Q in
  let mask := replicate 32 false in
  FindPeaks.min_sep_loop CubicSpline.integrate (length peaks) zeros mask 5 peaks
    = Ok [30%Q] /\
  Forall (fun d => 5 <= d)%Q (np_diff [30%Q]).
Proof.
  intros peaks zeros mask.
  assert (Hrun : FindPeaks.min_sep_loop CubicSpline.integrate (length peaks)
                   zeros mask 5 peaks = Ok [30%Q]) by (vm_compute; reflexivity).
  split; [exact Hrun|].
  destruct (min_sep_loop_merges_first_close_pair CubicSpline.integrate
              zeros mask 5 peaks) as (_ & _ & Hsep).
  exact (Hsep _ Hrun).
Defined.

(** C6 (the claim as stated fails): for peaks at 10, 13, 20 and 21 and
    [min_sep = 5] the gaps are 3, 7 and 1.  The closest under-separated
    pair is the last one, but [np.argmax(diffs < min_sep)] is 0: the pass
    works on the pair (10, 13).  With nothing to re-pinpoint on, the pass of
    the code leaves [20, 21] where the pass worded by the specification
    leaves [10, 13]. *)
Lemma min_sep_step_not_closest_pair :
  let peaks := [10; 13; 20; 21]%Q in
  let zeros := replicate 32 0%Q in
  let mask := replicate 32 false in
  argmax_bool (map (fun d => Qltb d 5) (np_diff peaks)) = 0%nat /\
  FindPeaks.spec_closest_pair 5 peaks = Some 2%nat /\
  FindPeaks.min_sep_step CubicSpline.integrate zeros mask 5 peaks
    = Ok (Some [20; 21]%Q) /\
  FindPeaks.spec_min_sep_step CubicSpline.integrate zeros mask 5 peaks
    = Ok (Some [10; 13]%Q) /\
  FindPeaks.min_sep_step CubicSpline.integrate zeros mask 5 peaks
    <> FindPeaks.spec_min_sep_step CubicSpline.integrate zeros mask 5 peaks.
Proof.
  repeat split; try (vm_compute; reflexivity).
  vm_compute. discriminate.
Qed.

(** ** Stable sorting *)

Lemma insert_sorted_perm {A : Type} (ltb : A -> A -> bool) x l :
  Permutation (x :: l) (insert_sorted ltb x l).
Proof.
  induction l as [|y l IH]; simpl; [reflexivity|].
  destruct (ltb y x); [|reflexivity].
  rewrite perm_swap. apply perm_skip, IH.
Qed.

Lemma stable_sort_perm {A : Type} (ltb : A -> A -> bool) l :
  Permutation l (stable_sort ltb l).
Proof.
  induction l as [|x l IH]; simpl; [reflexivity|].
  rewrite <- insert_sorted_perm. apply perm_skip, IH.
Qed.

Lemma stable_sort_length {A : Type} (ltb : A -> A -> bool) l :
  length (stable_sort ltb l) = length l.
Proof. symmetry. apply Permutation_length, stable_sort_perm. Qed.

Section SortedFacts.

Context {A : Type} (ltb : A -> A -> bool).
Hypothesis ltb_asym : forall x y, ltb x y = true -> ltb y x = false.

(** [x] may stand before [y]: [y] is not smaller than [x]. *)
Let ordered (x y : A) : Prop := ltb y x = false.

Lemma insert_sorted_HdRel a x l :
  ordered a x -> HdRel ordered a l -> HdRel ordered a (insert_sorted ltb x l).
Proof.
  intros Hax Hal. destruct l as [|y l]; simpl; [constructor; exact Hax|].
  destruct (ltb y x); constructor; [|exact Hax].
  inversion Hal; assumption.
Qed.

Lemma insert_sorted_Sorted x l :
  Sorted ordered l -> Sorted ordered (insert_sorted ltb x l).
Proof.
  induction 1 as [|y l Hl IH Hy]; simpl; [repeat constructor|].
  destruct (ltb y x) eqn:Hyx.
  - constructor; [exact IH|].
    apply insert_sorted_HdRel; [|exact Hy].
    apply ltb_asym; exact Hyx.
  - constructor; [constructor; assumption|]. constructor. exact Hyx.
Qed.

Lemma stable_sort_Sorted l : Sorted ordered (stable_sort ltb l).
Proof.
  induction l as [|x l IH]; simpl; [constructor|].
  apply insert_sorted_Sorted, IH.
Qed.

End SortedFacts.

Lemma Sorted_weaken {A : Type} (R S : A -> A -> Prop) l :
  (forall x y, R x y -> S x y) -> Sorted R l -> Sorted S l.
Proof.
  intros HRS. induction 1 as [|x l Hl IH Hx]; constructor; [exact IH|].
  destruct Hx; constructor; auto.
Qed.

Lemma Sorted_map {A B : Type} (f : A -> B) (R : B -> B -> Prop) l :
  Sorted (fun x y => R (f x) (f y)) l -> Sorted R (map f l).
Proof.
  induction 1 as [|x l Hl IH Hx]; simpl; constructor; [exact IH|].
  destruct Hx; simpl; constructor; assumption.
Qed.


Lemma tuple_ltb_asym x y : tuple_ltb x y = true -> tuple_ltb y x = false.
Proof.
  unfold tuple_ltb.
  destruct (Qeq_bool (fst x) (fst y)) eqn:E.
  - apply Qeq_bool_iff in E.
    assert (E' : Qeq_bool (fst y) (fst x) = true)
      by (apply Qeq_bool_iff; symmetry; exact E).
    rewrite E'. intros H%Qltb_lt. apply Qltb_ge, Qlt_le_weak, H.
  - destruct (Qeq_bool (fst y) (fst x)) eqn:E'.
    + apply Qeq_bool_iff in E'. symmetry in E'. apply Qeq_bool_iff in E'.
      congruence.
    + intros H%Qltb_lt. apply Qltb_ge, Qlt_le_weak, H.
Qed.

Lemma tuple_ltb_false_fst x y : tuple_ltb y x = false -> (fst x <= fst y)%Q.
Proof.
  unfold tuple_ltb.
  destruct (Qeq_bool (fst y) (fst x)) eqn:E.
  - intros _. apply Qeq_bool_iff in E. rewrite E. apply Qle_refl.
  - apply Qltb_ge.
Qed.

(** [sorted] puts the tuples in ascending order of location. *)
Lemma sorted_tuples_by_location (l : list peak) :
  Sorted Qle (map fst (stable_sort tuple_ltb l)).
Proof.
  apply Sorted_map.
  eapply Sorted_weaken; [|apply stable_sort_Sorted, tuple_ltb_asym].
  intros x y. apply tuple_ltb_false_fst.
Qed.


(** ** Properties of [reject_bad_peaks] *)

Lemma alter_is_insert (f : list peak -> list peak) (r : positive)
    (h : gmap positive (list peak)) (l : list peak) :
  h !! r = Some l -> alter f r h = <[r := f l]> h.
Proof.
  intros Hr. apply map_eq. intros i.
  destruct (decide (r = i)) as [<-|Hne].
  - rewrite lookup_alter_eq, lookup_insert_eq, Hr. reflexivity.
  - rewrite lookup_alter_ne, lookup_insert_ne by assumption. reflexivity.
Qed.

Lemma removelast_take {A : Type} (l : list A) :
  removelast l = take (length l - 1) l.
Proof.
  induction l as [|x [|y l] IH]; [reflexivity..|].
  change (removelast (x :: y :: l)) with (x :: removelast (y :: l)).
  rewrite IH. simpl. rewrite Nat.sub_0_r. reflexivity.
Qed.

(** The loop leaves a prefix of the list: the longest one that is not
    [too_bright], counting down from the whole list. *)
Lemma reject_loop_prefix (fuel : nat) (r : positive)
    (h : gmap positive (list peak)) (l : list peak) (n : nat) :
  h !! r = Some (take n l) -> (n <= length l)%nat -> (n <= fuel)%nat ->
  exists k,
    (k <= n)%nat /\
    RejectBad.reject_loop fuel r h = Ok (<[r := take k l]> h) /\
    RejectBad.too_bright (take k l) = false /\
    forall m, (k < m <= n)%nat -> RejectBad.too_bright (take m l) = true.
Proof.
  revert h n; induction fuel as [|fuel IH]; intros h n Hr Hn Hfuel.
  - assert (n = 0%nat) as -> by lia. exists 0%nat.
    simpl. rewrite lookup_total_alt, Hr. simpl.
    split; [lia|]. split; [|split; [reflexivity | intros; lia]].
    f_equal. symmetry. apply insert_id. exact Hr.
  - simpl. rewrite lookup_total_alt, Hr. simpl.
    destruct (RejectBad.too_bright (take n l)) eqn:Hbright.
    + assert (Hlen : (3 < n)%nat).
      { unfold RejectBad.too_bright in Hbright.
        apply andb_true_iff in Hbright as [Hlen _].
        apply Nat.ltb_lt in Hlen. rewrite length_take in Hlen. lia. }
      unfold RejectBad.del_last.
      rewrite (alter_is_insert _ r h (take n l) Hr).
      rewrite removelast_take, length_take, take_take.
      replace ((n `min` length l - 1) `min` n)%nat with (n - 1)%nat by lia.
      destruct (IH (<[r := take (n - 1) l]> h) (n - 1)%nat) as (k & Hk & Hrun & Hstop & Habove);
        [apply lookup_insert_eq | lia | lia |].
      exists k. split; [lia|]. split; [|split; [exact Hstop|]].
      * rewrite Hrun. f_equal. apply insert_insert_eq.
      * intros m Hm. destruct (decide (m = n)) as [->|Hne]; [exact Hbright|].
        apply Habove. lia.
    + exists n. split; [lia|]. split; [|split; [exact Hbright | intros; lia]].
      f_equal. symmetry. apply insert_id. exact Hr.
Qed.

Lemma reject_bad_peaks_run
    (r : positive) (h : gmap positive (list peak)) (peaks : list peak) :
  h !! r = Some peaks ->
  let sorted := stable_sort RejectBad.snr_ltb peaks in
  exists k,
    (k <= length peaks)%nat /\
    RejectBad.reject_bad_peaks r h = Ok (r, <[r := take k sorted]> h) /\
    RejectBad.too_bright (take k sorted) = false /\
    forall m, (k < m <= length peaks)%nat ->
              RejectBad.too_bright (take m sorted) = true.
Proof.
  intros Hr sorted.
  unfold RejectBad.reject_bad_peaks, RejectBad.list_sort.
  rewrite (alter_is_insert _ r h peaks Hr). fold sorted.
  rewrite lookup_total_alt, lookup_insert_eq. simpl.
  destruct (reject_loop_prefix (length sorted) r (<[r := sorted]> h) sorted
              (length sorted)) as (k & Hk & Hrun & Hstop & Habove).
  - rewrite lookup_insert_eq, firstn_all. reflexivity.
  - lia.
  - lia.
  - unfold sorted in Hk, Habove. rewrite stable_sort_length in Hk, Habove.
    exists k. split; [exact Hk|]. split; [|split; [exact Hstop | exact Habove]].
    rewrite Hrun. cbn [mbind result_bind]. do 2 f_equal. apply insert_insert_eq.
Qed.



(** ** Properties of [find_peaks] *)

Lemma to_array_shape (good_peaks : list peak) :
  FindPeaks.to_array good_peaks =
  Array2 [map fst (stable_sort tuple_ltb good_peaks);
          map snd (stable_sort tuple_ltb good_peaks)].
Proof.
  unfold FindPeaks.to_array.
  destruct (stable_sort tuple_ltb good_peaks) as [|t ts]; [reflexivity|].
  simpl. rewrite !List.map_map. reflexivity.
Qed.

(** The final cut keeps, in order, peaks whose strength exceeds [min_snr]. *)
Lemma final_filter_ok snr min_snr peaks final :
  FindPeaks.final_filter snr min_snr peaks = Ok final ->
  sublist (map fst final) peaks /\
  Forall (fun t => min_snr < snd t)%Q final.
Proof.
  unfold FindPeaks.final_filter.
  destruct (traverse _ peaks) as [kept|e|] eqn:Hkept;
    cbn [mbind result_bind]; [|discriminate..].
  intros [= <-]. revert kept Hkept.
  induction peaks as [|p peaks IH]; intros kept; simpl.
  - intros [= <-]. split; constructor.
  - destruct (py_getitem snr _) as [s|e|]; cbn [mbind result_bind];
      [|discriminate..].
    destruct (traverse _ peaks) as [kept'|e|]; cbn [mbind result_bind];
      [|discriminate..].
    intros [= <-]. destruct (IH kept' eq_refl) as [Hsub Hall].
    destruct (Qltb min_snr s) eqn:Hs; simpl.
    + split; [apply sublist_skip, Hsub|].
      constructor; [apply Qltb_lt, Hs | exact Hall].
    + split; [apply sublist_cons, Hsub | exact Hall].
Qed.

Lemma final_filter_fuel snr min_snr peaks :
  FindPeaks.final_filter snr min_snr peaks <> OutOfFuel.
Proof.
  unfold FindPeaks.final_filter.
  match goal with |- context [traverse ?f peaks] =>
    assert (Htr : traverse f peaks <> OutOfFuel) end.
  { apply traverse_fuel. intros p. unfold py_getitem.
    destruct (_ <? 0); [discriminate|].
    destruct (snr !! _); discriminate. }
  destruct (traverse _ peaks); cbn [mbind result_bind];
    [discriminate..|congruence].
Qed.

(** ** Separation survives filtering and reordering *)

Lemma apart_sym min_sep a b : apart min_sep a b -> apart min_sep b a.
Proof. unfold apart; tauto. Qed.

Lemma apart_negative min_sep a b : (min_sep < 0)%Q -> apart min_sep a b.
Proof.
  intros Hneg. unfold apart.
  destruct (Qlt_le_dec a b) as [Hab|Hba].
  - left. apply Qlt_le_weak. eapply Qlt_trans; [exact Hneg|].
    unfold Qminus. rewrite <- (Qplus_opp_r a).
    apply Qplus_lt_l. exact Hab.
  - right. apply Qlt_le_weak. eapply Qlt_le_trans; [exact Hneg|].
    unfold Qminus. rewrite <- (Qplus_opp_r b).
    apply Qplus_le_l. exact Hba.
Qed.

Lemma gaps_ordered_pairs min_sep l :
  (0 <= min_sep)%Q ->
  Forall (fun d => min_sep <= d)%Q (np_diff l) ->
  ForallOrdPairs (fun a b => min_sep <= b - a)%Q l.
Proof.
  intros Hpos. induction l as [|a [|b l] IH]; intros Hgaps.
  - constructor.
  - constructor; constructor.
  - rewrite np_diff_cons in Hgaps. inversion Hgaps as [|? ? Hab Hrest]; subst.
    specialize (IH Hrest). constructor; [|exact IH].
    constructor; [exact Hab|].
    inversion IH as [|? ? Hb _]; subst.
    eapply Forall_impl; [exact Hb|]. intros c Hbc. simpl in Hbc.
    apply Qle_trans with ((c - b) + (b - a))%Q.
    + rewrite <- (Qplus_0_r min_sep) at 1.
      apply Qplus_le_compat; [exact Hbc|].
      eapply Qle_trans; [exact Hpos | exact Hab].
    + apply Qle_lteq. right. ring.
Qed.

Lemma ForallOrdPairs_impl {A : Type} (R S : A -> A -> Prop) l :
  (forall a b, R a b -> S a b) -> ForallOrdPairs R l -> ForallOrdPairs S l.
Proof.
  intros HRS. induction 1 as [|a l Ha _ IH]; constructor; [|exact IH].
  eapply Forall_impl; [exact Ha|]. intros b. apply HRS.
Qed.

Lemma ForallOrdPairs_true {A : Type} (R : A -> A -> Prop) l :
  (forall a b, R a b) -> ForallOrdPairs R l.
Proof.
  intros HR. induction l as [|a l IH]; constructor; [|exact IH].
  apply List.Forall_forall. intros b _. apply HR.
Qed.

Lemma gaps_apart min_sep l :
  Forall (fun d => min_sep <= d)%Q (np_diff l) ->
  ForallOrdPairs (apart min_sep) l.
Proof.
  intros Hgaps. destruct (Qlt_le_dec min_sep 0) as [Hneg|Hpos].
  - apply ForallOrdPairs_true. intros a b. apply apart_negative, Hneg.
  - eapply ForallOrdPairs_impl; [|apply gaps_ordered_pairs; eassumption].
    intros a b H. left. exact H.
Qed.

Lemma ForallOrdPairs_submseteq {A : Type} (R : A -> A -> Prop) l1 l2 :
  (forall a b, R a b -> R b a) ->
  l1 ⊆+ l2 -> ForallOrdPairs R l2 -> ForallOrdPairs R l1.
Proof.
  intros Hsym. induction 1 as [|x l1 l2 Hsub IH|x y l|x l1 l2 Hsub IH|l1 l2 l3 _ IH1 _ IH2];
    intros Hall.
  - constructor.
  - inversion Hall as [|? ? Hx Hl2]; subst. constructor; [|apply IH, Hl2].
    rewrite Forall_forall in Hx |- *. intros b Hb. apply Hx.
    eapply elem_of_submseteq; eassumption.
  - inversion Hall as [|? ? Hx Hyl]; subst.
    inversion Hyl as [|? ? Hy Hl]; subst.
    inversion Hx as [|? ? Hxy Hxl]; subst.
    constructor; [constructor; [apply Hsym, Hxy | exact Hy]|].
    constructor; assumption.
  - inversion Hall; subst. apply IH. assumption.
  - apply IH1, IH2, Hall.
Qed.

Lemma ForallOrdPairs_map {A B : Type} (f : A -> B) (R : B -> B -> Prop) l :
  ForallOrdPairs R (map f l) <-> ForallOrdPairs (fun x y => R (f x) (f y)) l.
Proof.
  induction l as [|x l IH]; simpl.
  - split; constructor.
  - split; intros H; inversion H as [|? ? Hx Hl]; subst; constructor;
      try (apply IH; assumption).
    + rewrite List.Forall_forall in Hx |- *. intros y Hy.
      apply Hx, List.in_map, Hy.
    + rewrite List.Forall_forall in Hx |- *. intros y Hy.
      apply List.in_map_iff in Hy as (z & <- & Hz). apply Hx, Hz.
Qed.

(** In a list in ascending order whose elements are pairwise [min_sep]
    apart, adjacent gaps are at least [min_sep]. *)
Lemma sorted_apart_gaps min_sep l :
  Sorted Qle l -> ForallOrdPairs (apart min_sep) l ->
  Forall (fun d => min_sep <= d)%Q (np_diff l).
Proof.
  induction l as [|a [|b l] IH]; intros Hsorted Hapart; [constructor..|].
  rewrite np_diff_cons.
  inversion Hsorted as [|? ? Hs Hhd]; subst.
  inversion Hapart as [|? ? Ha Hrest]; subst.
  constructor; [|apply IH; assumption].
  inversion Hhd as [|? ? Hab]; subst.
  inversion Ha as [|? ? [Hfwd|Hbwd] _]; subst; [exact Hfwd|].
  eapply Qle_trans; [exact Hbwd|].
  apply Qle_trans with 0%Q.
  - unfold Qminus. rewrite <- (Qplus_opp_r b). apply Qplus_le_l. exact Hab.
  - unfold Qminus. rewrite <- (Qplus_opp_r a). apply Qplus_le_l. exact Hab.
Qed.

Lemma build_ok reject_bad final :
  exists good_peaks,
    FindPeaks.build reject_bad final = Ok (FindPeaks.to_array good_peaks) /\
    good_peaks ⊆+ final.
Proof.
  unfold FindPeaks.build. destruct reject_bad.
  - pose proof (stable_sort_perm RejectBad.snr_ltb final) as Hperm.
    destruct (reject_bad_peaks_run 1%positive {[ 1%positive := final ]} final)
      as (k & _ & Hrun & _); [apply lookup_singleton_eq|].
    rewrite Hrun. cbn [mbind result_bind].
    rewrite lookup_total_alt, lookup_insert_eq. simpl.
    eexists; split; [reflexivity|].
    transitivity (stable_sort RejectBad.snr_ltb final).
    + apply sublist_submseteq, sublist_take.
    + apply Permutation_submseteq. symmetry. exact Hperm.
  - exists final. split; reflexivity.
Qed.

Section FindPeaksFacts.

Variable spline_integrate : list Q -> Q -> Q -> Q.
Variable st : FindPeaks.locals.
Variables min_snr min_sep : Q.
Variable reject_bad : bool.

(** What [find_peaks] promises about the array it returns. *)
Let promised (T : ndarray) : Prop :=
  exists locs snrs,
    T = Array2 [locs; snrs] /\ length locs = length snrs /\
    Sorted Qle locs /\
    Forall (fun d => min_sep <= d)%Q (np_diff locs) /\
    Forall (fun s => min_snr < s)%Q snrs.

Lemma finish_ok peaks T :
  Forall (fun d => min_sep <= d)%Q (np_diff peaks) ->
  FindPeaks.finish st min_snr reject_bad peaks = Ok T -> promised T.
Proof.
  intros Hgaps. unfold FindPeaks.finish.
  destruct (FindPeaks.final_filter _ _ peaks) as [final|e|] eqn:Hfinal;
    cbn [mbind result_bind]; [|discriminate..].
  destruct (final_filter_ok _ _ _ _ Hfinal) as [Hsub Hsnr].
  destruct (build_ok reject_bad final) as (good & -> & Hgood).
  intros [= <-]. rewrite to_array_shape.
  set (sorted := stable_sort tuple_ltb good).
  assert (Hsorted : sorted ⊆+ final).
  { transitivity good; [|exact Hgood].
    apply Permutation_submseteq. symmetry. apply stable_sort_perm. }
  exists (map fst sorted), (map snd sorted).
  split; [reflexivity|]. split; [rewrite !length_map; reflexivity|].
  split; [apply sorted_tuples_by_location|]. split.
  - apply sorted_apart_gaps; [apply sorted_tuples_by_location|].
    apply ForallOrdPairs_map.
    apply (ForallOrdPairs_submseteq _ sorted final);
      [intros a b; apply apart_sym | exact Hsorted |].
    apply ForallOrdPairs_map.
    apply (ForallOrdPairs_submseteq _ (map fst final) peaks);
      [intros a b; apply apart_sym | apply sublist_submseteq, Hsub |].
    apply gaps_apart, Hgaps.
  - rewrite List.Forall_forall in Hsnr |- *. intros s Hs.
    apply List.in_map_iff in Hs as (t & <- & Ht). apply Hsnr.
    apply list_elem_of_In. eapply elem_of_submseteq; [|exact Hsorted].
    apply list_elem_of_In, Ht.
Qed.

Lemma find_peaks_ok T :
  FindPeaks.find_peaks spline_integrate st min_snr min_sep reject_bad = Ok T ->
  promised T.
Proof.
  unfold FindPeaks.find_peaks.
  destruct (FindPeaks.snr_filter _ _ _) as [peaks0|e|];
    cbn [mbind result_bind]; [|discriminate..].
  destruct (FindPeaks.remove_adjacent peaks0) as [new_peaks|e|];
    cbn [mbind result_bind]; [|discriminate..].
  unfold FindPeaks.filter_and_finish, FindPeaks.pinpoint_and_finish. cbv zeta.
  destruct (FindPeaks.clip_noise _ _) as [pd|e|];
    cbn [mbind result_bind]; [|discriminate..].
  destruct (Pinpoint.pinpoint_peaks _ _ _ _ _ _) as [peaks1|e|];
    cbn [mbind result_bind]; [|discriminate..].
  unfold FindPeaks.separate_and_finish.
  destruct (FindPeaks.min_sep_loop _ _ _ _ _ _) as [peaks2|e|] eqn:Hloop;
    cbn [mbind result_bind]; [|discriminate..].
  apply finish_ok.
  eapply min_sep_loop_separated; exact Hloop.
Qed.

End FindPeaksFacts.

(** *** [find_peaks] is never cut short by the fuel *)

Lemma scan_run_advances prev rest j : (j <= FindPeaks.scan_run prev rest j)%nat.
Proof.
  revert prev j; induction rest as [|x rest IH]; intros prev j; simpl; [lia|].
  destruct (x - prev <=? 1); [|lia]. specialize (IH x (S j)). lia.
Qed.

Lemma remove_adjacent_loop_fuel fuel peaks i new_peaks :
  (length peaks - i <= fuel)%nat ->
  FindPeaks.remove_adjacent_loop fuel peaks i new_peaks <> OutOfFuel.
Proof.
  revert i new_peaks; induction fuel as [|fuel IH]; intros i new_peaks Hfuel;
    simpl; destruct (Nat.ltb_spec i (length peaks)); try discriminate; [lia|].
  apply IH.
  pose proof (scan_run_advances (nth i peaks 0) (drop (S i) peaks) (S i)). lia.
Qed.

Lemma snr_filter_fuel snr min_snr peaks :
  FindPeaks.snr_filter snr min_snr peaks <> OutOfFuel.
Proof.
  unfold FindPeaks.snr_filter.
  match goal with |- context [traverse ?f peaks] =>
    assert (Htr : traverse f peaks <> OutOfFuel) end.
  { apply traverse_fuel. intros p. unfold py_getitem.
    destruct (_ <? 0); [discriminate|].
    destruct (snr !! _); discriminate. }
  destruct (traverse _ peaks); cbn [mbind result_bind];
    [discriminate..|congruence].
Qed.

Lemma find_peaks_fuel spline st min_snr min_sep reject_bad :
  FindPeaks.find_peaks spline st min_snr min_sep reject_bad <> OutOfFuel.
Proof.
  unfold FindPeaks.find_peaks.
  pose proof (snr_filter_fuel (FindPeaks.snr st) min_snr (FindPeaks.peaks st)) as H0.
  destruct (FindPeaks.snr_filter _ _ _) as [peaks0|e|];
    cbn [mbind result_bind]; [|discriminate|congruence].
  pose proof (remove_adjacent_loop_fuel (length peaks0) peaks0 0 []) as H1.
  unfold FindPeaks.remove_adjacent.
  destruct (FindPeaks.remove_adjacent_loop _ _ _ _) as [new_peaks|e|];
    cbn [mbind result_bind]; [|discriminate|exfalso; apply H1; [lia|reflexivity]].
  unfold FindPeaks.filter_and_finish, FindPeaks.pinpoint_and_finish,
    FindPeaks.clip_noise. cbv zeta.
  destruct (_ =? _)%nat; cbn [mbind result_bind]; [|discriminate].
  match goal with |- context [Pinpoint.pinpoint_peaks ?a ?b ?c ?d ?e ?f] =>
    pose proof (pinpoint_peaks_fuel a b c d e f) as H2;
    destruct (Pinpoint.pinpoint_peaks a b c d e f) as [peaks1|err|];
    cbn [mbind result_bind]; [|discriminate|congruence]
  end.
  unfold FindPeaks.separate_and_finish.
  match goal with |- context [FindPeaks.min_sep_loop ?a ?n ?b ?c ?d ?l] =>
    pose proof (min_sep_loop_fuel a b c d n l) as H3;
    destruct (FindPeaks.min_sep_loop a n b c d l) as [peaks2|err|];
    cbn [mbind result_bind]; [|discriminate|exfalso; apply H3; [lia|reflexivity]]
  end.
  unfold FindPeaks.finish.
  pose proof (final_filter_fuel (FindPeaks.snr st) min_snr peaks2) as H4.
  destruct (FindPeaks.final_filter _ _ _) as [final|err|];
    cbn [mbind result_bind]; [|discriminate|congruence].
  destruct (build_ok reject_bad final) as (good & -> & _). discriminate.
Qed.



(** ** Empty results *)

Lemma broadcast2_same_length {A B C : Type} (f : A -> B -> C) a b :
  length a = length b -> broadcast2 f a b = Ok (zip_with f a b).
Proof.
  intros Hlen. unfold broadcast2. rewrite Hlen, Nat.eqb_refl. reflexivity.
Qed.

Lemma pinpoint_peaks_nil spline data mask hw thr :
  length mask = length data ->
  Pinpoint.pinpoint_peaks spline data (Some mask) [] hw thr = Ok [].
Proof.
  intros Hlen. unfold Pinpoint.pinpoint_peaks, Pinpoint.mask_data.
  rewrite broadcast2_same_length by (rewrite length_map; exact Hlen).
  cbn [mbind result_bind].
  rewrite broadcast2_same_length.
  - cbn [mbind result_bind]. destruct (forallb _ _); reflexivity.
  - rewrite length_zip_with_l_eq by (rewrite length_map; exact Hlen).
    rewrite length_map. exact Hlen.
Qed.

Lemma build_nil reject_bad : FindPeaks.build reject_bad [] = Ok (Array2 [[]; []]).
Proof. destruct reject_bad; vm_compute; reflexivity. Qed.

(** C7: under the shape invariant of the arrays at line 521 ([mask], [snr]
    and [pinpoint_data] all have the length of [data]), [find_peaks] always
    hands back a two-row array with rows of equal length when it returns,
    and from whichever stage the list of surviving peaks is empty, the rest
    of the function runs without raising and returns the array of two
    empty rows. *)
Theorem find_peaks_empty_result
    (spline_integrate : list Q -> Q -> Q -> Q) (st : FindPeaks.locals)
    (min_snr min_sep : Q) (reject_bad : bool) :
  length (FindPeaks.mask st) = length (FindPeaks.pinpoint_data st) ->
  length (FindPeaks.snr st) = length (FindPeaks.pinpoint_data st) ->
  let empty := Array2 [[]; []] in
  (forall T,
     FindPeaks.find_peaks spline_integrate st min_snr min_sep reject_bad = Ok T ->
     exists locs snrs, T = Array2 [locs; snrs] /\ length locs = length snrs) /\
  (FindPeaks.peaks st = [] ->
   FindPeaks.find_peaks spline_integrate st min_snr min_sep reject_bad = Ok empty) /\
  FindPeaks.filter_and_finish spline_integrate st min_snr min_sep reject_bad []
    = Ok empty /\
  FindPeaks.pinpoint_and_finish spline_integrate st min_snr min_sep reject_bad []
    = Ok empty /\
  (forall pinpoint_data,
     FindPeaks.separate_and_finish spline_integrate st min_snr min_sep
       reject_bad pinpoint_data [] = Ok empty) /\
  FindPeaks.finish st min_snr reject_bad [] = Ok empty /\
  FindPeaks.build reject_bad [] = Ok empty /\
  FindPeaks.to_array [] = empty.
Proof.
  intros Hmask Hsnr empty.
  assert (Hbuild : FindPeaks.build reject_bad [] = Ok empty) by apply build_nil.
  assert (Hfinish : FindPeaks.finish st min_snr reject_bad [] = Ok empty)
    by exact Hbuild.
  assert (Hsep : forall pd, FindPeaks.separate_and_finish spline_integrate st
                   min_snr min_sep reject_bad pd [] = Ok empty)
    by (intros pd; exact Hfinish).
  assert (Hpin : FindPeaks.pinpoint_and_finish spline_integrate st min_snr
                   min_sep reject_bad [] = Ok empty).
  { unfold FindPeaks.pinpoint_and_finish, FindPeaks.clip_noise.
    rewrite Hsnr, Nat.eqb_refl. cbn [mbind result_bind].
    rewrite pinpoint_peaks_nil; [apply Hsep|].
    rewrite length_zip_with_l_eq by (symmetry; exact Hsnr). exact Hmask. }
  assert (Hfilter : FindPeaks.filter_and_finish spline_integrate st min_snr
                      min_sep reject_bad [] = Ok empty) by exact Hpin.
  split; [|split; [|repeat split; try assumption; reflexivity]].
  - intros T HT.
    destruct (find_peaks_ok _ _ _ _ _ _ HT)
      as (locs & snrs & -> & Hlen & _).
    exists locs, snrs. split; [reflexivity | exact Hlen].
  - intros Hnone. unfold FindPeaks.find_peaks. rewrite Hnone. exact Hfilter.
Qed.

Lemma find_peaks_empty_result_witness :
  let st := {| FindPeaks.data_len := 6;
               FindPeaks.mask := PinpointRun.mask;
               FindPeaks.widths := [1 # 2]%Q;
               FindPeaks.max_width := (1 # 2)%Q;
               FindPeaks.peaks := [3];
               FindPeaks.pinpoint_data := PinpointRun.data;
               FindPeaks.snr := [1; 1; 1; 1; 1; 1]%Q |} in
  let empty := Array2 [[]; []] in
  FindPeaks.find_peaks CubicSpline.integrate st 1 1 true = Ok empty /\
  (forall T,
     FindPeaks.find_peaks CubicSpline.integrate st 1 1 true = Ok T ->
     exists locs snrs, T = Array2 [locs; snrs] /\ length locs = length snrs) /\
  (FindPeaks.peaks st = [] ->
   FindPeaks.find_peaks CubicSpline.integrate st 1 1 true = Ok empty) /\
  FindPeaks.filter_and_finish CubicSpline.integrate st 1 1 true [] = Ok empty /\
  FindPeaks.pinpoint_and_finish CubicSpline.integrate st 1 1 true [] = Ok empty /\
  (forall pinpoint_data,
     FindPeaks.separate_and_finish CubicSpline.integrate st 1 1 true
       pinpoint_data [] = Ok empty) /\
  FindPeaks.finish st 1 true [] = Ok empty /\
  FindPeaks.build true [] = Ok empty /\
  FindPeaks.to_array [] = empty.
Proof.
  intros st empty. split; [vm_compute; reflexivity|].
  apply (find_peaks_empty_result CubicSpline.integrate st 1 1 true);
    reflexivity.
Defined.

(** ** Properties of the optimal-extraction loop *)

Section OptimalFacts.

Variable numbers : Type.
Variables bad_pixel cosmic_ray no_data unilluminated : Z.
Variable deviant : numbers -> list Z -> list bool -> nat -> bool.
Variable revise : numbers -> list Z -> list bool -> numbers.

Let BAD_BITS := Optimal.BAD_BITS bad_pixel cosmic_ray no_data unilluminated.
Let ostate := Optimal.ostate numbers.
Let pass : ostate -> ostate * list bool :=
  Optimal.pass numbers bad_pixel cosmic_ray no_data unilluminated deviant revise.
Let loop := Optimal.extraction_loop numbers bad_pixel cosmic_ray no_data
              unilluminated deviant revise.
Let passes := Optimal.extraction_passes numbers bad_pixel cosmic_ray no_data
                unilluminated deviant revise.




Lemma pass_iter s : Optimal.iter (pass s).1 = Optimal.iter s + 1.
Proof. reflexivity. Qed.

Lemma pass_last_unmask s : (pass s).2 = Optimal.unmask s.
Proof. reflexivity. Qed.





Lemma extraction_loop_unfold fuel max_iters s :
  loop fuel max_iters s =
  if Optimal.finished max_iters (pass s).1 (Optimal.unmask s) then Ok (pass s).1
  else match fuel with
       | O => OutOfFuel
       | S fuel' => loop fuel' max_iters (pass s).1
       end.
Proof. destruct fuel; reflexivity. Qed.

Lemma extraction_passes_unfold fuel max_iters s :
  passes fuel max_iters s =
  if Optimal.finished max_iters (pass s).1 (Optimal.unmask s) then 1%nat
  else match fuel with
       | O => 1%nat
       | S fuel' => S (passes fuel' max_iters (pass s).1)
       end.
Proof. destruct fuel; reflexivity. Qed.




(** With [max_iters] set, the body is entered at most [max_iters + 1]
    times. *)
Lemma extraction_passes_capped fuel m s :
  (passes fuel (Some m) s <= Z.to_nat (m - Optimal.iter s) + 1)%nat.
Proof.
  revert s; induction fuel as [|fuel IH]; intros s;
    rewrite extraction_passes_unfold; unfold Optimal.finished;
    pose proof (pass_iter s) as Hiter.
  - destruct (orb _ _); lia.
  - destruct (_ =? 0)%nat; cbn [orb]; [lia|].
    destruct (Z.ltb_spec m (Optimal.iter (pass s).1)); [lia|].
    specialize (IH (pass s).1). lia.
Qed.

End OptimalFacts.

(** *** The run with one new cosmic ray per pass *)



Section RayPerPass.

Import ExtractionRun.

Let pass := Optimal.pass nat bad_pixel cosmic_ray no_data unilluminated
              ray_at_pass next_pass.
Let passes := Optimal.extraction_passes nat bad_pixel cosmic_ray no_data
                unilluminated ray_at_pass next_pass.








End RayPerPass.

(** C4 (the code departs from the claim): with [max_iters] set the test is
    [iter > max_iters] after [iter += 1], so the body can be entered
    [max_iters + 1] times, and never more.  With [max_iters = 1] and one bad
    pixel in the input mask it is entered twice; with [max_iters = 2] and a
    new cosmic ray in each pass it is entered three times, and [iter] ends
    at 3. *)
Theorem optimal_extraction_passes_exceed_max_iters :
  ExtractionRun.flagged_pixel_count (Some 1) = 2%nat /\
  ExtractionRun.ray_per_pass_count (Some 2) 5 = 3%nat /\
  (exists s, ExtractionRun.ray_per_pass (Some 2) 5 = Ok s /\ Optimal.iter s = 3) /\
  forall (numbers : Type) (bad_pixel cosmic_ray no_data unilluminated : Z)
         (deviant : numbers -> list Z -> list bool -> nat -> bool)
         (revise : numbers -> list Z -> list bool -> numbers)
         (fuel : nat) (max_iters : Z) (dq : list Z) (x : numbers),
    (Optimal.extraction_passes numbers bad_pixel cosmic_ray no_data
       unilluminated deviant revise fuel (Some max_iters)
       (Optimal.initial dq x)
     <= Z.to_nat max_iters + 1)%nat.
Proof.
  split; [vm_compute; reflexivity|].
  split; [vm_compute; reflexivity|].
  split; [eexists; split; vm_compute; reflexivity|].
  intros. 
  pose proof (extraction_passes_capped numbers bad_pixel cosmic_ray no_data
                unilluminated deviant revise fuel max_iters
                (Optimal.initial dq x)) as H.
  simpl in H. rewrite Z.sub_0_r in H. exact H.
Qed.

(** ** Properties of [estimate_peak_width] *)

Section PeakWidthFacts.

Variable peak_widths : list Q -> Z -> Q.




End PeakWidthFacts.


(** ** Properties of [trace_lines] *)

Section TraceFacts.

Variable spline_integrate : list Q -> Q -> Q -> Q.
Variable data_at : Z -> Z -> nat -> list Q.
Variable mask_at : Z -> Z -> nat -> list bool.
Variable var_all_inf : Z -> Z -> bool.
Variables height width nsum max_missed halfwidth : Z.
Variable max_shift : Q.

Let follow := Trace.follow spline_integrate data_at mask_at width max_missed
                halfwidth max_shift.
Let follow_all := Trace.follow_all spline_integrate data_at mask_at width
                    max_missed halfwidth max_shift.
Let trace_step := Trace.trace_step spline_integrate data_at mask_at var_all_inf
                    height width nsum max_missed halfwidth max_shift.
Let trace_loop := Trace.trace_loop spline_integrate data_at mask_at var_all_inf
                    height width nsum max_missed halfwidth max_shift.




End TraceFacts.




(** *** Length of a tracing pass *)

Section TraceLength.

Variable spline_integrate : list Q -> Q -> Q -> Q.
Variable data_at : Z -> Z -> nat -> list Q.
Variable mask_at : Z -> Z -> nat -> list bool.
Variable var_all_inf : Z -> Z -> bool.
Variables height width nsum max_missed halfwidth : Z.
Variable max_shift : Q.

Let trace_step := Trace.trace_step spline_integrate data_at mask_at var_all_inf
                    height width nsum max_missed halfwidth max_shift.
Let trace_loop := Trace.trace_loop spline_integrate data_at mask_at var_all_inf
                    height width nsum max_missed halfwidth max_shift.
Let trace_passes := Trace.trace_passes spline_integrate data_at mask_at var_all_inf
                      height width nsum max_missed halfwidth max_shift.

Lemma half_Z (z : Z) : ((1 # 2) * inject_Z z == z # 2)%Q.
Proof. unfold Qeq, Qmult, inject_Z. simpl. lia. Qed.








(** With [step = 0] the row never changes: on a row inside the image whose
    collapsed profile is dead (fully masked, or without a finite variance)
    and with a feature still alive, the loop goes round for ever, whatever
    the fuel. *)
Lemma trace_loop_zero_step_dead fuel s :
  nsum <= 2 * Trace.ypos s <= 2 * height - nsum ->
  existsb negb
    (mask_at (py_int (inject_Z (Trace.ypos s) + (1 # 2) * inject_Z nsum + (1 # 2))) 0 0)
  && negb (var_all_inf
             (py_int (inject_Z (Trace.ypos s) + (1 # 2) * inject_Z nsum + (1 # 2))) 0)
  = false ->
  Trace.all_lost (Trace.last_coords s) = false ->
  trace_loop fuel 0 s = OutOfFuel.
Proof.
  revert s; induction fuel as [|fuel IH]; intros s Hin Hdead Halive;
    unfold trace_loop; simpl; fold trace_step; fold trace_loop;
    unfold trace_step, Trace.trace_step; cbv zeta;
    rewrite Z.add_0_r, Hdead;
    assert (Hlo : Qltb (inject_Z (Trace.ypos s)) ((1 # 2) * inject_Z nsum) = false)
      by (apply Qltb_ge; rewrite half_Z; unfold Qle, inject_Z; simpl; lia);
    assert (Hhi : Qltb (inject_Z height - (1 # 2) * inject_Z nsum)
                       (inject_Z (Trace.ypos s)) = false)
      by (apply Qltb_ge; rewrite half_Z;
          unfold Qle, Qminus, Qplus, Qopp, inject_Z; simpl; lia);
    rewrite Hlo, Hhi; cbn [orb mbind result_bind Trace.last_coords];
    rewrite Halive; [reflexivity|].
  apply IH; simpl; assumption.
Qed.

End TraceLength.

(** ** Ceilings of the loops *)




(** ** Truncation *)

(** [int(q)] is the floor of a non-negative [q] and the ceiling of a
    non-positive one. *)
Lemma py_int_trunc (q : Q) :
  ((0 <= q)%Q -> 0 <= py_int q /\ (inject_Z (py_int q) <= q < inject_Z (py_int q + 1))%Q) /\
  ((q <= 0)%Q -> py_int q <= 0 /\ (inject_Z (py_int q - 1) < q <= inject_Z (py_int q))%Q).
Proof.
  destruct q as [n d]. unfold py_int, Qle, Qlt, inject_Z. simpl.
  pose proof (Z.quot_rem' n (Z.pos d)) as Hqr.
  split; intros Hn.
  - assert (0 <= n) by lia.
    pose proof (Z.rem_bound_pos n (Z.pos d) ltac:(lia) ltac:(lia)).
    assert (0 <= Z.quot n (Z.pos d)) by (apply Z.quot_pos; lia).
    nia.
  - assert (n <= 0) by lia.
    pose proof (Z.rem_bound_pos (- n) (Z.pos d) ltac:(lia) ltac:(lia)) as Hr.
    rewrite Z.rem_opp_l in Hr by lia.
    assert (Z.quot n (Z.pos d) <= 0).
    { rewrite <- (Z.opp_involutive n), Z.quot_opp_l by lia.
      assert (0 <= Z.quot (- n) (Z.pos d)) by (apply Z.quot_pos; lia). lia. }
    nia.
Qed.

Lemma py_int_floor (q : Q) (z : Z) :
  (inject_Z z <= q < inject_Z (z + 1))%Q -> 0 <= z -> py_int q = z.
Proof.
  intros [Hlo Hhi] Hz.
  assert (Hq : (0 <= q)%Q).
  { eapply Qle_trans; [|exact Hlo]. rewrite <- (Zle_Qle 0). exact Hz. }
  destruct (proj1 (py_int_trunc q) Hq) as (_ & H1 & H2).
  assert (A : (inject_Z z < inject_Z (py_int q + 1))%Q)
    by (eapply Qle_lt_trans; eassumption).
  assert (B : (inject_Z (py_int q) < inject_Z (z + 1))%Q)
    by (eapply Qle_lt_trans; eassumption).
  rewrite <- Zlt_Qlt in A, B. lia.
Qed.




(** ** Properties of the class [Aperture] *)

(** X1: an aperture built from a positive width has limits of plus and
    minus half of it and reports that width back; a width that is not
    positive makes the constructor raise [ValueError]; an aperture built
    from two limits reports the distance between them. *)
Theorem aperture_width_round_trip
    (model : Z -> Q) (value aper_lower aper_upper : Q) :
  ((0 < value)%Q ->
   exists self,
     Aperture.init model (Some value) aper_lower aper_upper = Ok self /\
     (Aperture.aper_upper self == (1 # 2) * value)%Q /\
     (Aperture.aper_lower self == - ((1 # 2) * value))%Q /\
     (Aperture.width self == value)%Q /\
     Aperture.last_extraction self = None) /\
  ((value <= 0)%Q ->
   Aperture.init model (Some value) aper_lower aper_upper = Raise ValueError) /\
  (exists self,
     Aperture.init model None aper_lower aper_upper = Ok self /\
     (Aperture.width self == Qabs (aper_upper - aper_lower))%Q).
Proof.
  unfold Aperture.init, Aperture.set_width. split; [|split].
  - intros Hpos. apply Qltb_lt in Hpos. rewrite Hpos.
    eexists. split; [reflexivity|].
    unfold Aperture.width.
    cbn [Aperture.aper_upper Aperture.aper_lower Aperture.last_extraction].
    split; [reflexivity|]. split; [reflexivity|]. split; [|reflexivity].
    apply Qltb_lt in Hpos.
    etransitivity; [apply Qabs_pos|]; lra.
  - intros Hle. apply Qltb_ge in Hle. rewrite Hle. reflexivity.
  - eexists. split; reflexivity.
Qed.

Lemma fill_slice_length {A : Type} (l : list A) a b v :
  length (fill_slice l a b v) = length l.
Proof. unfold fill_slice. apply length_imap. Qed.

Lemma fill_slice_replicate (n : nat) (a : Z) (b : option Z) (j : nat) :
  (j < n)%nat ->
  nth j (fill_slice (replicate n false) a b true) false
  = (py_index n a <=? j)%nat
    && (j <? match b with Some s => py_index n s | None => n end)%nat.
Proof.
  intros Hj. unfold fill_slice. rewrite length_replicate.
  apply nth_lookup_Some with (d := false).
  rewrite list_lookup_imap, lookup_replicate_2 by exact Hj. simpl.
  destruct (_ && _); reflexivity.
Qed.

Lemma center_pixels_lookup (self : Aperture.aperture) (npix i : nat) :
  (i < npix)%nat ->
  Aperture.center_pixels self npix !! i = Some (Aperture.model self (Z.of_nat i)).
Proof.
  intros Hi. unfold Aperture.center_pixels, np_arange.
  rewrite Nat2Z.id, !list_lookup_fmap, lookup_seq_lt by exact Hi. reflexivity.
Qed.

Lemma apmask_rows_lookup (self : Aperture.aperture) (npix slitlength : nat)
    (lo hi : Q) (i : nat) :
  (i < npix)%nat ->
  Aperture.apmask_rows self npix slitlength lo hi !! i
  = Some (let '(ix1, ix2) :=
            Aperture.row_limits slitlength
              (Aperture.model self (Z.of_nat i) + lo)
              (Aperture.model self (Z.of_nat i) + hi) in
          fill_slice (replicate slitlength false) ix1 ix2 true).
Proof.
  intros Hi. unfold Aperture.apmask_rows.
  rewrite list_lookup_fmap, center_pixels_lookup by exact Hi. reflexivity.
Qed.

Lemma apmask_rows_shape (self : Aperture.aperture) (npix slitlength : nat) lo hi :
  length (Aperture.apmask_rows self npix slitlength lo hi) = npix /\
  Forall (fun row => length row = slitlength)
         (Aperture.apmask_rows self npix slitlength lo hi).
Proof.
  unfold Aperture.apmask_rows, Aperture.center_pixels, np_arange. split.
  - rewrite !length_map, length_seq. lia.
  - apply List.Forall_forall. intros row Hrow.
    apply List.in_map_iff in Hrow as (c & <- & _).
    destruct (Aperture.row_limits _ _ _) as [ix1 ix2].
    rewrite fill_slice_length, length_replicate. reflexivity.
Qed.

(** A pixel of a row of [apmask] is set exactly when
    [ix1 <= j < ix2], the bounds being read as a slice reads them. *)
Lemma apmask_rows_marked (self : Aperture.aperture) (npix slitlength : nat)
    (lo hi : Q) (i j : nat) :
  (i < npix)%nat -> (j < slitlength)%nat ->
  marked (Aperture.apmask_rows self npix slitlength lo hi) i j
  = let '(ix1, ix2) :=
      Aperture.row_limits slitlength
        (Aperture.model self (Z.of_nat i) + lo)
        (Aperture.model self (Z.of_nat i) + hi) in
    (py_index slitlength ix1 <=? j)%nat
    && (j <? match ix2 with
             | Some s => py_index slitlength s
             | None => slitlength
             end)%nat.
Proof.
  intros Hi Hj. unfold marked.
  rewrite (nth_lookup_Some _ _ _ _ (apmask_rows_lookup self npix slitlength lo hi i Hi)).
  unfold Aperture.row_limits. cbv beta iota zeta.
  apply fill_slice_replicate. exact Hj.
Qed.



Lemma transpose_marked (ncols : nat) (rows : list (list bool)) (i j : nat) :
  (j < ncols)%nat -> (i < length rows)%nat ->
  marked (transpose false ncols rows) j i = marked rows i j.
Proof.
  intros Hj Hi. unfold marked, transpose.
  destruct (lookup_lt_is_Some_2 rows i Hi) as [row Hrow].
  rewrite (nth_lookup_Some _ _ _ (map (fun r => nth j r false) rows)).
  - rewrite (nth_lookup_Some _ _ _ (nth j row false)).
    + rewrite (nth_lookup_Some _ _ _ _ Hrow). reflexivity.
    + rewrite list_lookup_fmap, Hrow. reflexivity.
  - rewrite list_lookup_fmap, lookup_seq_lt by exact Hj. reflexivity.
Qed.

(** Indexing a pair, as [ext.shape[k]] does. *)
Lemma py_getitem_pair {A : Type} (a b : A) (k : Z) (x : A) :
  py_getitem [a; b] k = Ok x ->
  ((k = 0 \/ k = -2) /\ x = a) \/ ((k = 1 \/ k = -1) /\ x = b).
Proof.
  unfold py_getitem. change (Z.of_nat (length [a; b])) with 2.
  set (k' := if k <? 0 then k + 2 else k).
  assert (Hk : (k' = k + 2 /\ k < 0) \/ (k' = k /\ 0 <= k))
    by (unfold k'; destruct (Z.ltb_spec k 0); lia).
  destruct (Z.ltb_spec k' 0); [discriminate|].
  destruct (Z.to_nat k') as [|[|n]] eqn:E; simpl; intros [= <-].
  - left. split; [lia | reflexivity].
  - right. split; [lia | reflexivity].
Qed.

(** What a successful look-up of both [shape[dispaxis]] and
    [shape[1 - dispaxis]] says about the descriptor. *)
Lemma shape_lookup (shape : nat * nat) (dispersion_axis : Z) (npix slitlength : nat) :
  py_getitem [fst shape; snd shape] (2 - dispersion_axis) = Ok npix ->
  py_getitem [fst shape; snd shape] (1 - (2 - dispersion_axis)) = Ok slitlength ->
  (dispersion_axis = 2 /\ shape = (npix, slitlength)) \/
  (dispersion_axis = 1 /\ shape = (slitlength, npix)).
Proof.
  destruct shape as [a b]. cbn [fst snd].
  intros H1%py_getitem_pair H2%py_getitem_pair.
  destruct H1 as [[Hk ->]|[Hk ->]], H2 as [[Hk' ->]|[Hk' ->]];
    try lia; [left | right]; (split; [lia | reflexivity]).
Qed.

Lemma py_int_compat (q q' : Q) : (q == q')%Q -> py_int q = py_int q'.
Proof.
  intros Heq.
  destruct (Qlt_le_dec q 0) as [Hneg|Hpos].
  - destruct (proj2 (py_int_trunc q) ltac:(lra)) as (Hz & H1 & H2).
    destruct (proj2 (py_int_trunc q') ltac:(lra)) as (Hz' & H1' & H2').
    assert (A : (inject_Z (py_int q - 1) < inject_Z (py_int q'))%Q) by lra.
    assert (B : (inject_Z (py_int q' - 1) < inject_Z (py_int q))%Q) by lra.
    rewrite <- Zlt_Qlt in A, B. lia.
  - destruct (proj1 (py_int_trunc q) Hpos) as (Hz & H1 & H2).
    destruct (proj1 (py_int_trunc q') ltac:(lra)) as (Hz' & H1' & H2').
    assert (A : (inject_Z (py_int q) < inject_Z (py_int q' + 1))%Q) by lra.
    assert (B : (inject_Z (py_int q') < inject_Z (py_int q + 1))%Q) by lra.
    rewrite <- Zlt_Qlt in A, B. lia.
Qed.

Section ApertureMaskFacts.

Variable self : Aperture.aperture.
Variable shape : nat * nat.
Variable dispersion_axis : Z.
Variables width aper_lower aper_upper grow : option Q.

Let lower : Q :=
  (fst (Aperture.limits_of self width aper_lower aper_upper) - default 0 grow)%Q.
Let upper : Q :=
  (snd (Aperture.limits_of self width aper_lower aper_upper) + default 0 grow)%Q.

(** The mask is the array [apmask] of the limits in force, transposed when
    the dispersion runs along the second axis. *)
Lemma aperture_mask_rows mask :
  Aperture.aperture_mask self shape dispersion_axis width aper_lower aper_upper grow
    = Ok mask ->
  exists npix slitlength lo hi,
    (lo == lower)%Q /\ (hi == upper)%Q /\
    ((dispersion_axis = 2 /\ shape = (npix, slitlength) /\
      mask = Aperture.apmask_rows self npix slitlength lo hi) \/
     (dispersion_axis = 1 /\ shape = (slitlength, npix) /\
      mask = transpose false slitlength
               (Aperture.apmask_rows self npix slitlength lo hi))).
Proof.
  unfold Aperture.aperture_mask, lower, upper.
  destruct (Aperture.limits_of self width aper_lower aper_upper) as [lo0 hi0].
  cbn [fst snd].
  set (lims := match grow with
               | Some g => ((lo0 - g)%Q, (hi0 + g)%Q)
               | None => (lo0, hi0)
               end).
  assert (Hl : (fst lims == lo0 - default 0 grow)%Q /\
               (snd lims == hi0 + default 0 grow)%Q).
  { unfold lims. destruct grow as [g|]; simpl; split; lra. }
  destruct lims as [lo hi]. cbn [fst snd] in Hl. destruct Hl as [Hlo Hhi].
  cbv zeta.
  destruct (py_getitem _ (2 - dispersion_axis)) as [npix|e|] eqn:H1;
    cbn [mbind result_bind]; [|discriminate..].
  destruct (py_getitem _ (1 - (2 - dispersion_axis))) as [slitlength|e|] eqn:H2;
    cbn [mbind result_bind]; [|discriminate..].
  intros [= <-]. exists npix, slitlength, lo, hi.
  split; [exact Hlo|]. split; [exact Hhi|].
  destruct (shape_lookup shape dispersion_axis npix slitlength H1 H2)
    as [[-> ->]|[-> ->]]; [left | right]; repeat split; reflexivity.
Qed.

End ApertureMaskFacts.



(** One row of the mask when the whole aperture lies more than two and a
    half pixels below the first pixel of the slit: the stop of the slice is
    negative and counts from the end of the row. *)
Lemma row_limits_wrap (slitlength j : nat) (x1 x2 : Q) :
  (j < slitlength)%nat -> (x1 < - (1 # 2))%Q -> (x2 <= - (5 # 2))%Q ->
  py_int (x2 + (3 # 2)) <= -1 /\
  ((let '(ix1, ix2) := Aperture.row_limits slitlength x1 x2 in
    (py_index slitlength ix1 <=? j)%nat
    && (j <? match ix2 with
             | Some s => py_index slitlength s
             | None => slitlength
             end)%nat) = true
   <-> Z.of_nat j < Z.of_nat slitlength + py_int (x2 + (3 # 2))).
Proof.
  intros Hj Hx1 Hx2.
  assert (Hk : py_int (x2 + (3 # 2)) <= -1).
  { destruct (proj2 (py_int_trunc (x2 + (3 # 2))%Q) ltac:(lra)) as (Hz & H1 & _).
    assert (A : (inject_Z (py_int (x2 + (3 # 2)) - 1) < inject_Z (-1))%Q).
    { eapply Qlt_le_trans; [exact H1|]. change (inject_Z (-1)) with (- (1))%Q. lra. }
    rewrite <- Zlt_Qlt in A. lia. }
  split; [exact Hk|].
  unfold Aperture.row_limits.
  apply Qltb_lt in Hx1. rewrite Hx1.
  assert (Hn : (0 <= inject_Z (Z.of_nat slitlength))%Q)
    by (rewrite <- (Zle_Qle 0); lia).
  destruct (Qle_bool _ x2) eqn:E; [apply Qle_bool_iff in E; lra|].
  rewrite andb_true_iff, Nat.leb_le, Nat.ltb_lt.
  unfold py_index. change (0 <? 0) with false. cbv iota.
  destruct (Z.ltb_spec (py_int (x2 + (3 # 2))) 0); [|lia].
  split; [intros [_ A] | intros A; split]; lia.
Qed.

(** X3: where the whole aperture lies below the array, with its upper
    edge [x2] at [-2.5] or less, the stop [int(x2 + 1.5)] of the slice is
    negative and is counted from the far end of the slit: the mask marks the
    first [slitlength + int(x2 + 1.5)] pixels of the slit there, although
    none of them overlaps the aperture. *)
Theorem aperture_mask_wraps_below_the_array
    (self : Aperture.aperture) (shape : nat * nat) (dispersion_axis : Z)
    (width aper_lower aper_upper grow : option Q) (mask : list (list bool)) :
  Aperture.aperture_mask self shape dispersion_axis width aper_lower aper_upper grow
    = Ok mask ->
  let lower :=
    (fst (Aperture.limits_of self width aper_lower aper_upper) - default 0 grow)%Q in
  let upper :=
    (snd (Aperture.limits_of self width aper_lower aper_upper) + default 0 grow)%Q in
  forall (npix slitlength i j : nat),
    (if dispersion_axis =? 2 then shape else (snd shape, fst shape))
      = (npix, slitlength) ->
    (i < npix)%nat -> (j < slitlength)%nat ->
    let x1 := (Aperture.model self (Z.of_nat i) + lower)%Q in
    let x2 := (Aperture.model self (Z.of_nat i) + upper)%Q in
    (x1 < - (1 # 2))%Q -> (x2 <= - (5 # 2))%Q ->
    py_int (x2 + (3 # 2)) <= -1 /\
    (aperture_pixel dispersion_axis mask i j = true
     <-> Z.of_nat j < Z.of_nat slitlength + py_int (x2 + (3 # 2))).
Proof.
  intros Hmask lower upper.
  destruct (aperture_mask_rows _ _ _ _ _ _ _ _ Hmask)
    as (npix & slitlength & lo & hi & Hlo & Hhi & Hcase).
  fold lower in Hlo. fold upper in Hhi.
  pose proof (apmask_rows_shape self npix slitlength lo hi) as [Hlen Hrows].
  assert (Hrow : forall i j, (i < npix)%nat -> (j < slitlength)%nat ->
            (Aperture.model self (Z.of_nat i) + lower < - (1 # 2))%Q ->
            (Aperture.model self (Z.of_nat i) + upper <= - (5 # 2))%Q ->
            py_int (Aperture.model self (Z.of_nat i) + upper + (3 # 2)) <= -1 /\
            (marked (Aperture.apmask_rows self npix slitlength lo hi) i j = true
             <-> Z.of_nat j < Z.of_nat slitlength
                   + py_int (Aperture.model self (Z.of_nat i) + upper + (3 # 2)))).
  { intros i j Hi Hj Hx1 Hx2.
    rewrite apmask_rows_marked by assumption.
    rewrite (py_int_compat (Aperture.model self (Z.of_nat i) + upper + (3 # 2))
               (Aperture.model self (Z.of_nat i) + hi + (3 # 2))) by lra.
    apply row_limits_wrap; [exact Hj | lra | lra]. }
  destruct Hcase as [(-> & -> & ->)|(-> & -> & ->)]; cbn [fst snd];
    intros npix' slitlength' i j Heq; simpl in Heq; injection Heq as <- <-;
    intros Hi Hj Hx1 Hx2; unfold aperture_pixel.
  - change (2 =? 2) with true. cbv iota. apply Hrow; assumption.
  - change (1 =? 2) with false. cbv iota.
    rewrite transpose_marked by (try assumption; rewrite Hlen; exact Hi).
    apply Hrow; assumption.
Qed.

Lemma aperture_mask_wraps_below_the_array_witness :
  let self := Aperture.Build (fun _ => (- (6))%Q) (- (2)) 2 None in
  exists mask,
    Aperture.aperture_mask self (3, 10)%nat 2 None None None None = Ok mask /\
    aperture_pixel 2 mask 1 6 = true /\
    aperture_pixel 2 mask 1 8 = false.
Proof.
  intros self.
  exists (Aperture.apmask_rows self 3 10 (- (2)) 2).
  assert (Hmask : Aperture.aperture_mask self (3, 10)%nat 2 None None None None
                  = Ok (Aperture.apmask_rows self 3 10 (- (2)) 2))
    by reflexivity.
  split; [exact Hmask|].
  pose proof (aperture_mask_wraps_below_the_array
                self (3, 10)%nat 2 None None None None _ Hmask) as Hpix.
  split.
  - apply (Hpix 3 10 1 6 eq_refl)%nat;
      [lia | lia | reflexivity | vm_compute; discriminate | vm_compute; reflexivity].
  - destruct (aperture_pixel 2 _ 1 8) eqn:E; [|reflexivity].
    apply (Hpix 3 10 1 8 eq_refl)%nat in E;
      [|lia | lia | reflexivity | vm_compute; discriminate].
    exfalso. revert E. vm_compute. discriminate.
Defined.

(** ** The strip of the optimal extraction *)







(** ** Properties of [average_along_slit] *)

(** X5: with neither [center] nor [nsum] given, the slice that
    [average_along_slit] collapses is the whole axis, [0:npix]. *)
Theorem average_along_slit_defaults_to_whole_axis
    (collapsed : Type) (mean_of_section : bool -> Z * Z -> collapsed)
    (shape : list Z) (dispersion_axis npix : Z) :
  py_getitem shape (1 - dispersion_axis) = Ok npix -> 0 <= npix ->
  AverageAlongSlit.average_along_slit collapsed mean_of_section
    shape None None dispersion_axis
  = Ok (mean_of_section (dispersion_axis =? 0) (0, npix), (0, npix)).
Proof.
  intros Hshape Hn. unfold AverageAlongSlit.average_along_slit.
  rewrite Hshape. cbn [mbind result_bind].
  assert (Hs : AverageAlongSlit.extract_slice npix None None = (0, npix)).
  { unfold AverageAlongSlit.extract_slice. cbn [default].
    rewrite (py_int_compat _ (1 # 2)) by lra.
    change (py_int (1 # 2)) with 0.
    rewrite (py_int_floor _ npix).
    - rewrite Z.min_id. reflexivity.
    - rewrite inject_Z_plus. change (inject_Z 1) with 1%Q. split; lra.
    - exact Hn. }
  rewrite Hs. reflexivity.
Qed.

Lemma average_along_slit_defaults_to_whole_axis_witness :
  AverageAlongSlit.average_along_slit (Z * Z) (fun _ section => section)
    [80; 6] None None 1
  = Ok ((0, 80), (0, 80)).
Proof.
  apply (average_along_slit_defaults_to_whole_axis (Z * Z) (fun _ section => section)
           [80; 6] 1 80); [reflexivity | lia].
Defined.

(** X6: a window of [nsum] rows around [center] that lies inside the
    axis is cut out in full: the slice starts at
    [int(center + 1 - nsum / 2)], stays inside [0:npix] and holds exactly
    [nsum] rows. *)
Theorem average_along_slit_window_has_nsum_rows (npix : Z) (center : Q) (nsum : Z) :
  0 <= nsum ->
  (0 <= center + 1 - (1 # 2) * inject_Z nsum)%Q ->
  (center + 1 + (1 # 2) * inject_Z nsum < inject_Z npix + 1)%Q ->
  let bounds := AverageAlongSlit.extract_slice npix (Some center) (Some nsum) in
  fst bounds = py_int (center + 1 - (1 # 2) * inject_Z nsum) /\
  0 <= fst bounds /\ snd bounds <= npix /\
  snd bounds - fst bounds = nsum.
Proof.
  intros Hn Hlo Hhi bounds.
  unfold bounds, AverageAlongSlit.extract_slice. cbn [default fst snd]. unfold id.
  set (a := (center + 1 - (1 # 2) * inject_Z nsum)%Q) in *.
  destruct (proj1 (py_int_trunc a) Hlo) as (Hz & H1 & H2).
  assert (Hb : py_int (center + 1 + (1 # 2) * inject_Z nsum) = py_int a + nsum).
  { apply py_int_floor; [|lia].
    rewrite !inject_Z_plus in *. change (inject_Z 1) with 1%Q in *.
    unfold a in *. split; lra. }
  rewrite Hb.
  assert (Hle : py_int a + nsum <= npix).
  { assert (A : (inject_Z (py_int a + nsum) < inject_Z (npix + 1))%Q).
    { rewrite !inject_Z_plus. change (inject_Z 1) with 1%Q.
      unfold a in *. lra. }
    rewrite <- Zlt_Qlt in A. lia. }
  lia.
Qed.

Lemma average_along_slit_window_has_nsum_rows_witness :
  AverageAlongSlit.extract_slice 80 (Some 30%Q) (Some 10) = (26, 36) /\
  36 - 26 = 10.
Proof.
  split; [reflexivity|].
  apply (average_along_slit_window_has_nsum_rows 80 30 10);
    [lia | vm_compute; discriminate | reflexivity].
Defined.

(** ** More on [estimate_peak_width] *)

Section PeakWidthMore.

Variable peak_widths : list Q -> Z -> Q.

(** What the loop test and the body keep true of the widths collected. *)
Let collected (s : PeakWidth.wstate) : Prop :=
  (length (PeakWidth.widths s) <= 10)%nat /\
  Forall (fun w => 0 < w)%Q (PeakWidth.widths s) /\
  PeakWidth.niters s <= 100.

Lemma width_step_collected data s s' :
  collected s ->
  (length (PeakWidth.widths s) < 10)%nat -> PeakWidth.niters s < 100 ->
  PeakWidth.width_step peak_widths data s = Ok s' ->
  collected s' /\ length (PeakWidth.goodpix s') = length (PeakWidth.goodpix s).
Proof.
  intros (Hlen & Hpos & Hn) Hlt Hnlt. unfold PeakWidth.width_step.
  destruct (np_argmax _) as [index|e|]; cbn [mbind result_bind]; [|discriminate..].
  intros [= <-]. unfold collected. cbn [PeakWidth.widths PeakWidth.niters PeakWidth.goodpix].
  split.
  - destruct (forallb id _ && Qltb 0 _) eqn:E.
    + apply andb_true_iff in E as [_ E]. apply Qltb_lt in E.
      rewrite length_app. simpl. split; [lia|]. split; [|lia].
      apply Forall_app. split; [exact Hpos|]. constructor; [exact E | constructor].
    + split; [lia|]. split; [exact Hpos | lia].
  - unfold PeakWidth.clear_slice. apply length_imap.
Qed.

Lemma width_loop_collected fuel data s s' :
  collected s ->
  PeakWidth.width_loop peak_widths fuel data s = Ok s' ->
  collected s' /\
  (length (PeakWidth.widths s') = 10%nat \/ PeakWidth.niters s' = 100) /\
  length (PeakWidth.goodpix s') = length (PeakWidth.goodpix s).
Proof.
  revert s; induction fuel as [|fuel IH]; intros s Hs; simpl;
    destruct (Nat.ltb_spec (length (PeakWidth.widths s)) 10);
    destruct (Z.ltb_spec (PeakWidth.niters s) 100); cbn [andb];
    try discriminate;
    try (intros [= <-]; split; [exact Hs|]; split; [|reflexivity];
         destruct Hs as (? & ? & ?); lia).
  destruct (PeakWidth.width_step peak_widths data s) as [s1|e|] eqn:Hstep;
    cbn [mbind result_bind]; [|discriminate..].
  intros Hloop.
  destruct (width_step_collected data s s1 Hs ltac:(assumption) ltac:(assumption) Hstep)
    as [Hs1 Hg1].
  destruct (IH s1 Hs1 Hloop) as (Hs' & Hend & Hg).
  split; [exact Hs'|]. split; [exact Hend|]. congruence.
Qed.

End PeakWidthMore.

(** X7: the loop of [estimate_peak_width], started as the function starts
    it, hands at most ten widths to the final sigma-clipped mean, every one
    of them positive; it stops with ten widths or after a hundred passes,
    and the array [goodpix] keeps its length. *)
Theorem estimate_peak_width_collects_positive_widths
    (peak_widths : list Q -> Z -> Q) (data : list Q) (goodpix : list bool)
    (s : PeakWidth.wstate) :
  PeakWidth.width_loop peak_widths 100 data (PeakWidth.WState [] goodpix 0) = Ok s ->
  (length (PeakWidth.widths s) <= 10)%nat /\
  Forall (fun w => 0 < w)%Q (PeakWidth.widths s) /\
  (length (PeakWidth.widths s) = 10%nat \/ PeakWidth.niters s = 100) /\
  length (PeakWidth.goodpix s) = length goodpix.
Proof.
  intros Hloop.
  destruct (width_loop_collected peak_widths 100 data
              (PeakWidth.WState [] goodpix 0) s) as ((H1 & H2 & _) & H3 & H4);
    [|exact Hloop|].
  - simpl. split; [lia|]. split; [constructor | lia].
  - repeat split; assumption.
Qed.

Lemma estimate_peak_width_collects_positive_widths_witness :
  let peak_widths := fun (_ : list Q) (index : Z) => (if index =? 1 then 1 else 0)%Q in
  let s := PeakWidth.WState [1%Q] [false; false; false; true; true] 100 in
  PeakWidth.width_loop peak_widths 100 [1; 5; 2; 0; 0]%Q
    (PeakWidth.WState [] [true; true; true; true; true] 0) = Ok s /\
  (length (PeakWidth.widths s) <= 10)%nat /\
  Forall (fun w => 0 < w)%Q (PeakWidth.widths s) /\
  (length (PeakWidth.widths s) = 10%nat \/ PeakWidth.niters s = 100) /\
  length (PeakWidth.goodpix s) = 5%nat.
Proof.
  intros peak_widths s.
  assert (H : PeakWidth.width_loop peak_widths 100 [1; 5; 2; 0; 0]%Q
                (PeakWidth.WState [] [true; true; true; true; true] 0) = Ok s)
    by (vm_compute; reflexivity).
  split; [exact H|].
  exact (estimate_peak_width_collects_positive_widths peak_widths _ _ s H).
Defined.

(** X8: on an empty array of data [estimate_peak_width] raises
    [ValueError] ([np.argmax] of an empty sequence), whatever the mask. *)
Theorem estimate_peak_width_empty_data_raises
    (peak_widths : list Q -> Z -> Q) (boxcar : list Q -> Q -> list Q)
    (sigma_clip_mean : list Q -> Q) (mask : option (list bool)) :
  PeakWidth.estimate_peak_width peak_widths boxcar sigma_clip_mean [] mask None
  = Raise ValueError.
Proof. destruct mask as [[|m mask]|]; reflexivity. Qed.

(** ** More on [pinpoint_peaks] *)

Lemma mask_data_same_length (data : list Q) (mask : list bool) (thr : Q) :
  length mask = length data ->
  Pinpoint.mask_data data (Some mask) thr
  = Ok (zip_with (fun (b : bool) d => if b then 0%Q else d)
          (zip_with orb mask (map (fun d => Qltb d thr) data))
          (map (fun d => d - thr)%Q data)).
Proof.
  intros Hlen. unfold Pinpoint.mask_data.
  rewrite broadcast2_same_length by (rewrite length_map; exact Hlen).
  cbn [mbind result_bind].
  rewrite broadcast2_same_length; [reflexivity|].
  rewrite length_zip_with_l_eq by (rewrite length_map; exact Hlen).
  rewrite length_map. exact Hlen.
Qed.

(** The entry of [masked_data] for a pixel. *)
Lemma mask_data_lookup (data : list Q) (mask : list bool) (thr : Q) md i d m :
  Pinpoint.mask_data data (Some mask) thr = Ok md ->
  length mask = length data ->
  data !! i = Some d -> mask !! i = Some m ->
  md !! i = Some (if m || Qltb d thr then 0 else d - thr)%Q.
Proof.
  intros Hmd Hlen Hd Hm.
  rewrite mask_data_same_length in Hmd by exact Hlen.
  injection Hmd as <-.
  rewrite !lookup_zip_with, Hm, !list_lookup_fmap, Hd. reflexivity.
Qed.

(** With nothing left above the threshold outside the mask,
    [pinpoint_peaks] returns at once. *)
Lemma pinpoint_peaks_dead spline (data : list Q) (mask : list bool) peaks hw thr :
  Forall2 (fun d (m : bool) => m = true \/ (d <= thr)%Q) data mask ->
  Pinpoint.pinpoint_peaks spline data (Some mask) peaks hw thr = Ok [].
Proof.
  intros Hdead. unfold Pinpoint.pinpoint_peaks.
  rewrite mask_data_same_length by (symmetry; eapply Forall2_length; exact Hdead).
  cbn [mbind result_bind].
  match goal with |- (if forallb ?f ?l then _ else _) = _ =>
    assert (Hall : forallb f l = true) end.
  { induction Hdead as [|d m data mask Hdm _ IH]; [reflexivity|].
    simpl. rewrite IH, andb_true_r.
    destruct m; [reflexivity|]. simpl.
    destruct (Qltb d thr) eqn:E; [reflexivity|].
    apply Qltb_ge in E. destruct Hdm as [Hm|Hd]; [discriminate|].
    apply Qeq_bool_iff. lra. }
  rewrite Hall. reflexivity.
Qed.

(** X9: when every pixel is masked or does not exceed the threshold,
    [pinpoint_peaks] returns the empty list for any list of peaks, without
    looking at them. *)
Theorem pinpoint_peaks_nothing_above_threshold
    (spline_integrate : list Q -> Q -> Q -> Q) (data : list Q) (mask : list bool)
    (peaks : list Q) (halfwidth : Z) (threshold : Q) :
  Forall2 (fun d (m : bool) => m = true \/ (d <= threshold)%Q) data mask ->
  Pinpoint.pinpoint_peaks spline_integrate data (Some mask) peaks halfwidth threshold
  = Ok [].
Proof. apply pinpoint_peaks_dead. Qed.

Lemma pinpoint_peaks_nothing_above_threshold_witness :
  Pinpoint.pinpoint_peaks CubicSpline.integrate [3; 0; 7]%Q
    (Some [true; false; true]) [100; 1]%Q 2 0%Q
  = Ok [].
Proof.
  apply (pinpoint_peaks_nothing_above_threshold CubicSpline.integrate).
  repeat constructor; discriminate.
Defined.

(** A traversal whose body only ever raises [ValueError] raises it as soon
    as one element does. *)
Lemma traverse_raises {A B : Type} (f : A -> result B) (l : list A) :
  (forall x, f x <> OutOfFuel) ->
  (forall x e, f x = Raise e -> e = ValueError) ->
  Exists (fun x => f x = Raise ValueError) l ->
  traverse f l = Raise ValueError.
Proof.
  intros Hfuel Hexn Hex. induction l as [|x l IH]; [inversion Hex|]. simpl.
  destruct (f x) as [y|e|] eqn:Hx; cbn [mbind result_bind].
  - inversion Hex as [? ? H|? ? H]; subst; [congruence|].
    rewrite (IH H). reflexivity.
  - rewrite (Hexn x e Hx). reflexivity.
  - exfalso. exact (Hfuel x Hx).
Qed.

Lemma py_slice_empty {A : Type} (l : list A) (start stop : Z) :
  Z.of_nat (length l) <= start -> 0 <= stop -> py_slice l start stop = [].
Proof.
  intros Hstart Hstop. unfold py_slice, py_index.
  destruct (Z.ltb_spec start 0); [lia|].
  destruct (Z.ltb_spec stop 0); [lia|].
  rewrite drop_ge by lia. apply take_nil.
Qed.

(** X10: [pinpoint_peaks] does not skip an approximate peak that lies more
    than a pixel beyond the end of the data: as long as some pixel is above
    the threshold and not masked, such a peak makes the function raise
    [ValueError] ([np.argmax] of an empty slice). *)
Theorem pinpoint_peaks_stray_peak_raises
    (spline_integrate : list Q -> Q -> Q -> Q) (data : list Q) (mask : list bool)
    (peaks : list Q) (halfwidth : Z) (threshold : Q) :
  length mask = length data ->
  (exists i d, data !! i = Some d /\ mask !! i = Some false /\ (threshold < d)%Q) ->
  Exists (fun peak => Z.of_nat (length data) < py_int (peak + (1 # 2))) peaks ->
  Pinpoint.pinpoint_peaks spline_integrate data (Some mask) peaks halfwidth threshold
  = Raise ValueError.
Proof.
  intros Hlen (i & d & Hd & Hm & Habove) Hstray.
  unfold Pinpoint.pinpoint_peaks.
  destruct (Pinpoint.mask_data data (Some mask) threshold) as [md|e|] eqn:Hmd;
    [|rewrite mask_data_same_length in Hmd by exact Hlen; discriminate..].
  cbn [mbind result_bind].
  assert (Hlive : forallb (fun d => Qeq_bool d 0) md = false).
  { apply not_true_is_false. intros Hall.
    rewrite forallb_forall in Hall.
    pose proof (mask_data_lookup data mask threshold md i d false Hmd Hlen Hd Hm) as Hi.
    assert (E : Qltb d threshold = false) by (apply Qltb_ge; lra).
    rewrite E in Hi. simpl in Hi.
    apply list_elem_of_lookup_2, list_elem_of_In, Hall in Hi.
    apply Qeq_bool_iff in Hi. lra. }
  rewrite Hlive.
  assert (Hnpts : length md = length data).
  { rewrite mask_data_same_length in Hmd by exact Hlen. injection Hmd as <-.
    rewrite !length_zip_with_l_eq; rewrite ?length_map; try lia.
    rewrite length_zip_with_l_eq by (rewrite length_map; lia). lia. }
  rewrite traverse_raises; [reflexivity| | |].
  - intros x. unfold Pinpoint.pinpoint_one.
    destruct (np_argmax _) as [am|e|] eqn:Ham; cbn [mbind result_bind];
      [|discriminate|].
    + cbv zeta. destruct (orb _ _); discriminate.
    + unfold np_argmax in Ham. destruct (py_slice _ _ _); discriminate.
  - intros x e. unfold Pinpoint.pinpoint_one, np_argmax.
    destruct (py_slice _ _ _); cbn [mbind result_bind].
    + intros [= <-]. reflexivity.
    + cbv zeta. destruct (orb _ _); discriminate.
  - eapply Exists_impl; [exact Hstray|]. intros peak Hpeak. cbv beta in Hpeak.
    unfold Pinpoint.pinpoint_one.
    rewrite py_slice_empty by lia. reflexivity.
Qed.

Lemma pinpoint_peaks_stray_peak_raises_witness :
  Pinpoint.pinpoint_peaks CubicSpline.integrate PinpointRun.data
    (Some PinpointRun.mask) [3; 7]%Q 2 0%Q
  = Raise ValueError.
Proof.
  apply (pinpoint_peaks_stray_peak_raises CubicSpline.integrate).
  - reflexivity.
  - exists 0%nat, 1%Q. repeat split.
  - apply Exists_cons_tl, Exists_cons_hd. reflexivity.
Defined.

(** ** More on [reject_bad_peaks] *)






(** ** More on [cwt_ricker] *)



Lemma wavelet_length_narrow (w : Q) (n : nat) :
  (w < 1 # 5)%Q \/ (n <= 1)%nat -> Ricker.wavelet_length w n <= 0.
Proof.
  intros H. unfold Ricker.wavelet_length.
  set (q := Qmin (10 * w) (inject_Z (Z.of_nat n))).
  assert (Hq : (q < 2)%Q).
  { destruct H as [Hw|Hn].
    - eapply Qle_lt_trans; [apply Q.le_min_l|]. lra.
    - eapply Qle_lt_trans; [apply Q.le_min_r|].
      change 2%Q with (inject_Z 2). rewrite <- Zlt_Qlt. lia. }
  assert (Hp : py_int q <= 1).
  { destruct (Qlt_le_dec q 0) as [Hneg|Hpos].
    - destruct (proj2 (py_int_trunc q) ltac:(lra)) as (Hz & _). lia.
    - destruct (proj1 (py_int_trunc q) Hpos) as (_ & H1 & _).
      assert (A : (inject_Z (py_int q) < inject_Z 2)%Q)
        by (eapply Qle_lt_trans; [exact H1 | exact Hq]).
      rewrite <- Zlt_Qlt in A. lia. }
  assert (py_int q / 2 < 1) by (apply Z.div_lt_upper_bound; lia).
  lia.
Qed.

Lemma cwt_row_only_value_error amp ex data w :
  Ricker.cwt_row amp ex data w <> OutOfFuel /\
  forall e, Ricker.cwt_row amp ex data w = Raise e -> e = ValueError.
Proof.
  unfold Ricker.cwt_row, np_convolve_same, assign_row.
  destruct (_ <? _)%nat;
    repeat (destruct (_ =? _)%nat; cbn [mbind result_bind]);
    split; try discriminate; intros e [= <-]; reflexivity.
Qed.

Lemma widths_wide_or_narrow (widths : list Q) :
  Forall (fun w => 1 # 5 <= w)%Q widths \/ Exists (fun w => w < 1 # 5)%Q widths.
Proof.
  induction widths as [|w ws [IH|IH]].
  - left. constructor.
  - destruct (Qlt_le_dec w (1 # 5)) as [Hw|Hw].
    + right. apply Exists_cons_hd. exact Hw.
    + left. constructor; assumption.
  - right. apply Exists_cons_tl. exact IH.
Qed.

(** X14: [cwt_ricker] with at least one width returns exactly when the
    data have two samples or more and every width is at least [0.2];
    otherwise it raises [ValueError], because the kernel is empty. *)
Theorem cwt_ricker_returns_iff
    (ricker_amp np_exp : Q -> Q) (data widths : list Q) :
  widths <> [] ->
  ((exists out, Ricker.cwt_ricker ricker_amp np_exp data widths = Ok out)
   <-> (2 <= length data)%nat /\ Forall (fun w => 1 # 5 <= w)%Q widths) /\
  (~ ((2 <= length data)%nat /\ Forall (fun w => 1 # 5 <= w)%Q widths) ->
   Ricker.cwt_ricker ricker_amp np_exp data widths = Raise ValueError).
Proof.
  intros Hne.
  assert (Hcases : ((2 <= length data)%nat /\ Forall (fun w => 1 # 5 <= w)%Q widths)
                   \/ Ricker.cwt_ricker ricker_amp np_exp data widths = Raise ValueError).
  { destruct (Nat.le_gt_cases 2 (length data)) as [Hn|Hn];
      [destruct (widths_wide_or_narrow widths) as [Hall|Hex]; [left; tauto|]|];
      right; unfold Ricker.cwt_ricker; apply traverse_raises;
      try (intros w; apply cwt_row_only_value_error).
    - eapply Exists_impl; [exact Hex|]. intros w Hw. cbv beta in Hw.
      apply cwt_row_empty_kernel, wavelet_length_narrow. left. exact Hw.
    - destruct widths as [|w ws]; [congruence|].
      apply Exists_cons_hd.
      apply cwt_row_empty_kernel, wavelet_length_narrow. right. lia. }
  split; [split|].
  - intros [out Hout]. destruct Hcases as [H|H]; [exact H | congruence].
  - intros [Hn Hall]. apply cwt_ricker_returns; assumption.
  - intros Hnot. destruct Hcases as [H|H]; [tauto | exact H].
Qed.

Lemma cwt_ricker_returns_iff_witness :
  let amp := fun a : Q => (1 / a)%Q in
  let ex := fun x : Q => (1 / (1 - x))%Q in
  (exists out, Ricker.cwt_ricker amp ex [0; 1; 4; 1]%Q [1; 2]%Q = Ok out) /\
  Ricker.cwt_ricker amp ex [0; 1; 4; 1]%Q [1; 1 # 10]%Q = Raise ValueError.
Proof.
  intros amp ex. split.
  - apply (cwt_ricker_returns_iff amp ex [0; 1; 4; 1]%Q [1; 2]%Q); [discriminate|].
    split; [simpl; lia|]. repeat constructor; discriminate.
  - apply (cwt_ricker_returns_iff amp ex [0; 1; 4; 1]%Q [1; 1 # 10]%Q); [discriminate|].
    intros [_ H]. inversion H as [|? ? _ H']. inversion H' as [|? ? Hw _].
    apply Hw. reflexivity.
Defined.

(** ** The merging of adjacent candidates in [find_peaks] *)

Lemma np_mean_single (z : Z) : np_mean [inject_Z z] = inject_Z z.
Proof.
  unfold np_mean, Qsum, Qdiv, Qmult, Qplus, Qinv, inject_Z. simpl.
  f_equal. lia.
Qed.

Lemma remove_adjacent_loop_unfold fuel peaks i new_peaks :
  FindPeaks.remove_adjacent_loop (S fuel) peaks i new_peaks
  = if (i <? length peaks)%nat then
      let j := FindPeaks.scan_run (nth i peaks 0) (drop (S i) peaks) (S i) in
      let new_peaks :=
        new_peaks ++ [np_mean (map inject_Z (take (j - i) (drop i peaks)))] in
      let new_peaks :=
        if Z.of_nat j =? Z.of_nat (length peaks) - 1
        then new_peaks ++ [inject_Z (nth j peaks 0)]
        else new_peaks in
      FindPeaks.remove_adjacent_loop fuel peaks j new_peaks
    else Ok new_peaks.
Proof. reflexivity. Qed.

Section RemoveAdjacent.

Variable peaks : list Z.

(** No two successive candidates are adjacent pixels. *)
Hypothesis isolated :
  forall k x y, peaks !! k = Some x -> peaks !! S k = Some y -> 1 < y - x.

Lemma scan_run_isolated i :
  (i < length peaks)%nat ->
  FindPeaks.scan_run (nth i peaks 0) (drop (S i) peaks) (S i) = S i.
Proof.
  intros Hi. destruct (drop (S i) peaks) as [|y rest] eqn:Hd; [reflexivity|].
  simpl.
  destruct (lookup_lt_is_Some_2 peaks i Hi) as [x Hx].
  assert (Hy : peaks !! S i = Some y).
  { rewrite <- (Nat.add_0_r (S i)), <- lookup_drop, Hd. reflexivity. }
  rewrite (nth_lookup_Some _ _ _ _ Hx).
  pose proof (isolated i x y Hx Hy).
  destruct (Z.leb_spec (y - x) 1); [lia | reflexivity].
Qed.

Lemma run_mean_isolated i :
  (i < length peaks)%nat ->
  np_mean (map inject_Z (take (S i - i) (drop i peaks))) = inject_Z (nth i peaks 0).
Proof.
  intros Hi. replace (S i - i)%nat with 1%nat by lia.
  destruct (lookup_lt_is_Some_2 peaks i Hi) as [x Hx].
  rewrite (nth_lookup_Some _ _ _ _ Hx).
  rewrite (drop_S _ _ _ Hx). simpl. apply np_mean_single.
Qed.

(** From the last candidate, the loop adds it once. *)
Lemma remove_adjacent_loop_last fuel acc :
  (0 < length peaks)%nat ->
  FindPeaks.remove_adjacent_loop (S fuel) peaks (length peaks - 1) acc
  = Ok (acc ++ [inject_Z (nth (length peaks - 1) peaks 0)]).
Proof.
  intros Hn. rewrite remove_adjacent_loop_unfold. cbv zeta.
  destruct (Nat.ltb_spec (length peaks - 1) (length peaks)); [|lia].
  rewrite scan_run_isolated, run_mean_isolated by lia.
  destruct (Z.eqb_spec (Z.of_nat (S (length peaks - 1))) (Z.of_nat (length peaks) - 1));
    [lia|].
  destruct fuel; cbn [FindPeaks.remove_adjacent_loop];
    (destruct (Nat.ltb_spec (S (length peaks - 1)) (length peaks)); [lia|]);
    reflexivity.
Qed.

(** From an earlier candidate, the loop adds every candidate from there
    on, and the last one once more. *)
Lemma remove_adjacent_loop_isolated fuel i acc :
  (i + 2 <= length peaks)%nat -> (length peaks - i <= fuel)%nat ->
  FindPeaks.remove_adjacent_loop fuel peaks i acc
  = Ok (acc ++ map inject_Z (drop i peaks)
            ++ [inject_Z (nth (length peaks - 1) peaks 0)]).
Proof.
  revert i acc; induction fuel as [|fuel IH]; intros i acc Hi Hfuel; [lia|].
  rewrite remove_adjacent_loop_unfold. cbv zeta.
  destruct (Nat.ltb_spec i (length peaks)); [|lia].
  rewrite scan_run_isolated, run_mean_isolated by lia.
  destruct (lookup_lt_is_Some_2 peaks i ltac:(lia)) as [x Hx].
  rewrite (drop_S _ _ _ Hx), (nth_lookup_Some _ _ _ _ Hx).
  destruct (Z.eqb_spec (Z.of_nat (S i)) (Z.of_nat (length peaks) - 1)) as [Hlast|Hmore].
  - assert (Hi' : S i = (length peaks - 1)%nat) by lia.
    rewrite Hi'. destruct fuel as [|fuel]; [lia|].
    rewrite remove_adjacent_loop_last by lia.
    destruct (lookup_lt_is_Some_2 peaks (length peaks - 1) ltac:(lia)) as [y Hy].
    rewrite (drop_S _ _ _ Hy), (nth_lookup_Some _ _ _ _ Hy).
    rewrite drop_ge by lia. cbn [map app].
    rewrite <- !app_assoc. reflexivity.
  - rewrite IH by lia. cbn [map app]. rewrite <- !app_assoc. reflexivity.
Qed.

End RemoveAdjacent.

(** X15: when no two successive candidates of [find_peaks] are adjacent
    pixels, the step that merges adjacent points keeps every candidate, and
    with two candidates or more it adds the last one a second time (the test
    [i == len(peaks) - 1] and the next turn of the loop both append it). *)
Theorem remove_adjacent_repeats_last_candidate (front : list Z) (a b : Z) :
  (forall k x y,
     (front ++ [a; b]) !! k = Some x -> (front ++ [a; b]) !! S k = Some y ->
     1 < y - x) ->
  FindPeaks.remove_adjacent (front ++ [a; b])
  = Ok (map inject_Z (front ++ [a; b; b])).
Proof.
  intros Hiso. unfold FindPeaks.remove_adjacent.
  rewrite remove_adjacent_loop_isolated;
    [|exact Hiso | rewrite length_app; simpl; lia | lia].
  simpl. rewrite drop_0. f_equal.
  rewrite !map_app. simpl. rewrite <- app_assoc. simpl. do 4 f_equal.
  rewrite length_app. simpl.
  replace (length front + 2 - 1)%nat with (S (length front)) by lia.
  f_equal. apply nth_lookup_Some with (d := 0).
  rewrite lookup_app_r by lia.
  replace (S (length front) - length front)%nat with 1%nat by lia. reflexivity.
Qed.

Lemma remove_adjacent_repeats_last_candidate_witness :
  FindPeaks.remove_adjacent [3; 10; 20] = Ok [3; 10; 20; 20]%Q.
Proof.
  apply (remove_adjacent_repeats_last_candidate [3] 10 20).
  intros [|[|[|k]]] x y; simpl; try discriminate; intros [= <-] [= <-]; lia.
Defined.

(** ** Properties of [get_limits], [peak_limit] and [integral_limit] *)

Lemma traverse_ext {A B : Type} (f g : A -> result B) (l : list A) :
  (forall x, f x = g x) -> traverse f l = traverse g l.
Proof.
  intros Hfg. induction l as [|x l IH]; [reflexivity|].
  simpl. rewrite Hfg, IH. reflexivity.
Qed.

Lemma traverse_Ok_Forall2 {A B : Type} (f : A -> result B) (R : A -> B -> Prop) l out :
  (forall x y, In x l -> f x = Ok y -> R x y) ->
  traverse f l = Ok out -> Forall2 R l out.
Proof.
  revert out; induction l as [|x l IH]; intros out HR; simpl.
  - intros [= <-]; constructor.
  - destruct (f x) as [y|e|] eqn:Hx; simpl; [|discriminate..].
    destruct (traverse f l) as [ys|e|]; simpl; [|discriminate..].
    intros [= <-]; constructor.
    + apply HR; simpl; auto.
    + apply IH; auto. intros; apply HR; simpl; auto.
Qed.

(** Where [List.find] stops. *)
Lemma find_split {A : Type} (f : A -> bool) (l : list A) :
  match List.find f l with
  | Some x => exists l1 l2, l = l1 ++ x :: l2 /\ f x = true
                            /\ Forall (fun y => f y = false) l1
  | None => Forall (fun y => f y = false) l
  end.
Proof.
  induction l as [|y l IH]; simpl; [constructor|].
  destruct (f y) eqn:Hy.
  - exists [], l. repeat split; [exact Hy | constructor].
  - destruct (List.find f l) as [x|].
    + destruct IH as (l1 & l2 & -> & Hx & Hl1).
      exists (y :: l1), l2. repeat split; [exact Hx|]. constructor; assumption.
    + constructor; assumption.
Qed.

Lemma StronglySorted_middle (l1 l2 : list Q) (x : Q) :
  StronglySorted Qle (l1 ++ x :: l2) ->
  Forall (fun m => m <= x)%Q l1 /\ Forall (fun m => x <= m)%Q l2.
Proof.
  induction l1 as [|y l1 IH]; simpl; intros Hs.
  - apply StronglySorted_inv in Hs as [_ H]. split; [constructor | exact H].
  - apply StronglySorted_inv in Hs as [Hs Hy].
    destruct (IH Hs) as [H1 H2]. split; [|exact H2].
    constructor; [|exact H1].
    rewrite List.Forall_forall in Hy. apply Hy, in_elt.
Qed.

Lemma Sorted_Qle_strong (l : list Q) : Sorted Qle l -> StronglySorted Qle l.
Proof.
  apply Sorted_StronglySorted. intros x y z. apply Qle_trans.
Qed.

Section LimitsFacts.

Variable spline : Type.
Variable call : spline -> Q -> Q.
Variable antiderivative : spline -> Q -> Q.
Variable fit : list Q -> list Z -> option (list Q) -> result spline.
Variable get_spline3_extrema : spline -> list Q * list Q.
Variable bisect : (Q -> Q) -> Q -> Q -> result Q.

Let get_limits := Limits.get_limits spline call antiderivative fit
                    get_spline3_extrema bisect.
Let limits_of_peak := Limits.limits_of_peak spline call antiderivative bisect.
Let limit_finding_function :=
  Limits.limit_finding_function spline call antiderivative bisect.

Lemma limit_finding_function_unknown (m : string) :
  m <> "peak"%string -> m <> "integral"%string ->
  limit_finding_function (Some m) = None.
Proof.
  intros H1 H2. unfold limit_finding_function, Limits.limit_finding_function,
    Limits.functions.
  rewrite lookup_insert_ne by congruence.
  apply lookup_singleton_ne. congruence.
Qed.

Lemma get_limits_unknown data mask variance peaks threshold (m : string) :
  m <> "peak"%string -> m <> "integral"%string ->
  get_limits data mask variance peaks threshold (Some m)
  = get_limits data mask variance peaks threshold None.
Proof.
  intros H1 H2. unfold get_limits, Limits.get_limits.
  destruct (fit data mask variance) as [s|e|]; cbn [mbind result_bind];
    [|reflexivity..].
  destruct (get_spline3_extrema s) as [minima maxima].
  apply traverse_ext. intros peak. unfold Limits.limits_of_peak.
  fold limit_finding_function.
  rewrite (limit_finding_function_unknown m H1 H2). reflexivity.
Qed.

Lemma upper_minimum_spec (minima : list Q) (peak : Q) (npix : nat) :
  let upper := Limits.upper_minimum minima peak npix in
  ((peak < upper)%Q /\ In upper minima
   \/ upper = (inject_Z (Z.of_nat npix) - 1)%Q
      /\ Forall (fun m => m <= peak)%Q minima) /\
  (StronglySorted Qle minima ->
   Forall (fun m => ~ (peak < m /\ m < upper)%Q) minima).
Proof.
  unfold Limits.upper_minimum.
  pose proof (find_split (fun m => Qltb peak m) minima) as Hf.
  destruct (List.find _ minima) as [upper|].
  - destruct Hf as (l1 & l2 & -> & Hu & Hl1). apply Qltb_lt in Hu.
    split; [left; split; [exact Hu | apply in_elt]|].
    intros Hs. destruct (StronglySorted_middle l1 l2 upper Hs) as [_ H2].
    apply Forall_app. split; [|constructor].
    + eapply Forall_impl; [exact Hl1|]. intros m Hm%Qltb_ge [A _]. lra.
    + intros [_ A]. lra.
    + eapply Forall_impl; [exact H2|]. intros m Hm [_ A]. cbv beta in Hm. lra.
  - assert (Hall : Forall (fun m => m <= peak)%Q minima)
      by (eapply Forall_impl; [exact Hf|]; intros m Hm%Qltb_ge; exact Hm).
    split; [right; split; [reflexivity | exact Hall]|].
    intros _. eapply Forall_impl; [exact Hall|]. intros m Hm [A _].
    cbv beta in Hm. lra.
Qed.

Lemma lower_minimum_spec (minima : list Q) (peak : Q) :
  let lower := Limits.lower_minimum minima peak in
  ((lower < peak)%Q /\ In lower minima
   \/ lower = 0%Q /\ Forall (fun m => peak <= m)%Q minima) /\
  (StronglySorted Qle minima ->
   Forall (fun m => ~ (lower < m /\ m < peak)%Q) minima).
Proof.
  unfold Limits.lower_minimum.
  pose proof (find_split (fun m => Qltb m peak) (rev minima)) as Hf.
  destruct (List.find _ (rev minima)) as [lower|].
  - destruct Hf as (l1 & l2 & Hrev & Hu & Hl1). apply Qltb_lt in Hu.
    assert (Hmin : minima = rev l2 ++ lower :: rev l1).
    { rewrite <- (rev_involutive minima), Hrev, rev_app_distr. simpl.
      rewrite <- app_assoc. reflexivity. }
    rewrite Hmin.
    split; [left; split; [exact Hu | apply in_elt]|].
    intros Hs. destruct (StronglySorted_middle _ _ lower Hs) as [H1 _].
    apply Forall_app. split; [|constructor].
    + eapply Forall_impl; [exact H1|]. intros m Hm [A _]. cbv beta in Hm. lra.
    + intros [A _]. lra.
    + apply Forall_rev. eapply Forall_impl; [exact Hl1|].
      intros m Hm%Qltb_ge [_ A]. lra.
  - assert (Hall : Forall (fun m => peak <= m)%Q minima).
    { rewrite <- (rev_involutive minima). apply Forall_rev.
      eapply Forall_impl; [exact Hf|]. intros m Hm%Qltb_ge. exact Hm. }
    split; [right; split; [reflexivity | exact Hall]|].
    intros _. eapply Forall_impl; [exact Hall|]. intros m Hm [_ A].
    cbv beta in Hm. lra.
Qed.


End LimitsFacts.

(** X16: a sizing method that [get_limits] does not know (any string but
    ["peak"] and ["integral"]) is treated as no method at all: the call
    returns what it returns for [method=None], the minima on either side of
    each peak. *)
Theorem get_limits_unknown_method_is_none
    (spline : Type) (call antiderivative : spline -> Q -> Q)
    (fit : list Q -> list Z -> option (list Q) -> result spline)
    (get_spline3_extrema : spline -> list Q * list Q)
    (bisect : (Q -> Q) -> Q -> Q -> result Q)
    (data : list Q) (mask : list Z) (variance : option (list Q))
    (peaks : list Q) (threshold : Q) (method : string) :
  method <> "peak"%string -> method <> "integral"%string ->
  Limits.get_limits spline call antiderivative fit get_spline3_extrema bisect
    data mask variance peaks threshold (Some method)
  = Limits.get_limits spline call antiderivative fit get_spline3_extrema bisect
      data mask variance peaks threshold None.
Proof. apply get_limits_unknown. Qed.


Lemma get_limits_unknown_method_is_none_witness :
  let call := fun (_ : unit) (x : Q) => (x * (10 - x))%Q in
  let antiderivative := fun (_ : unit) (x : Q) => (5 * x * x - x * x * x / 3)%Q in
  let fit := fun (_ : list Q) (_ : list Z) (_ : option (list Q)) => Ok tt in
  let extrema := fun _ : unit => ([0; 10]%Q, [5%Q]) in
  let bisect := fun (_ : Q -> Q) (a b : Q) => Ok ((a + b) / 2)%Q in
  Limits.get_limits unit call antiderivative fit extrema bisect
    [0; 9; 16; 21; 24; 25; 24; 21; 16; 9; 0]%Q [] None [4%Q] (1 # 2)
    (Some "centroid"%string)
  = Limits.get_limits unit call antiderivative fit extrema bisect
      [0; 9; 16; 21; 24; 25; 24; 21; 16; 9; 0]%Q [] None [4%Q] (1 # 2) None.
Proof.
  intros call antiderivative fit extrema bisect.
  apply (get_limits_unknown_method_is_none unit call antiderivative fit extrema bisect);
    discriminate.
Defined.


(** X18: when the fitted spline has no maximum, [get_limits] raises
    [ValueError] as soon as it is given a peak ([np.argmin] of an empty
    array), whatever the sizing method. *)
Theorem get_limits_without_maxima_raises
    (spline : Type) (call antiderivative : spline -> Q -> Q)
    (fit : list Q -> list Z -> option (list Q) -> result spline)
    (get_spline3_extrema : spline -> list Q * list Q)
    (bisect : (Q -> Q) -> Q -> Q -> result Q)
    (data : list Q) (mask : list Z) (variance : option (list Q))
    (peak : Q) (peaks : list Q) (threshold : Q) (method : option string)
    (s : spline) (minima : list Q) :
  fit data mask variance = Ok s ->
  get_spline3_extrema s = (minima, []) ->
  Limits.get_limits spline call antiderivative fit get_spline3_extrema bisect
    data mask variance (peak :: peaks) threshold method
  = Raise ValueError.
Proof.
  intros Hfit Hext. unfold Limits.get_limits.
  rewrite Hfit. cbn [mbind result_bind]. rewrite Hext. reflexivity.
Qed.

Lemma get_limits_without_maxima_raises_witness :
  let call := fun (_ : unit) (x : Q) => x in
  let fit := fun (_ : list Q) (_ : list Z) (_ : option (list Q)) => Ok tt in
  let extrema := fun _ : unit => ([] : list Q, [] : list Q) in
  let bisect := fun (_ : Q -> Q) (a b : Q) => Ok ((a + b) / 2)%Q in
  Limits.get_limits unit call call fit extrema bisect
    [0; 1; 2; 3; 4]%Q [] None [2%Q] 0 None
  = Raise ValueError.
Proof.
  intros call fit extrema bisect.
  apply (get_limits_without_maxima_raises unit call call fit extrema bisect
           [0; 1; 2; 3; 4]%Q [] None 2%Q [] 0 None tt []); reflexivity.
Defined.

(** X19: without a sizing method, and with the minima of the spline in
    ascending order, the limits of a peak are the nearest minimum on each
    side: no minimum lies strictly between the lower limit and the peak,
    nor between the peak and the upper limit; a side without a minimum gets
    the end of the array, [0] or [len(data) - 1]. *)
Theorem get_limits_nearest_minima
    (spline : Type) (call antiderivative : spline -> Q -> Q)
    (fit : list Q -> list Z -> option (list Q) -> result spline)
    (get_spline3_extrema : spline -> list Q * list Q)
    (bisect : (Q -> Q) -> Q -> Q -> result Q)
    (data : list Q) (mask : list Z) (variance : option (list Q))
    (peaks : list Q) (threshold : Q)
    (s : spline) (minima maxima : list Q) (all_limits : list (Q * Q)) :
  fit data mask variance = Ok s ->
  get_spline3_extrema s = (minima, maxima) ->
  Sorted Qle minima ->
  Limits.get_limits spline call antiderivative fit get_spline3_extrema bisect
    data mask variance peaks threshold None = Ok all_limits ->
  Forall2 (fun peak limits =>
             ((fst limits < peak)%Q /\ In (fst limits) minima
              \/ fst limits = 0%Q /\ Forall (fun m => peak <= m)%Q minima) /\
             ((peak < snd limits)%Q /\ In (snd limits) minima
              \/ snd limits = (inject_Z (Z.of_nat (length data)) - 1)%Q
                 /\ Forall (fun m => m <= peak)%Q minima) /\
             Forall (fun m => ~ (fst limits < m /\ m < peak)%Q
                              /\ ~ (peak < m /\ m < snd limits)%Q) minima)
          peaks all_limits.
Proof.
  intros Hfit Hext Hsorted%Sorted_Qle_strong. unfold Limits.get_limits.
  rewrite Hfit. cbn [mbind result_bind]. rewrite Hext.
  apply traverse_Ok_Forall2. intros peak limits _.
  unfold Limits.limits_of_peak.
  destruct (Trace.nearest maxima peak) as [q|]; cbn [mbind result_bind];
    [|discriminate].
  cbv zeta. cbn [Limits.limit_finding_function].
  intros [= <-]. cbn [fst snd].
  destruct (upper_minimum_spec minima peak (length data)) as [Hu1 Hu2].
  destruct (lower_minimum_spec minima peak) as [Hl1 Hl2].
  split; [exact Hl1|]. split; [exact Hu1|].
  specialize (Hu2 Hsorted). specialize (Hl2 Hsorted).
  rewrite List.Forall_forall in Hu2, Hl2 |- *.
  intros m Hm. split; [apply Hl2 | apply Hu2]; exact Hm.
Qed.

Lemma get_limits_nearest_minima_witness :
  let call := fun (_ : unit) (x : Q) => x in
  let fit := fun (_ : list Q) (_ : list Z) (_ : option (list Q)) => Ok tt in
  let extrema := fun _ : unit => ([1; 3; 6; 8]%Q, [2; 5; 7]%Q) in
  let bisect := fun (_ : Q -> Q) (a b : Q) => Ok ((a + b) / 2)%Q in
  Limits.get_limits unit call call fit extrema bisect
    [0; 1; 2; 3; 4; 5; 6; 7; 8; 9]%Q [] None [5; 9]%Q 0 None
  = Ok [(3, 6); (8, 10 - 1)]%Q /\
  Forall2 (fun peak limits =>
             ((fst limits < peak)%Q /\ In (fst limits) [1; 3; 6; 8]%Q
              \/ fst limits = 0%Q /\ Forall (fun m => peak <= m)%Q [1; 3; 6; 8]%Q) /\
             ((peak < snd limits)%Q /\ In (snd limits) [1; 3; 6; 8]%Q
              \/ snd limits = (inject_Z (Z.of_nat 10) - 1)%Q
                 /\ Forall (fun m => m <= peak)%Q [1; 3; 6; 8]%Q) /\
             Forall (fun m => ~ (fst limits < m /\ m < peak)%Q
                              /\ ~ (peak < m /\ m < snd limits)%Q) [1; 3; 6; 8]%Q)
          [5; 9]%Q [(3, 6); (8, 10 - 1)]%Q.
Proof.
  intros call fit extrema bisect.
  assert (H : Limits.get_limits unit call call fit extrema bisect
                [0; 1; 2; 3; 4; 5; 6; 7; 8; 9]%Q [] None [5; 9]%Q 0 None
              = Ok [(3, 6); (8, 10 - 1)]%Q) by reflexivity.
  split; [exact H|].
  apply (get_limits_nearest_minima unit call call fit extrema bisect
           [0; 1; 2; 3; 4; 5; 6; 7; 8; 9]%Q [] None [5; 9]%Q 0 tt
           [1; 3; 6; 8]%Q [2; 5; 7]%Q); [reflexivity | reflexivity | | exact H].
  repeat constructor; discriminate.
Defined.

(** X20: the function whose root [peak_limit] asks [optimize.bisect] for
    is [- threshold * rise] at the minimum and [(1 - threshold) * rise] at
    the peak, where [rise] is the spline at the peak minus the spline at the
    minimum; for a threshold between 0 and 1 its values at the two ends of
    the search interval never have the same strict sign. *)
Theorem peak_limit_search_interval_brackets
    (spline : Type) (call : spline -> Q -> Q)
    (s : spline) (peak limit threshold : Q) :
  let func := Limits.peak_limit_func spline call s peak limit threshold in
  let rise := (call s peak - call s limit)%Q in
  (func limit == - threshold * rise)%Q /\
  (func peak == (1 - threshold) * rise)%Q /\
  ((0 <= threshold <= 1)%Q -> (func limit * func peak <= 0)%Q).
Proof.
  intros func rise. unfold func, rise, Limits.peak_limit_func. cbv zeta.
  set (a := call s peak). set (b := call s limit).
  assert (H1 : (b - (b + threshold * (a - b)) == - threshold * (a - b))%Q) by ring.
  assert (H2 : (a - (b + threshold * (a - b)) == (1 - threshold) * (a - b))%Q) by ring.
  split; [exact H1|]. split; [exact H2|].
  intros [Ht0 Ht1]. rewrite H1, H2.
  assert (E : (- threshold * (a - b) * ((1 - threshold) * (a - b))
               == - ((threshold * (1 - threshold)) * ((a - b) * (a - b))))%Q) by ring.
  rewrite E.
  assert (A : (0 <= threshold * (1 - threshold))%Q)
    by (apply Qmult_le_0_compat; lra).
  assert (B : (0 <= (a - b) * (a - b))%Q).
  { destruct (Qlt_le_dec (a - b) 0) as [Hn|Hp].
    - assert (E' : ((a - b) * (a - b) == (- (a - b)) * (- (a - b)))%Q) by ring.
      rewrite E'. apply Qmult_le_0_compat; lra.
    - apply Qmult_le_0_compat; lra. }
  assert (C : (0 <= threshold * (1 - threshold) * ((a - b) * (a - b)))%Q)
    by (apply Qmult_le_0_compat; assumption).
  lra.
Qed.

(** X21: in [integral_limit], [definite_integral] vanishes at the minimum,
    so that, when the flux between the minimum and the peak is not zero,
    the function handed to [optimize.bisect] is [- threshold] at the
    minimum and [1 - threshold] at the peak: for a threshold between 0 and 1
    the search interval brackets a root. *)
Theorem integral_limit_search_interval_brackets
    (spline : Type) (call antiderivative : spline -> Q -> Q)
    (s : spline) (peak limit other_limit threshold : Q) :
  let definite_integral :=
    Limits.definite_integral spline call antiderivative s limit other_limit in
  let func :=
    Limits.integral_limit_func spline call antiderivative s peak limit
      other_limit threshold in
  ~ (other_limit == limit)%Q ->
  ~ (definite_integral peak == 0)%Q ->
  (definite_integral limit == 0)%Q /\
  (func limit == - threshold)%Q /\
  (func peak == 1 - threshold)%Q /\
  ((0 <= threshold <= 1)%Q -> (func limit * func peak <= 0)%Q).
Proof.
  intros definite_integral func Hdistinct Hflux.
  assert (H0 : (definite_integral limit == 0)%Q).
  { unfold definite_integral, Limits.definite_integral. cbv zeta.
    set (slope := (_ / _)%Q). ring. }
  assert (H1 : (func limit == - threshold)%Q).
  { unfold func, Limits.integral_limit_func. cbv zeta.
    fold definite_integral. rewrite H0. field. lra. }
  assert (H2 : (func peak == 1 - threshold)%Q).
  { unfold func, Limits.integral_limit_func. cbv zeta.
    fold definite_integral. rewrite H0. field. lra. }
  split; [exact H0|]. split; [exact H1|]. split; [exact H2|].
  intros [Ht0 Ht1]. rewrite H1, H2.
  assert (E : (- threshold * (1 - threshold) == - (threshold * (1 - threshold)))%Q)
    by ring.
  rewrite E.
  assert (A : (0 <= threshold * (1 - threshold))%Q)
    by (apply Qmult_le_0_compat; lra).
  lra.
Qed.

Lemma integral_limit_search_interval_brackets_witness :
  let call := fun (_ : unit) (x : Q) => (x * (10 - x))%Q in
  let antiderivative := fun (_ : unit) (x : Q) => (5 * x * x - x * x * x / 3)%Q in
  let func := Limits.integral_limit_func unit call antiderivative tt 5 0 10 (1 # 4) in
  (func 0 == - (1 # 4))%Q /\ (func 5 == 1 - (1 # 4))%Q.
Proof.
  intros call antiderivative func.
  destruct (integral_limit_search_interval_brackets unit call antiderivative
              tt 5 0 10 (1 # 4)) as (_ & H1 & H2 & _).
  - vm_compute. discriminate.
  - vm_compute. discriminate.
  - split; [exact H1 | exact H2].
Defined.

(** ** Properties of [find_apertures_peaks] *)

(** The rows of the transposed result of [find_peaks]: one
    [[location, strength]] per peak. *)
Lemma np_transpose_two_rows (locs snrs : list Q) :
  np_transpose (Array2 [locs; snrs])
  = Array2 (map (fun j => [nth j locs 0%Q; nth j snrs 0%Q]) (seq 0 (length locs))).
Proof. reflexivity. Qed.

Lemma zip_as_seq (locs snrs : list Q) :
  length locs = length snrs ->
  map (fun j => (nth j locs 0%Q, nth j snrs 0%Q)) (seq 0 (length locs))
  = zip locs snrs.
Proof.
  intros Hlen. apply list_eq. intros i.
  rewrite list_lookup_fmap, lookup_zip_with.
  destruct (Nat.lt_ge_cases i (length locs)) as [Hi|Hi].
  - rewrite lookup_seq_lt by exact Hi. simpl.
    destruct (lookup_lt_is_Some_2 locs i Hi) as [a Ha].
    destruct (lookup_lt_is_Some_2 snrs i ltac:(lia)) as [b Hb].
    rewrite Ha, Hb. simpl.
    rewrite (nth_lookup_Some _ _ _ _ Ha), (nth_lookup_Some _ _ _ _ Hb). reflexivity.
  - rewrite lookup_seq_ge by exact Hi. simpl.
    rewrite (lookup_ge_None_2 locs i) by exact Hi. reflexivity.
Qed.

Lemma keyed_rows (pairs : list (Q * Q)) :
  traverse (fun x : list Q => key ← py_getitem x 1; Ok (key, x))
           (map (fun p => [fst p; snd p]) pairs)
  = Ok (map (fun p => (snd p, [fst p; snd p])) pairs).
Proof.
  induction pairs as [|p pairs IH]; [reflexivity|].
  simpl. rewrite IH. reflexivity.
Qed.

Lemma rows_as_pairs (locs snrs : list Q) :
  length locs = length snrs ->
  map (fun j => [nth j locs 0%Q; nth j snrs 0%Q]) (seq 0 (length locs))
  = map (fun p => [fst p; snd p]) (zip locs snrs).
Proof.
  intros Hlen. rewrite <- (zip_as_seq locs snrs Hlen), List.map_map. reflexivity.
Qed.



Lemma py_slice_from_start {X : Type} (l : list X) (m : Z) :
  py_slice l 0 m = take (py_index (length l) m) l.
Proof.
  unfold py_slice. replace (py_index (length l) 0) with 0%nat.
  - rewrite drop_0, Nat.sub_0_r. reflexivity.
  - unfold py_index. simpl. lia.
Qed.


(** Without candidates from the ridge-line search, [find_peaks] returns
    the array of two empty rows. *)
Lemma find_peaks_no_candidates spline (st : FindPeaks.locals) min_snr min_sep reject_bad :
  length (FindPeaks.mask st) = length (FindPeaks.pinpoint_data st) ->
  length (FindPeaks.snr st) = length (FindPeaks.pinpoint_data st) ->
  FindPeaks.peaks st = [] ->
  FindPeaks.find_peaks spline st min_snr min_sep reject_bad = Ok (Array2 [[]; []]).
Proof.
  intros Hmask Hsnr Hnone. unfold FindPeaks.find_peaks. rewrite Hnone.
  change (FindPeaks.snr_filter (FindPeaks.snr st) min_snr []) with (Ok ([] : list Z)).
  cbn [mbind result_bind].
  change (FindPeaks.remove_adjacent []) with (Ok ([] : list Q)).
  cbn [mbind result_bind].
  unfold FindPeaks.filter_and_finish. cbv zeta.
  change (FindPeaks.edge_filter _ _ []) with ([] : list Q).
  change (FindPeaks.mask_filter _ _ []) with ([] : list Q).
  unfold FindPeaks.pinpoint_and_finish, FindPeaks.clip_noise.
  rewrite Hsnr, Nat.eqb_refl. cbn [mbind result_bind].
  rewrite pinpoint_peaks_nil.
  - cbn [mbind result_bind]. unfold FindPeaks.separate_and_finish. simpl.
    apply build_nil.
  - rewrite length_zip_with_l_eq by (symmetry; exact Hsnr). exact Hmask.
Qed.

Section FindAperturesFacts.

Variable spline_integrate : list Q -> Q -> Q -> Q.
Variable find_peaks_head :
  list Q -> list Q -> option (list Z) -> option (list Q) -> Q -> Q -> option Z
  -> result (nat * list bool * list Z * list Q * list Q).
Variable spline : Type.
Variable call : spline -> Q -> Q.
Variable antiderivative : spline -> Q -> Q.
Variable fit : list Q -> list Z -> option (list Q) -> result spline.
Variable get_spline3_extrema : spline -> list Q * list Q.
Variable bisect : (Q -> Q) -> Q -> Q -> result Q.
Variable not_signal : Z.

Let find_apertures_peaks :=
  FindApertures.find_apertures_peaks spline_integrate find_peaks_head
    spline call antiderivative fit get_spline3_extrema bisect not_signal.

(** The call of [find_peaks] that [find_apertures_peaks] makes. *)
Let found (profile : list Q) (prof_mask : list Z) (use_snr : bool) :=
  FindPeaksCall.find_peaks spline_integrate find_peaks_head
    profile FindApertures.widths
    (Some (map (fun m => Z.land m not_signal) prof_mask))
    (if use_snr then Some [1%Q] else None) 3%Q 1%Q (1 # 5)%Q false (Some 0).

Lemma find_peaks_call_shape data widths mask variance min_snr min_sep min_frac
    reject_bad pinpoint_index T :
  FindPeaksCall.find_peaks spline_integrate find_peaks_head data widths mask
    variance min_snr min_sep min_frac reject_bad pinpoint_index = Ok T ->
  exists locs snrs, T = Array2 [locs; snrs] /\ length locs = length snrs.
Proof.
  unfold FindPeaksCall.find_peaks.
  destruct (py_max widths) as [max_width|e|]; cbn [mbind result_bind];
    [|discriminate..].
  destruct (find_peaks_head _ _ _ _ _ _ _) as [[[[[n m] p] pd] snr]|e|];
    cbn [mbind result_bind]; [|discriminate..].
  intros HT. destruct (find_peaks_ok _ _ _ _ _ _ HT) as (locs & snrs & -> & Hlen & _).
  exists locs, snrs. split; [reflexivity | exact Hlen].
Qed.

Lemma find_apertures_peaks_none profile prof_mask max_apertures threshold
    sizing_method (use_snr : bool) (data_len : nat) (dq : list bool)
    (pinpoint_data snr : list Q) :
  find_peaks_head profile FindApertures.widths
    (Some (map (fun m => Z.land m not_signal) prof_mask))
    (if use_snr then Some [1%Q] else None) 3%Q (1 # 5)%Q (Some 0)
  = Ok (data_len, dq, [] : list Z, pinpoint_data, snr) ->
  length dq = length pinpoint_data ->
  length snr = length pinpoint_data ->
  find_apertures_peaks profile prof_mask max_apertures threshold sizing_method use_snr
  = Ok ([], []).
Proof.
  intros Hhead Hmask Hsnr.
  unfold find_apertures_peaks, FindApertures.find_apertures_peaks,
    FindPeaksCall.find_peaks.
  change (py_max FindApertures.widths) with (Ok (inject_Z 19)).
  cbn [mbind result_bind]. rewrite Hhead. cbn [mbind result_bind].
  rewrite find_peaks_no_candidates by (simpl; first [assumption | reflexivity]).
  reflexivity.
Qed.


Lemma find_apertures_peaks_zero profile prof_mask threshold sizing_method use_snr T :
  found profile prof_mask use_snr = Ok T ->
  np_size T <> 0%nat ->
  find_apertures_peaks profile prof_mask (Some 0) threshold sizing_method use_snr
  = Raise IndexError.
Proof.
  intros HT Hsize.
  unfold find_apertures_peaks, FindApertures.find_apertures_peaks.
  fold (found profile prof_mask use_snr). rewrite HT. cbn [mbind result_bind].
  destruct (Nat.eqb_spec (np_size T) 0); [contradiction|].
  destruct (find_peaks_call_shape _ _ _ _ _ _ _ _ _ _ HT) as (locs & snrs & -> & Hlen).
  unfold FindApertures.strongest.
  rewrite np_transpose_two_rows, (rows_as_pairs locs snrs Hlen), keyed_rows.
  cbn [mbind result_bind]. cbv zeta.
  rewrite py_slice_from_start. unfold py_index. change (0 <? 0) with false.
  cbv iota. rewrite Z.min_l by lia. reflexivity.
Qed.

End FindAperturesFacts.

(** X22: when the ridge-line search of [find_peaks] leaves no candidate
    on the profile (and the arrays built with it have the same length),
    [find_apertures_peaks] returns two empty lists: the empty result of
    [find_peaks] is recognised by its size and [get_limits] is not
    called. *)
Theorem find_apertures_peaks_without_sources
    (spline_integrate : list Q -> Q -> Q -> Q)
    (find_peaks_head :
       list Q -> list Q -> option (list Z) -> option (list Q) -> Q -> Q -> option Z
       -> result (nat * list bool * list Z * list Q * list Q))
    (spline : Type) (call antiderivative : spline -> Q -> Q)
    (fit : list Q -> list Z -> option (list Q) -> result spline)
    (get_spline3_extrema : spline -> list Q * list Q)
    (bisect : (Q -> Q) -> Q -> Q -> result Q)
    (not_signal : Z)
    (profile : list Q) (prof_mask : list Z) (max_apertures : option Z)
    (threshold : Q) (sizing_method : option string) (use_snr : bool)
    (data_len : nat) (dq : list bool) (pinpoint_data snr : list Q) :
  find_peaks_head profile FindApertures.widths
    (Some (map (fun m => Z.land m not_signal) prof_mask))
    (if use_snr then Some [1%Q] else None) 3%Q (1 # 5)%Q (Some 0)
  = Ok (data_len, dq, [] : list Z, pinpoint_data, snr) ->
  length dq = length pinpoint_data ->
  length snr = length pinpoint_data ->
  FindApertures.find_apertures_peaks spline_integrate find_peaks_head
    spline call antiderivative fit get_spline3_extrema bisect not_signal
    profile prof_mask max_apertures threshold sizing_method use_snr
  = Ok ([], []).
Proof. apply find_apertures_peaks_none. Qed.

Lemma find_apertures_peaks_without_sources_witness :
  let head := fun (_ _ : list Q) (_ : option (list Z)) (_ : option (list Q))
                  (_ _ : Q) (_ : option Z) =>
                Ok (6%nat, PinpointRun.mask, [] : list Z, PinpointRun.data,
                    [1; 1; 1; 1; 1; 1]%Q) in
  let call := fun (_ : unit) (x : Q) => x in
  let fit := fun (_ : list Q) (_ : list Z) (_ : option (list Q)) => Ok tt in
  let extrema := fun _ : unit => ([1; 4]%Q, [3%Q]) in
  let bisect := fun (_ : Q -> Q) (a b : Q) => Ok ((a + b) / 2)%Q in
  FindApertures.find_apertures_peaks CubicSpline.integrate head unit call call
    fit extrema bisect 65529
    PinpointRun.data [0; 0; 0; 0; 0; 0] (Some 2) (1 # 10) None false
  = Ok ([], []).
Proof.
  intros head call fit extrema bisect.
  apply (find_apertures_peaks_without_sources CubicSpline.integrate head unit call call
           fit extrema bisect 65529 PinpointRun.data [0; 0; 0; 0; 0; 0]
           (Some 2) (1 # 10) None false 6%nat PinpointRun.mask PinpointRun.data
           [1; 1; 1; 1; 1; 1]%Q); reflexivity.
Defined.



(** X24: with [max_apertures = 0] and at least one peak found,
    [find_apertures_peaks] raises [IndexError]: the empty selection becomes
    an empty one-dimensional array, which has no row [0]. *)
Theorem find_apertures_peaks_zero_apertures_raises
    (spline_integrate : list Q -> Q -> Q -> Q)
    (find_peaks_head :
       list Q -> list Q -> option (list Z) -> option (list Q) -> Q -> Q -> option Z
       -> result (nat * list bool * list Z * list Q * list Q))
    (spline : Type) (call antiderivative : spline -> Q -> Q)
    (fit : list Q -> list Z -> option (list Q) -> result spline)
    (get_spline3_extrema : spline -> list Q * list Q)
    (bisect : (Q -> Q) -> Q -> Q -> result Q)
    (not_signal : Z)
    (profile : list Q) (prof_mask : list Z)
    (threshold : Q) (sizing_method : option string) (use_snr : bool)
    (peaks_and_snrs : ndarray) :
  FindPeaksCall.find_peaks spline_integrate find_peaks_head
    profile FindApertures.widths
    (Some (map (fun m => Z.land m not_signal) prof_mask))
    (if use_snr then Some [1%Q] else None) 3%Q 1%Q (1 # 5)%Q false (Some 0)
  = Ok peaks_and_snrs ->
  np_size peaks_and_snrs <> 0%nat ->
  FindApertures.find_apertures_peaks spline_integrate find_peaks_head
    spline call antiderivative fit get_spline3_extrema bisect not_signal
    profile prof_mask (Some 0) threshold sizing_method use_snr
  = Raise IndexError.
Proof. apply find_apertures_peaks_zero. Qed.

Lemma find_apertures_peaks_zero_apertures_raises_witness :
  let profile :=
    map (fun i => inject_Z (Z.of_nat i * (120 - Z.of_nat i))) (seq 0 121) in
  let head := fun (data _ : list Q) (_ : option (list Z)) (_ : option (list Q))
                  (_ _ : Q) (_ : option Z) =>
                Ok (length data, replicate (length data) false, [60], data,
                    replicate (length data) 10%Q) in
  let call := fun (_ : unit) (x : Q) => x in
  let fit := fun (_ : list Q) (_ : list Z) (_ : option (list Q)) => Ok tt in
  let extrema := fun _ : unit => ([0; 120]%Q, [60%Q]) in
  let bisect := fun (_ : Q -> Q) (a b : Q) => Ok ((a + b) / 2)%Q in
  FindApertures.find_apertures_peaks CubicSpline.integrate head unit call call
    fit extrema bisect 65529
    profile (replicate 121 0) (Some 0) (1 # 10) None false
  = Raise IndexError.
Proof.
  intros profile head call fit extrema bisect.
  eapply (find_apertures_peaks_zero_apertures_raises CubicSpline.integrate head unit
            call call fit extrema bisect 65529 profile (replicate 121 0)
            (1 # 10) None false);
    [vm_compute; reflexivity | discriminate].
Defined.

(** ** The start of [trace_lines] *)

(** X25: when [trace_lines] is asked to recentre its initial peaks
    ([initial_tolerance] is not [None]) on a starting profile in which every
    pixel is masked or not positive, no peak can be pinpointed and the first
    initial peak makes the function raise [ValueError] ([np.argmin] of an
    empty array). *)
Theorem trace_lines_recentring_needs_a_peak
    (spline_integrate : list Q -> Q -> Q -> Q) (data : list Q) (dq : list bool)
    (peak : Q) (initial : list Q) (initial_tolerance : Q) :
  Forall2 (fun d (m : bool) => m = true \/ (d <= 0)%Q) data dq ->
  TraceEnds.initial_peaks spline_integrate data (Some dq) (peak :: initial)
    (Some initial_tolerance)
  = Raise ValueError.
Proof.
  intros Hdead. unfold TraceEnds.initial_peaks.
  rewrite pinpoint_peaks_dead by exact Hdead. reflexivity.
Qed.

Lemma trace_lines_recentring_needs_a_peak_witness :
  TraceEnds.initial_peaks CubicSpline.integrate [0; 0; 5; 0; 0; 0]%Q
    (Some [false; false; true; false; false; false]) [3%Q] (Some 1%Q)
  = Raise ValueError.
Proof.
  apply (trace_lines_recentring_needs_a_peak CubicSpline.integrate).
  repeat constructor; discriminate.
Defined.

Lemma nearest_In (peaks : list Q) (old_peak p : Q) :
  Trace.nearest peaks old_peak = Some p -> In p peaks.
Proof.
  destruct peaks as [|q peaks]; [discriminate|]. intros [= <-].
  assert (H : forall l best, In (foldl (fun best q =>
                 if Qltb (Qabs (q - old_peak)) (Qabs (best - old_peak))
                 then q else best) best l) (best :: l)).
  { induction l as [|x l IH]; intros best; simpl; [left; reflexivity|].
    destruct (Qltb _ _).
    - destruct (IH x) as [H|H]; [right; left; exact H | right; right; exact H].
    - destruct (IH best) as [H|H]; [left; exact H | right; right; exact H]. }
  apply H.
Qed.

(** X26: when [trace_lines] recentres its initial peaks, every peak it
    starts from is one that [pinpoint_peaks] found on the starting profile,
    within [initial_tolerance] of one of the positions given; initial
    positions without such a peak are dropped, so there are at most as many.
    With [initial_tolerance = None] the positions given are used as they
    are. *)
Theorem trace_lines_recentred_peaks_within_tolerance
    (spline_integrate : list Q -> Q -> Q -> Q) (data : list Q)
    (dq : option (list bool)) (initial : list Q) (initial_tolerance : Q)
    (initial_peaks : list Q) :
  TraceEnds.initial_peaks spline_integrate data dq initial (Some initial_tolerance)
    = Ok initial_peaks ->
  TraceEnds.initial_peaks spline_integrate data dq initial None = Ok initial /\
  (length initial_peaks <= length initial)%nat /\
  exists peaks,
    Pinpoint.pinpoint_peaks spline_integrate data dq initial 4 0%Q = Ok peaks /\
    Forall (fun new_peak =>
              In new_peak peaks /\
              Exists (fun peak => Qabs (new_peak - peak) <= initial_tolerance)%Q initial)
           initial_peaks.
Proof.
  unfold TraceEnds.initial_peaks. split; [reflexivity|].
  destruct (Pinpoint.pinpoint_peaks _ _ _ _ _ _) as [peaks|e|];
    cbn [mbind result_bind] in *; [|discriminate..].
  destruct (traverse _ initial) as [kept|e|] eqn:Hkept;
    cbn [mbind result_bind] in *; [|discriminate..].
  injection H as <-. split.
  - rewrite <- (traverse_Ok_length _ _ _ Hkept). apply collect_length.
  - exists peaks. split; [reflexivity|].
    apply collect_Forall.
    assert (Hall : forall l out,
              traverse (fun peak => match Trace.nearest peaks peak with
                                    | Some new_peak =>
                                        Ok (if Qle_bool (Qabs (new_peak - peak)) initial_tolerance
                                            then Some new_peak else None)
                                    | None => Raise ValueError
                                    end) l = Ok out ->
              Forall (fun o => match o with
                               | Some x => In x peaks /\
                                           Exists (fun peak => Qabs (x - peak) <= initial_tolerance)%Q l
                               | None => True
                               end) out).
    { induction l as [|p l IH]; intros out; simpl.
      - intros [= <-]. constructor.
      - destruct (Trace.nearest peaks p) as [new_peak|] eqn:Hn;
          cbn [mbind result_bind]; [|discriminate].
        destruct (traverse _ l) as [ys|e|]; cbn [mbind result_bind]; [|discriminate..].
        intros [= <-]. constructor.
        + destruct (Qle_bool _ _) eqn:E; [|exact I].
          apply Qle_bool_iff in E. split; [eapply nearest_In; exact Hn|].
          apply Exists_cons_hd. exact E.
        + eapply Forall_impl; [apply IH; reflexivity|].
          intros [x|] Hx; [|exact I]. destruct Hx as [H1 H2].
          split; [exact H1 | apply Exists_cons_tl; exact H2]. }
    apply Hall. exact Hkept.
Qed.

Lemma trace_lines_recentred_peaks_within_tolerance_witness :
  let data := map (fun i => inject_Z (Z.of_nat i * (12 - Z.of_nat i))) (seq 0 13) in
  exists new_peak,
    TraceEnds.initial_peaks CubicSpline.integrate data
      (Some (replicate 13 false)) [6; 1]%Q (Some (1 # 2)%Q)
    = Ok [new_peak] /\
    (length [new_peak] <= length [6; 1]%Q)%nat.
Proof.
  intros data. eexists.
  assert (H : TraceEnds.initial_peaks CubicSpline.integrate data
                (Some (replicate 13 false)) [6; 1]%Q (Some (1 # 2)%Q)
              = Ok [_]) by (vm_compute; reflexivity).
  split; [exact H|].
  apply (trace_lines_recentred_peaks_within_tolerance CubicSpline.integrate
           data (Some (replicate 13 false)) [6; 1]%Q (1 # 2) _ H).
Defined.

(** ** What [trace_lines] records *)

Section TraceInside.

Variable spline_integrate : list Q -> Q -> Q -> Q.
Variable data_at : Z -> Z -> nat -> list Q.
Variable mask_at : Z -> Z -> nat -> list bool.
Variable var_all_inf : Z -> Z -> bool.
Variables height width nsum max_missed halfwidth : Z.
Variable max_shift : Q.

Let follow := Trace.follow spline_integrate data_at mask_at width max_missed
                halfwidth max_shift.
Let follow_all := Trace.follow_all spline_integrate data_at mask_at width
                    max_missed halfwidth max_shift.
Let trace_step := Trace.trace_step spline_integrate data_at mask_at var_all_inf
                    height width nsum max_missed halfwidth max_shift.
Let trace_loop := Trace.trace_loop spline_integrate data_at mask_at var_all_inf
                    height width nsum max_missed halfwidth max_shift.

(** A recorded point keeps clear of the two edges. *)
Let inside (c : Q * Q) : Prop :=
  (inject_Z halfwidth <= snd c
   /\ snd c <= inject_Z width - (1 # 2) * inject_Z halfwidth)%Q.

(** One track per feature, all of its points inside. *)
Let tidy (n : nat) (s : Trace.tstate) : Prop :=
  length (Trace.last_coords s) = n /\ length (Trace.coord_lists s) = n /\
  Forall (Forall inside) (Trace.coord_lists s).

Lemma follow_inside step ypos lookback y2 peaks last track last' track' :
  follow step ypos lookback y2 peaks last track = Ok (last', track') ->
  Forall inside track -> Forall inside track'.
Proof.
  unfold follow, Trace.follow. destruct last as [last_row [old_peak|]].
  - destruct (step =? 0); [discriminate|].
    destruct (Trace.match_peak _ _ _ _ _ _ _ _ _ _ _ _ _) as [[new_coord|]|e|];
      cbn [mbind result_bind]; [| |discriminate..].
    + destruct (Qltb (snd new_coord) _) eqn:E1; cbn [orb].
      * intros [= <- <-] H. exact H.
      * destruct (Qltb _ (snd new_coord)) eqn:E2.
        -- intros [= <- <-] H. exact H.
        -- intros [= <- <-] H. apply Forall_app. split; [exact H|].
           constructor; [|constructor].
           apply Qltb_ge in E1, E2. split; assumption.
    + destruct (_ <? _); intros [= <- <-] H; exact H.
  - intros [= <- <-] H. exact H.
Qed.

Lemma follow_all_inside step ypos lookback y2 peaks lasts tracks lasts' tracks' :
  follow_all step ypos lookback y2 peaks lasts tracks = Ok (lasts', tracks') ->
  length lasts = length tracks ->
  Forall (Forall inside) tracks ->
  length lasts' = length lasts /\ length tracks' = length tracks /\
  Forall (Forall inside) tracks'.
Proof.
  revert tracks lasts' tracks'.
  induction lasts as [|last lasts IH]; intros tracks lasts' tracks'.
  - destruct tracks; [|discriminate 2]. intros [= <- <-] _ _.
    repeat split. constructor.
  - destruct tracks as [|t tracks]; [discriminate 2|].
    unfold follow_all. simpl. fold follow_all. fold follow.
    destruct (follow step ypos lookback y2 peaks last t) as [[last1 track1]|e|] eqn:Hone;
      cbn [mbind result_bind]; [|discriminate..].
    destruct (follow_all step ypos lookback y2 peaks lasts tracks)
      as [[lasts1 tracks1]|e|] eqn:Hrest; cbn [mbind result_bind]; [|discriminate..].
    intros [= <- <-] Hlen Hin. simpl in Hlen.
    apply Forall_cons in Hin as [Ht Htracks].
    destruct (IH tracks lasts1 tracks1 Hrest ltac:(lia) Htracks) as (H1 & H2 & H3).
    simpl. repeat split; [lia | lia |].
    constructor; [|exact H3].
    exact (follow_inside _ _ _ _ _ _ _ _ _ Hone Ht).
Qed.

Lemma trace_step_tidy n step s r :
  trace_step step s = Ok r -> tidy n s ->
  tidy n (match r with inl s' => s' | inr s' => s' end).
Proof.
  unfold trace_step, Trace.trace_step, tidy. cbv zeta.
  destruct (orb (Qltb _ _) (Qltb _ _)).
  - intros [= <-]. simpl. tauto.
  - destruct (andb _ _).
    + destruct (Pinpoint.pinpoint_peaks _ _ _ _ _ _) as [peaks|e|];
        cbn [mbind result_bind]; [|discriminate..].
      fold follow_all.
      destruct (follow_all _ _ _ _ _ _ _) as [[lasts tracks]|e|] eqn:Hall;
        cbn [mbind result_bind]; [|discriminate..].
      intros Hr (Hl & Ht & Hin).
      destruct (follow_all_inside _ _ _ _ _ _ _ _ _ Hall ltac:(lia) Hin)
        as (H1 & H2 & H3).
      destruct (Trace.all_lost _); injection Hr as <-; simpl;
        repeat split; solve [lia | exact H3].
    + cbn [mbind result_bind].
      intros Hr. destruct (Trace.all_lost _); injection Hr as <-; simpl; tauto.
Qed.

Lemma trace_loop_tidy n fuel step s s_end :
  trace_loop fuel step s = Ok s_end -> tidy n s -> tidy n s_end.
Proof.
  revert s; induction fuel as [|fuel IH]; intros s;
    unfold trace_loop; simpl; fold trace_step; fold trace_loop;
    pose proof (trace_step_tidy n step s) as Hstep;
    destruct (trace_step step s) as [[s'|s']|e|]; cbn [mbind result_bind];
    try discriminate.
  - intros [= <-] Hs. exact (Hstep _ eq_refl Hs).
  - intros Hrun Hs. apply (IH s' Hrun). exact (Hstep _ eq_refl Hs).
  - intros [= <-] Hs. exact (Hstep _ eq_refl Hs).
Qed.

Lemma trace_lines_tidy start step initial_peaks tracks :
  Trace.trace_lines spline_integrate data_at mask_at var_all_inf height width
    nsum max_missed halfwidth max_shift start step initial_peaks = Ok tracks ->
  length tracks = length initial_peaks /\ Forall (Forall inside) tracks.
Proof.
  unfold Trace.trace_lines, Trace.trace_pass. fold trace_loop.
  destruct (trace_loop _ step _) as [forward|e|] eqn:Hf;
    cbn [mbind result_bind]; [|discriminate..].
  destruct (trace_loop _ (- step) _) as [backward|e|] eqn:Hb;
    cbn [mbind result_bind]; [|discriminate..].
  intros [= <-].
  assert (H1 : tidy (length initial_peaks) forward).
  { apply (trace_loop_tidy _ _ _ _ _ Hf). unfold tidy. simpl.
    rewrite !length_map. repeat split.
    apply Forall_map, Forall_true. intros _. constructor. }
  assert (H2 : tidy (length initial_peaks) backward).
  { apply (trace_loop_tidy _ _ _ _ _ Hb). destruct H1 as (A & B & C).
    unfold tidy. simpl. rewrite length_map. repeat split; assumption. }
  destruct H2 as (_ & B & C). split; assumption.
Qed.

End TraceInside.

(** X27: [trace_lines] returns one track for each initial peak, and every
    point recorded in a track lies at least [halfwidth] from the lower edge
    of the perpendicular axis and at least half of [halfwidth] from its
    upper edge. *)
Theorem trace_lines_tracks_keep_off_the_edges
    (spline_integrate : list Q -> Q -> Q -> Q)
    (data_at : Z -> Z -> nat -> list Q) (mask_at : Z -> Z -> nat -> list bool)
    (var_all_inf : Z -> Z -> bool)
    (height width nsum max_missed halfwidth : Z) (max_shift : Q)
    (start step : Z) (initial_peaks : list Q) (tracks : list (list (Q * Q))) :
  Trace.trace_lines spline_integrate data_at mask_at var_all_inf height width
    nsum max_missed halfwidth max_shift start step initial_peaks = Ok tracks ->
  length tracks = length initial_peaks /\
  Forall (Forall (fun c => inject_Z halfwidth <= snd c
                           /\ snd c <= inject_Z width - (1 # 2) * inject_Z halfwidth)%Q)
         tracks.
Proof. apply trace_lines_tidy. Qed.

Lemma trace_lines_tracks_keep_off_the_edges_witness :
  exists tracks,
    TraceRun.traced = Ok tracks /\
    length tracks = length TraceRun.initial_peaks /\
    Forall (Forall (fun c => inject_Z 2 <= snd c
                             /\ snd c <= inject_Z 6 - (1 # 2) * inject_Z 2)%Q)
           tracks.
Proof.
  eexists.
  assert (H : TraceRun.traced = Ok _) by (vm_compute; reflexivity).
  split; [exact H|].
  exact (trace_lines_tracks_keep_off_the_edges CubicSpline.integrate
           TraceRun.data_at TraceRun.mask_at TraceRun.var_all_inf
           80 6 10 1 2 (1 # 20) TraceRun.start TraceRun.step
           TraceRun.initial_peaks _ H).
Defined.

(** ** The data-quality plane in the optimal extraction *)

Section OptimalMask.

Variable numbers : Type.
Variables bad_pixel cosmic_ray no_data unilluminated : Z.
Variable deviant : numbers -> list Z -> list bool -> nat -> bool.
Variable revise : numbers -> list Z -> list bool -> numbers.

Let BAD_BITS := Optimal.BAD_BITS bad_pixel cosmic_ray no_data unilluminated.
Let pass := Optimal.pass numbers bad_pixel cosmic_ray no_data unilluminated
              deviant revise.
Let loop := Optimal.extraction_loop numbers bad_pixel cosmic_ray no_data
              unilluminated deviant revise.

(** Each pixel keeps the flags it came with, with or without the
    cosmic-ray flag added. *)
Let flagged (dq : list Z) (s : Optimal.ostate numbers) : Prop :=
  Forall2 (fun before after => after = before \/ after = Z.lor before cosmic_ray)
          dq (Optimal.mask s).

Lemma pass_flagged dq s : flagged dq s -> flagged dq (pass s).1.
Proof.
  unfold flagged, pass, Optimal.pass. cbv zeta. cbn [fst Optimal.mask].
  generalize (deviant (Optimal.state s) (Optimal.mask s) (Optimal.unmask s)).
  intros hits H. revert hits.
  induction H as [|m0 m dq' l Hm Hrest IH]; intros hits; [constructor|].
  simpl. constructor.
  - destruct (hits 0%nat); [|exact Hm].
    destruct Hm as [-> | ->]; [right; reflexivity|].
    right. rewrite <- Z.lor_assoc, Z.lor_diag. reflexivity.
  - apply (IH (fun i => hits (S i))).
Qed.

Lemma pass_unmask s :
  Optimal.unmask (pass s).1
  = map (fun m => Z.land m BAD_BITS =? 0) (Optimal.mask (pass s).1).
Proof. reflexivity. Qed.

Lemma loop_flagged dq fuel max_iters s s_end :
  loop fuel max_iters s = Ok s_end -> flagged dq s -> 0 <= Optimal.iter s ->
  flagged dq s_end /\
  Optimal.unmask s_end = map (fun m => Z.land m BAD_BITS =? 0) (Optimal.mask s_end) /\
  1 <= Optimal.iter s_end.
Proof.
  revert s; induction fuel as [|fuel IH]; intros s;
    unfold loop; rewrite extraction_loop_unfold; fold pass; fold loop;
    pose proof (pass_flagged dq s) as Hp;
    pose proof (pass_unmask s) as Hu;
    pose proof (pass_iter numbers bad_pixel cosmic_ray no_data unilluminated
                  deviant revise s) as Hi; fold pass in Hi;
    destruct (pass s) as [s1 last] eqn:Hpass; cbn [fst snd] in *;
    destruct (Optimal.finished _ _ _).
  - intros [= <-] Hs H0. split; [apply Hp, Hs|]. split; [exact Hu | lia].
  - discriminate.
  - intros [= <-] Hs H0. split; [apply Hp, Hs|]. split; [exact Hu | lia].
  - intros Hrun Hs H0. apply (IH s1 Hrun); [apply Hp, Hs | lia].
Qed.

End OptimalMask.

(** X28: the optimal extraction never clears a data-quality flag: when its
    loop ends, every pixel of the mask holds the value it came with, with
    or without the cosmic-ray bit added; the final [unmask] array marks
    exactly the pixels without any of the bad bits, and at least one pass
    has been made. *)
Theorem optimal_extraction_only_adds_the_cosmic_ray_flag
    (numbers : Type) (bad_pixel cosmic_ray no_data unilluminated : Z)
    (deviant : numbers -> list Z -> list bool -> nat -> bool)
    (revise : numbers -> list Z -> list bool -> numbers)
    (max_iters : option Z) (dq : list Z) (x : numbers)
    (s : Optimal.ostate numbers) :
  Optimal.optimal_extraction numbers bad_pixel cosmic_ray no_data unilluminated
    deviant revise max_iters dq x = Ok s ->
  Forall2 (fun before after => after = before \/ after = Z.lor before cosmic_ray)
          dq (Optimal.mask s) /\
  Optimal.unmask s
  = map (fun m => Z.land m (Optimal.BAD_BITS bad_pixel cosmic_ray no_data
                              unilluminated) =? 0)
        (Optimal.mask s) /\
  1 <= Optimal.iter s.
Proof.
  intros Hrun. unfold Optimal.optimal_extraction in Hrun.
  apply (loop_flagged numbers bad_pixel cosmic_ray no_data unilluminated
           deviant revise dq _ _ _ _ Hrun).
  - simpl. clear. induction dq; constructor; [left; reflexivity | assumption].
  - simpl. lia.
Qed.

Lemma optimal_extraction_only_adds_the_cosmic_ray_flag_witness :
  exists s,
    ExtractionRun.ray_per_pass (Some 2) 5 = Ok s /\
    Optimal.mask s = [8; 8; 8; 0; 0] /\
    Forall2 (fun before after => after = before \/ after = Z.lor before 8)
            (replicate 5 0) (Optimal.mask s).
Proof.
  eexists.
  assert (H : ExtractionRun.ray_per_pass (Some 2) 5 = Ok _) by (vm_compute; reflexivity).
  split; [exact H|]. split; [reflexivity|].
  apply (optimal_extraction_only_adds_the_cosmic_ray_flag nat ExtractionRun.bad_pixel
           ExtractionRun.cosmic_ray ExtractionRun.no_data ExtractionRun.unilluminated
           ExtractionRun.ray_at_pass ExtractionRun.next_pass (Some 2)
           (replicate 5 0) 0%nat _ H).
Defined.

(** ** The arrays returned by [trace_lines] *)

Lemma np_transpose_tuples (p : Q * Q) (l : list (Q * Q)) :
  np_transpose (np_array_of_tuples (p :: l))
  = Array2 [map fst (p :: l); map snd (p :: l)].
Proof.
  unfold np_array_of_tuples, np_transpose. cbn [map hd length seq].
  rewrite !map_map. reflexivity.
Qed.

Lemma reference_points (coord_lists : list (list (Q * Q))) (initial_peaks : list Q) :
  length coord_lists = length initial_peaks ->
  let zipped := concat (zip_with (fun coo ref => map (fun c => (fst c, ref)) coo)
                                 coord_lists initial_peaks) in
  map fst zipped = map fst (concat coord_lists) /\
  map snd zipped
  = concat (zip_with (fun coo ref => replicate (length coo) ref)
                     coord_lists initial_peaks).
Proof.
  revert initial_peaks.
  induction coord_lists as [|coo rest IH]; intros [|ref refs] Hlen;
    try discriminate Hlen; cbn zeta; [split; reflexivity|].
  injection Hlen as Hlen. destruct (IH refs Hlen) as [IH1 IH2].
  cbn [zip_with concat]. rewrite !map_app, IH1, IH2, !map_map. cbn [fst snd].
  split; [reflexivity|]. f_equal.
  clear. induction coo as [|c coo IHc]; [reflexivity|].
  cbn [map length replicate]. rewrite IHc. reflexivity.
Qed.

(** X29: for one track per initial peak, [trace_lines] returns two arrays
    of two rows with one column per recorded point: the row of the
    positions along the dispersion is the same in both, the other row
    holds the traced positions in the second array and, in the first, the
    initial peak of the track the point belongs to; the rows are swapped
    unless [axis] is 1.  When no point was recorded both arrays are
    one-dimensional and empty. *)
Theorem trace_lines_returned_arrays
    (axis : Z) (coord_lists : list (list (Q * Q))) (initial_peaks : list Q) :
  length coord_lists = length initial_peaks ->
  let points := concat coord_lists in
  let refs := concat (zip_with (fun coo ref => replicate (length coo) ref)
                               coord_lists initial_peaks) in
  TraceEnds.coords axis coord_lists initial_peaks
  = match points with
    | [] => (Array1 [], Array1 [])
    | _ :: _ =>
        if axis =? 1
        then (Array2 [map fst points; refs], Array2 [map fst points; map snd points])
        else (Array2 [refs; map fst points], Array2 [map snd points; map fst points])
    end.
Proof.
  intros Hlen. cbv zeta.
  destruct (reference_points coord_lists initial_peaks Hlen) as [H1 H2].
  cbv zeta in H1, H2. unfold TraceEnds.coords. cbv zeta.
  destruct (concat coord_lists) as [|p points] eqn:Hp.
  - destruct (concat (zip_with _ coord_lists initial_peaks)) as [|q zipped];
      [|discriminate H1].
    cbn. destruct (axis =? 1); reflexivity.
  - destruct (concat (zip_with _ coord_lists initial_peaks)) as [|q zipped] eqn:Hz;
      [discriminate H1|].
    rewrite !np_transpose_tuples, H1, H2.
    destruct (axis =? 1); reflexivity.
Qed.

Lemma trace_lines_returned_arrays_witness :
  TraceEnds.coords 0 [[(30, 3); (40, 4)]; []; [(30, 7)]]%Q [3; 5; 7]%Q
  = (Array2 [[3; 3; 7]; [30; 40; 30]], Array2 [[3; 4; 7]; [30; 40; 30]])%Q.
Proof.
  exact (trace_lines_returned_arrays 0 [[(30, 3); (40, 4)]; []; [(30, 7)]]%Q
           [3; 5; 7]%Q eq_refl).
Defined.
